(** * VoiceKey fractal detection: a shallow embedding of [analyze.py]

    The development follows the source file function by function:
    [vectorized_higuchi_fd], [vectorized_dfa], [analyze_audio],
    [adaptive_threshold], [classify_voice] and [retroactive_analysis].

    Numbers.  Python [int]s are [Z].  Window durations and time stamps are
    exact rationals ([Q]).  Samples and feature values are IEEE doubles in
    the program; here they are real numbers ([R]), rounding is abstracted
    away, and the one non-finite value that the pipeline stores ([nan]) is
    kept explicit in [float64].  The value [-inf], which [np.log] yields at
    zero, only lives between [np.log] and [np.polyfit] and is kept in
    [xfloat].

    The file has three parts: the program, the reference definitions in
    which the documentation's wording is stated, and the properties. *)

From Stdlib Require Import ZArith List Reals Lra Lia QArith Qminmax Bool.
From Stdlib Require Lqa.
From Corelib Require PrimFloat.
Import ListNotations.

Set Implicit Arguments.

(** ** Exceptions and the error monad

    The exceptions that the modelled code can raise; [LinAlgError] is what
    numpy's least-squares driver raises when it does not converge. *)

Inductive exn : Type :=
| ValueError
| IndexError
| TypeError
| LinAlgError.

Inductive result (A : Type) : Type :=
| Ok (a : A)
| Raise (e : exn).

Arguments Ok {A} a.
Arguments Raise {A} e.

Definition bind {A B : Type} (m : result A) (f : A -> result B) : result B :=
  match m with
  | Ok a => f a
  | Raise e => Raise e
  end.

Notation "x <- m ;; k" := (bind m (fun x => k))
  (at level 61, m at next level, right associativity).
Notation "' pat <- m ;; k" := (bind m (fun x => match x with pat => k end))
  (at level 61, pat pattern, m at next level, right associativity).

(** [for x in l: body], threaded through an accumulator; the first
    exception aborts the loop. *)
Fixpoint for_each {A S : Type} (l : list A) (body : A -> S -> result S) (s : S)
  : result S :=
  match l with
  | [] => Ok s
  | x :: l' => s' <- body x s ;; for_each l' body s'
  end.

(** [[f(x) for x in l]] where [f] may raise. *)
Fixpoint map_result {A B : Type} (f : A -> result B) (l : list A)
  : result (list B) :=
  match l with
  | [] => Ok []
  | x :: l' => y <- f x ;; ys <- map_result f l' ;; Ok (y :: ys)
  end.

(** ** Python and numpy helpers on integers and lists *)

Definition len {A : Type} (l : list A) : Z := Z.of_nat (length l).

(** [np.arange(a, b)] on integers. *)
Definition arange (a b : Z) : list Z :=
  map (fun j => a + Z.of_nat j)%Z (seq 0 (Z.to_nat (b - a))).

(** [range(start, stop, step)]; a zero step is a [ValueError]. *)
Definition range_count (start stop step : Z) : nat :=
  if (0 <? step)%Z then Z.to_nat ((stop - start + step - 1) / step)
  else Z.to_nat ((start - stop - step - 1) / (- step)).

Definition py_range (start stop step : Z) : result (list Z) :=
  if (step =? 0)%Z then Raise ValueError
  else Ok (map (fun j => start + Z.of_nat j * step)%Z
               (seq 0 (range_count start stop step))).

(** [range(n)]. *)
Definition range (n : Z) : list Z := arange 0 n.

(** A slice bound is first made absolute (negative bounds count from the
    end) and then clamped to the list. *)
Definition slice_bound (n i : Z) : Z :=
  if (i <? 0)%Z then Z.max 0 (i + n) else Z.min i n.

(** [l[i:j]]. *)
Definition slice {A : Type} (l : list A) (i j : Z) : list A :=
  let a := slice_bound (len l) i in
  let b := slice_bound (len l) j in
  firstn (Z.to_nat (b - a)) (skipn (Z.to_nat a) l).

(** [l[:n]]. *)
Definition take {A : Type} (l : list A) (n : Z) : list A := slice l 0 n.

(** [l[i]], with Python's negative indices. *)
Definition index {A : Type} (l : list A) (i : Z) : result A :=
  let j := if (i <? 0)%Z then (i + len l)%Z else i in
  if (j <? 0)%Z then Raise IndexError
  else match nth_error l (Z.to_nat j) with
       | Some x => Ok x
       | None => Raise IndexError
       end.

(** [min(...)] of a sequence of integers; empty is a [ValueError]. *)
Definition py_min (l : list Z) : result Z :=
  match l with
  | [] => Raise ValueError
  | x :: l' => Ok (fold_left Z.min l' x)
  end.

(** [int(q)]: truncation towards zero. *)
Definition int_of_Q (q : Q) : Z := Z.quot (Qnum q) (Zpos (Qden q)).

(** [a[mask]]: boolean-mask selection. *)
Fixpoint select {A : Type} (l : list A) (mask : list bool) : list A :=
  match l, mask with
  | x :: l', b :: mask' => if b then x :: select l' mask' else select l' mask'
  | _, _ => []
  end.

(** ** Floating-point values

    [float64] is what the feature series hold: a real number or [nan].
    Arithmetic propagates [nan]; every comparison with [nan] is false. *)

Inductive float64 : Type :=
| Num (r : R)
| NaN.

Definition lift1 (f : R -> R) (a : float64) : float64 :=
  match a with
  | Num x => Num (f x)
  | NaN => NaN
  end.

Definition lift2 (f : R -> R -> R) (a b : float64) : float64 :=
  match a, b with
  | Num x, Num y => Num (f x y)
  | _, _ => NaN
  end.

Definition fadd : float64 -> float64 -> float64 := lift2 Rplus.
Definition fsub : float64 -> float64 -> float64 := lift2 Rminus.
Definition fmul : float64 -> float64 -> float64 := lift2 Rmult.

Definition fsqrt (a : float64) : float64 :=
  match a with
  | Num x => if Rlt_dec x 0 then NaN else Num (sqrt x)
  | NaN => NaN
  end.

(** [a > b] on doubles. *)
Definition fgt (a b : float64) : bool :=
  match a, b with
  | Num x, Num y => if Rlt_dec y x then true else false
  | _, _ => false
  end.

Definition Rsum (l : list R) : R := fold_right Rplus 0%R l.

(** [np.sum], [np.mean] and [np.std] (population standard deviation).  The
    mean of an empty array is [nan] (numpy warns, it does not raise). *)
Definition np_sum (l : list float64) : float64 := fold_right fadd (Num 0) l.

Definition np_mean (l : list float64) : float64 :=
  match l with
  | [] => NaN
  | _ => lift1 (fun s => s / IZR (len l))%R (np_sum l)
  end.

Definition np_std (l : list float64) : float64 :=
  let mu := np_mean l in
  fsqrt (np_mean (map (fun x => lift1 (fun d => d * d)%R (fsub x mu)) l)).

(** The mean of a non-empty list of reals. *)
Definition Rmean (l : list R) : R := (Rsum l / IZR (len l))%R.

(** [np.cumsum]. *)
Fixpoint cumsum_from (acc : R) (l : list R) : list R :=
  match l with
  | [] => []
  | x :: l' => (acc + x)%R :: cumsum_from (acc + x)%R l'
  end.

Definition cumsum (l : list R) : list R := cumsum_from 0%R l.

(** [xfloat] is what [np.log] hands to [np.polyfit]: a real number,
    [-inf] (the logarithm of zero) or [nan] (of a negative number). *)
Inductive xfloat : Type :=
| Fin (r : R)
| NegInf
| XNaN.

Definition np_log (a : float64) : xfloat :=
  match a with
  | Num x =>
      if Rlt_dec 0 x then Fin (ln x)
      else if Req_dec_T x 0 then NegInf
      else XNaN
  | NaN => XNaN
  end.

Fixpoint finite (l : list xfloat) : option (list R) :=
  match l with
  | [] => Some []
  | Fin r :: l' =>
      match finite l' with
      | Some rs => Some (r :: rs)
      | None => None
      end
  | _ :: _ => None
  end.

(** ** Degree-1 least squares

    [np.polyfit(x, y, 1)] solves the least-squares problem for the line
    [slope * x + intercept].  When the abscissae take at least two
    distinct values the solution is unique and given by the normal
    equations below. *)

Definition dot (xs ys : list R) : R :=
  Rsum (map (fun p => fst p * snd p)%R (combine xs ys)).

Definition ols_det (xs : list R) : R :=
  (IZR (len xs) * dot xs xs - Rsum xs * Rsum xs)%R.

Definition ols_slope (xs ys : list R) : R :=
  ((IZR (len xs) * dot xs ys - Rsum xs * Rsum ys) / ols_det xs)%R.

Definition ols_intercept (xs ys : list R) : R :=
  ((Rsum ys - ols_slope xs ys * Rsum xs) / IZR (len xs))%R.

(** Sum of squared residuals of the line [a * x + b]. *)
Definition sq_residual (xs ys : list R) (a b : R) : R :=
  Rsum (map (fun p => (snd p - (a * fst p + b)) * (snd p - (a * fst p + b)))%R
            (combine xs ys)).

Section Estimators.

(** What numpy's least-squares driver returns for a system that is
    rank-deficient or whose data are not finite is decided by LAPACK,
    not by this repository: it is a parameter of the model. *)
Variable lstsq_fallback : list xfloat -> list xfloat -> result (float64 * float64).

(** [np.polyfit(x, y, 1)], returning [(slope, intercept)]. *)
Definition polyfit (xs ys : list xfloat) : result (float64 * float64) :=
  match xs with
  | [] => Raise TypeError
  | _ =>
      if negb (length xs =? length ys)%nat then Raise TypeError
      else
        match finite xs, finite ys with
        | Some rx, Some ry =>
            if Req_dec_T (ols_det rx) 0 then lstsq_fallback xs ys
            else Ok (Num (ols_slope rx ry), Num (ols_intercept rx ry))
        | _, _ => lstsq_fallback xs ys
        end
  end.

(** *** [vectorized_higuchi_fd] *)

Definition k_range (N k_max : Z) : list Z :=
  arange 1 (Z.min k_max (N / 2) + 1).

(** [time_series[i]] for an index that is in range. *)
Definition sample (ts : list R) (i : Z) : R := nth (Z.to_nat i) ts 0%R.

(** The inner loop body: the curve length for scale [k] and offset [m]. *)
Definition Lmk (ts : list R) (k m : Z) : R :=
  let N := len ts in
  let indices := arange 1 ((N - m) / k) in
  let Lmki :=
    Rsum (map (fun i => Rabs (sample ts (m + i * k) - sample ts (m + (i - 1) * k)))
              indices) in
  (Lmki * IZR (N - 1) / IZR (((N - m) / k) * k))%R.

(** [Lk[k_idx] = np.mean(Lmk)]. *)
Definition Lk (ts : list R) (k : Z) : R :=
  Rmean (map (Lmk ts k) (range k)).

Definition vectorized_higuchi_fd (ts : list R) (k_max : Z) : result float64 :=
  let N := len ts in
  let ks := k_range N k_max in
  let x := map (fun k => np_log (Num (1 / IZR k))) ks in
  let y := map (fun k => np_log (Num (Lk ts k))) ks in
  '(slope, _) <- polyfit x y ;;
  Ok slope.

(** *** [vectorized_dfa] *)

Definition default_scale_lim : Z * Z := (5, 100)%Z.

Definition dfa_scales (N : Z) (scale_lim : Z * Z) : list Z :=
  arange (fst scale_lim) (Z.min (snd scale_lim) (N / 4)).

(** [np.polyval(coef, t)] for a degree-1 coefficient pair. *)
Definition polyval (coef : float64 * float64) (t : R) : float64 :=
  fadd (fmul (fst coef) (Num t)) (snd coef).

(** The body of the loop over [j]: root-mean-square residual of segment
    [j] around its fitted line. *)
Definition segment_rms (y : list R) (scale j : Z) : result float64 :=
  let segment := slice y (j * scale) ((j + 1) * scale) in
  let t := map IZR (range scale) in
  coef <- polyfit (map Fin t) (map Fin segment) ;;
  let trend := map (polyval coef) t in
  Ok (fsqrt (np_mean (map (fun p => let d := fsub (Num (fst p)) (snd p) in fmul d d)
                          (combine segment trend)))).

(** The body of the loop over scales.  [N // scale] is numpy's integer
    floor division, which is [0] for a zero divisor, as [Z.div] is;
    [np.zeros] of a negative length is a [ValueError]. *)
Definition F_of_scale (y : list R) (N scale : Z) : result float64 :=
  let segments := (N / scale)%Z in
  if (segments <? 0)%Z then Raise ValueError
  else
    F_scale <- map_result (segment_rms y scale) (range segments) ;;
    Ok (np_mean F_scale).

Definition vectorized_dfa (ts : list R) (scale_lim : Z * Z) : result float64 :=
  let N := len ts in
  let scales := dfa_scales N scale_lim in
  let y := cumsum (map (fun x => x - Rmean ts)%R ts) in
  F <- map_result (F_of_scale y N) scales ;;
  let log_scales := map (fun s => np_log (Num (IZR s))) scales in
  let log_F := map np_log F in
  '(slope, _) <- polyfit log_scales log_F ;;
  Ok slope.

(** *** [analyze_audio]

    The dictionaries keyed by window size are association lists in
    insertion order; keys are compared as Python compares numbers. *)

Definition dict : Type := list (Q * list float64).

Fixpoint dict_mem (k : Q) (d : dict) : bool :=
  match d with
  | [] => false
  | (k', _) :: d' => Qeq_bool k k' || dict_mem k d'
  end.

(** [{size: [] for size in window_sizes}]: a repeated key keeps its
    place and its (empty) value. *)
Fixpoint dict_fresh (keys : list Q) (d : dict) : dict :=
  match keys with
  | [] => d
  | k :: keys' =>
      dict_fresh keys' (if dict_mem k d then d else d ++ [(k, [])])
  end.

(** [d[k].append(v)]; every size appended to is a key, the dictionary
    having been built from the same list of sizes. *)
Definition dict_append (d : dict) (k : Q) (v : float64) : dict :=
  map (fun kv => if Qeq_bool k (fst kv) then (fst kv, snd kv ++ [v]) else kv) d.

Definition dict_values (d : dict) : list (list float64) := map snd d.

Record results : Type := mk_results {
  r_time : list Q;
  r_hfd : dict;
  r_dfa : dict
}.

(** [int(size * sr)], the product taken exactly: it is the binary64
    product whenever [size] is a whole number, as the defaults are. *)
Definition window_samples (size : Q) (sr : Z) : Z :=
  int_of_Q (size * inject_Z sr).

Definition step_samples (sr : Z) : Z :=
  int_of_Q ((1 # 10) * inject_Z sr).

(** [size == window_sizes[0]]. *)
Definition is_first (size : Q) (window_sizes : list Q) : bool :=
  match window_sizes with
  | [] => false
  | s0 :: _ => Qeq_bool size s0
  end.

(** The start offsets visited for one window size. *)
Definition window_offsets (n : Z) (size : Q) (sr : Z) : result (list Z) :=
  py_range 0 (n - window_samples size sr + 1) (step_samples sr).

(** One window position: slice, estimate, append. *)
Definition analyze_window (signal : list R) (sr k_max : Z)
    (window_sizes : list Q) (size : Q) (i : Z) (res : results)
  : result results :=
  let finish := (i + window_samples size sr)%Z in
  let window := slice signal i finish in
  hfd <- vectorized_higuchi_fd window k_max ;;
  dfa_result <- vectorized_dfa window default_scale_lim ;;
  Ok (mk_results
        (if is_first size window_sizes
         then r_time res ++ [inject_Z i / inject_Z sr]
         else r_time res)
        (dict_append (r_hfd res) size hfd)
        (dict_append (r_dfa res) size dfa_result)).

Definition analyze_size (signal : list R) (sr k_max : Z)
    (window_sizes : list Q) (size : Q) (res : results) : result results :=
  offsets <- window_offsets (len signal) size sr ;;
  for_each offsets (analyze_window signal sr k_max window_sizes size) res.

Definition analyze_audio (signal : list R) (sr k_max : Z)
    (window_sizes : list Q) : result (results * Z) :=
  let res := mk_results [] (dict_fresh window_sizes []) (dict_fresh window_sizes []) in
  res' <- for_each window_sizes (analyze_size signal sr k_max window_sizes) res ;;
  Ok (res', sr).

End Estimators.

(** ** [adaptive_threshold] *)

(** [np.concatenate]: an empty sequence of arrays is a [ValueError]. *)
Definition np_concatenate {A : Type} (arrays : list (list A)) : result (list A) :=
  match arrays with
  | [] => Raise ValueError
  | _ => Ok (concat arrays)
  end.

Definition threshold_of (values : list float64) : float64 :=
  fadd (np_mean values) (fmul (Num (25 / 100)) (np_std values)).

Definition adaptive_threshold (res : results) : result (float64 * float64) :=
  all_hfd <- np_concatenate (dict_values (r_hfd res)) ;;
  all_dfa <- np_concatenate (dict_values (r_dfa res)) ;;
  let hfd_threshold := threshold_of all_hfd in
  let dfa_threshold := threshold_of all_dfa in
  Ok (hfd_threshold, dfa_threshold).

(** ** [classify_voice] *)

Definition window_size : Z := 5.
Definition hfd_weight : R := (7 / 10)%R.
Definition dfa_weight : R := (3 / 10)%R.

(** A Python [bool] used as a number. *)
Definition of_bool (b : bool) : float64 := Num (if b then 1 else 0)%R.

(** [is_ai = (hfd_weight * hfd_ai + dfa_weight * dfa_ai) > 0.5]. *)
Definition is_ai (hfd_ai dfa_ai : bool) : bool :=
  fgt (fadd (fmul (Num hfd_weight) (of_bool hfd_ai))
            (fmul (Num dfa_weight) (of_bool dfa_ai)))
      (Num (5 / 10)).

(** The same vote in binary64 arithmetic, literal for literal: [0.7] and
    [0.3] are the nearest doubles, as in Python. *)
Module Binary64.

Import PrimFloat.

#[warnings="-inexact-float"]
Definition is_ai (hfd_ai dfa_ai : bool) : bool :=
  let as_float (b : bool) := if b then 1%float else 0%float in
  ltb 0.5%float (add (mul 0.7%float (as_float hfd_ai))
                     (mul 0.3%float (as_float dfa_ai))).

End Binary64.

(** The two flags of one rolling window starting at [i]. *)
Definition flag (series : dict) (threshold : float64) (spread : R) (i : Z) : bool :=
  let windows := map (fun w => slice w i (i + window_size)) (dict_values series) in
  let avg := np_mean (map np_mean windows) in
  let var := np_mean (map np_std windows) in
  fgt avg threshold || fgt var (Num spread).

(** The loop body of [classify_voice]. *)
Definition classify_at (res : results) (hfd_threshold dfa_threshold : float64)
    (i : Z) : bool :=
  let hfd_ai := flag (r_hfd res) hfd_threshold (1 / 10) i in
  let dfa_ai := flag (r_dfa res) dfa_threshold (5 / 100) i in
  is_ai hfd_ai dfa_ai.

Definition min_length_hfd (res : results) : result Z :=
  py_min (map (fun w => len w) (dict_values (r_hfd res))).

(** The decisions computed by the loop, before padding. *)
Definition computed_decisions (res : results) (hfd_threshold dfa_threshold : float64)
    (min_length : Z) : list bool :=
  map (classify_at res hfd_threshold dfa_threshold)
      (range (min_length - window_size + 1)).

Definition classify_voice (res : results) (hfd_threshold dfa_threshold : float64)
  : result (list bool) :=
  min_length <- min_length_hfd res ;;
  let classifications :=
    computed_decisions res hfd_threshold dfa_threshold min_length in
  final <- index classifications (-1) ;;
  Ok (classifications ++ repeat final (Z.to_nat (window_size - 1))).

(** ** [retroactive_analysis] *)

Record segment_data : Type := mk_segment {
  seg_hfd : list (Q * float64);
  seg_dfa : list (Q * float64);
  seg_classification : float64
}.

Definition Qlt_bool (a b : Q) : bool := negb (Qle_bool b a).

Definition common_length (res : results) (classifications : list bool) : result Z :=
  py_min ([len (r_time res); len classifications]
            ++ map (fun w => len w) (dict_values (r_hfd res))
            ++ map (fun w => len w) (dict_values (r_dfa res))).

(** The three [(start, end)] pairs. *)
Definition segments (total_duration : Q) : list (Q * Q) :=
  let segment_duration := total_duration / 3 in
  [ (0, segment_duration);
    (segment_duration, 2 * segment_duration);
    (2 * segment_duration, total_duration) ].

(** [(time >= start) & (time < end)], pointwise and as a boolean mask. *)
Definition in_segment (bounds : Q * Q) (t : Q) : bool :=
  Qle_bool (fst bounds) t && Qlt_bool t (snd bounds).

Definition segment_indices (times : list Q) (bounds : Q * Q) : list bool :=
  map (in_segment bounds) times.

Definition segment_summary (res : results) (classifications : list bool)
    (min_length : Z) (bounds : Q * Q) : segment_data :=
  let mask := segment_indices (take (r_time res) min_length) bounds in
  let mean_of (kv : Q * list float64) :=
    (fst kv, np_mean (select (take (snd kv) min_length) mask)) in
  mk_segment
    (map mean_of (r_hfd res))
    (map mean_of (r_dfa res))
    (np_mean (select (map of_bool (take classifications min_length)) mask)).

Definition retroactive_analysis (res : results) (classifications : list bool)
  : result (list segment_data) :=
  min_length <- common_length res classifications ;;
  total_duration <- index (r_time res) (min_length - 1) ;;
  Ok (map (segment_summary res classifications min_length)
          (segments total_duration)).

(** ** The run

    [main] threads the stages and the process-wide logger.  The logger is
    the only state that outlives a call; it is modelled as the list of
    records emitted so far and passed explicitly.  Messages are kept as
    structured records. *)

Inductive log_record : Type :=
| Info_start
| Info_analyzing
| Info_analysis_completed
| Error_analysis (e : exn)
| Info_thresholds (hfd_threshold dfa_threshold : float64)
| Info_classified (count : Z)
| Info_retroactive_start
| Info_retroactive_completed
| Info_segment (i : nat) (summary : segment_data)
| Info_overall (ai_generated : bool) (confidence : float64)
| Info_completed
| Error_main (e : exn).

Definition logger : Type := list log_record.

Definition emit (st : logger) (r : log_record) : logger := st ++ [r].

(** What one run hands to the persistence and visualisation stages. *)
Record outputs : Type := mk_outputs {
  out_results : results;
  out_thresholds : float64 * float64;
  out_classifications : list bool;
  out_segments : list segment_data
}.

Definition fmax (a b : float64) : float64 :=
  match a, b with
  | Num x, Num y => Num (Rmax x y)
  | _, _ => NaN
  end.

Module Run.

Section WithDriver.

Variable lstsq_fallback : list xfloat -> list xfloat -> result (float64 * float64).

Definition analyze_audio (signal : list R) (sr k_max : Z) (window_sizes : list Q)
    (st : logger) : result (results * Z) * logger :=
  let st := emit st Info_analyzing in
  match analyze_audio lstsq_fallback signal sr k_max window_sizes with
  | Ok r => (Ok r, emit st Info_analysis_completed)
  | Raise e => (Raise e, emit st (Error_analysis e))
  end.

Definition adaptive_threshold (res : results) (st : logger)
  : result (float64 * float64) * logger :=
  match adaptive_threshold res with
  | Ok (h, d) => (Ok (h, d), emit st (Info_thresholds h d))
  | Raise e => (Raise e, st)
  end.

Definition classify_voice (res : results) (h d : float64) (st : logger)
  : result (list bool) * logger :=
  match classify_voice res h d with
  | Ok cls => (Ok cls, emit st (Info_classified (len (filter (fun b => b) cls))))
  | Raise e => (Raise e, st)
  end.

Definition retroactive_analysis (res : results) (cls : list bool) (st : logger)
  : result (list segment_data) * logger :=
  let st := emit st Info_retroactive_start in
  match retroactive_analysis res cls with
  | Ok segs => (Ok segs, emit st Info_retroactive_completed)
  | Raise e => (Raise e, st)
  end.

(** The body of the [try] block of [main], from the loaded signal on,
    with the default [k_max = 10] and window sizes [[1, 3]].  Writing the
    table and the plot happens between classification and retroactive
    analysis and is left to the collaborators. *)
Definition stages (signal : list R) (sr : Z) (st : logger)
  : result outputs * logger :=
  match analyze_audio signal sr 10 [1; 3] st with
  | (Raise e, st) => (Raise e, st)
  | (Ok (res, _), st) =>
      match adaptive_threshold res st with
      | (Raise e, st) => (Raise e, st)
      | (Ok (h, d), st) =>
          match classify_voice res h d st with
          | (Raise e, st) => (Raise e, st)
          | (Ok cls, st) =>
              match retroactive_analysis res cls st with
              | (Raise e, st) => (Raise e, st)
              | (Ok segs, st) =>
                  let st := fold_left emit
                              (map (fun p => Info_segment (fst p) (snd p))
                                   (combine (seq 1 (length segs)) segs)) st in
                  let overall := np_mean (map of_bool cls) in
                  let ai := fgt overall (Num (5 / 10)) in
                  let confidence := fmax overall (fsub (Num 1) overall) in
                  let st := emit st (Info_overall ai confidence) in
                  (Ok (mk_outputs res (h, d) cls segs), emit st Info_completed)
              end
          end
      end
  end.

Definition main (signal : list R) (sr : Z) (st : logger) : result outputs * logger :=
  let st := emit st Info_start in
  match stages signal sr st with
  | (Ok out, st) => (Ok out, st)
  | (Raise e, st) => (Raise e, emit st (Error_main e))
  end.

End WithDriver.

End Run.

(** The stages composed without the logger. *)
Definition pipeline
    (lstsq_fallback : list xfloat -> list xfloat -> result (float64 * float64))
    (signal : list R) (sr : Z) : result outputs :=
  '(res, _) <- analyze_audio lstsq_fallback signal sr 10 [1; 3] ;;
  '(h, d) <- adaptive_threshold res ;;
  cls <- classify_voice res h d ;;
  segs <- retroactive_analysis res cls ;;
  Ok (mk_outputs res (h, d) cls segs).

(** * Reference definitions

    What the documentation describes, worded independently of the code,
    and the quantities in which the properties below are stated. *)

(** ** Window scan *)

(** The step that the documentation describes: 10% of the smallest
    configured window duration. *)
Definition smallest (window_sizes : list Q) : Q :=
  match window_sizes with
  | [] => 0
  | s :: rest => fold_left Qmin rest s
  end.

Definition documented_step_samples (window_sizes : list Q) (sr : Z) : Z :=
  int_of_Q ((1 # 10) * smallest window_sizes * inject_Z sr).

(** The time stamp recorded for a window that starts at sample [i]. *)
Definition time_of (sr : Z) (i : Z) : Q := inject_Z i / inject_Z sr.

(** The offsets of a size, or none when [range] rejects the step. *)
Definition offsets_or_nil (n : Z) (size : Q) (sr : Z) : list Z :=
  match window_offsets n size sr with
  | Ok offsets => offsets
  | Raise _ => []
  end.

(** ** Higuchi curve lengths *)

(** Higuchi's curve length as the documentation words it: the absolute
    differences of all successive samples [m, m + k, m + 2k, ...] of the
    series, normalised by [(N - 1) / (floor((N - m) / k) * k)]. *)
Definition k_spaced (ts : list R) (k m : Z) : list R :=
  map (fun i => sample ts (m + i * k)) (arange 0 ((len ts - 1 - m) / k + 1)).

Fixpoint successive_differences (l : list R) : list R :=
  match l with
  | x :: (y :: _) as rest => Rabs (y - x) :: successive_differences rest
  | _ => []
  end.

Definition documented_Lmk (ts : list R) (k m : Z) : R :=
  let N := len ts in
  (Rsum (successive_differences (k_spaced ts k m))
   * IZR (N - 1) / IZR (((N - m) / k) * k))%R.

Definition documented_Lk (ts : list R) (k : Z) : R :=
  Rmean (map (documented_Lmk ts k) (range k)).

(** The abscissae and ordinates that [vectorized_higuchi_fd] fits when
    every curve length is positive. *)
Definition log_inverse_scales (ks : list Z) : list R :=
  map (fun k => ln (1 / IZR k)) ks.

Definition log_curve_lengths (ts : list R) (ks : list Z) : list R :=
  map (fun k => ln (Lk ts k)) ks.

(** ** Detrended fluctuations *)

(** The integrated, mean-centred series. *)
Definition profile (ts : list R) : list R :=
  cumsum (map (fun x => x - Rmean ts)%R ts).

(** The fluctuation function as the documentation words it: cut the
    integrated series into [N // s] consecutive segments of length [s],
    remove the least-squares line from each, take the root mean square of
    what is left and average over the segments. *)
Definition segments_of (y : list R) (s : Z) : list (list R) :=
  map (fun j => slice y (j * s) ((j + 1) * s)) (range (len y / s)).

Definition detrended_rms (segment : list R) : R :=
  let t := map IZR (range (len segment)) in
  let a := ols_slope t segment in
  let b := ols_intercept t segment in
  sqrt (sq_residual t segment a b / IZR (len segment)).

Definition fluctuation (y : list R) (s : Z) : R :=
  Rmean (map detrended_rms (segments_of y s)).

(** ** Thresholds *)

(** Population variance and standard deviation of real data. *)
Definition Rvar (l : list R) : R :=
  Rmean (map (fun x => (x - Rmean l) * (x - Rmean l))%R l).

Definition Rstd (l : list R) : R := sqrt (Rvar l).




(** The pooled collection that [adaptive_threshold] reduces. *)
Definition pooled (d : dict) : list float64 := concat (dict_values d).

(** ** Retroactive segments *)

(** The number of retroactive segments that select a time stamp. *)
Definition segments_selecting (total_duration t : Q) : nat :=
  length (filter (fun bounds => in_segment bounds t) (segments total_duration)).

(** ** Sample inputs *)

(** A least-squares driver that answers [nan] on every degenerate system,
    used to instantiate the model.  It is a sample: numpy's own driver
    raises [LinAlgError] on some of these systems, and the properties
    quantify over the driver. *)
Definition lstsq_nan : list xfloat -> list xfloat -> result (float64 * float64) :=
  fun _ _ => Ok (NaN, NaN).

(** A run of four, respectively five, time steps at 10 Hz. *)
Definition four_steps : results :=
  let series := [Num 1; Num 2; Num 3; Num 4] in
  mk_results [0; 1 # 10; 2 # 10; 3 # 10] [(1, series)] [(1, series)].

Definition five_steps : results :=
  let series := [Num 1; Num 2; Num 3; Num 4; Num 5] in
  mk_results [0; 1 # 10; 2 # 10; 3 # 10; 4 # 10] [(1, series)] [(1, series)].

(** Five samples: the offset-0 curve at scale 2 runs over samples 0, 2, 4. *)
Definition five_samples : list R := [0; 1; 2; 3; 7]%R.

(** Four samples: shorter than twice the default [k_max = 10]. *)
Definition four_samples : list R := [0; 1; 2; 4]%R.

(** Ten seconds of a constant signal (silence when [c = 0]) at 16 kHz. *)
Definition constant_recording (c : R) : list R := repeat c (Z.to_nat 160000).

(** * Further reference definitions *)

(** ** The shape of the feature dictionaries *)

(** Keys with the length of their series. *)
Definition shape (d : dict) : list (Q * nat) :=
  map (fun kv => (fst kv, length (snd kv))) d.

(** The window offsets scanned under a key: those of every configured
    size that compares equal to it, in configuration order. *)
Definition windows_for (n sr : Z) (window_sizes : list Q) (key : Q) : list Z :=
  flat_map (fun size => if Qeq_bool size key then offsets_or_nil n size sr else [])
           window_sizes.

(** The number of windows of [ws] samples that fit a signal of [n]
    samples when the scan advances by [step]. *)
Definition window_count (n ws step : Z) : Z :=
  if (ws <=? n)%Z then ((n - ws) / step + 1)%Z else 0%Z.

(** Adding [f key] to the length recorded for every key. *)
Definition grow (f : Q -> nat) (s : list (Q * nat)) : list (Q * nat) :=
  map (fun p => (fst p, (snd p + f (fst p))%nat)) s.

Definition dict_keys (d : dict) : list Q := map fst d.

(** ** Further sample inputs *)

(** Five time steps at 10 Hz whose second HFD value is [nan]. *)
Definition steps_with_nan : results :=
  mk_results [0; 1 # 10; 2 # 10; 3 # 10; 4 # 10]
             [(1, [Num 1; NaN; Num 3; Num 4; Num 5])]
             [(1, [Num 1; Num 2; Num 3; Num 4; Num 5])].

(** ** The overall verdict of [main]

    [overall_classification = np.mean(classifications)], the label
    ['AI-generated' if overall_classification > 0.5 else 'Human'] and
    [confidence = max(overall_classification, 1 - overall_classification)],
    as [Run.stages] logs them. *)

Definition overall_classification (classifications : list bool) : float64 :=
  np_mean (map of_bool classifications).

Definition ai_generated (overall : float64) : bool := fgt overall (Num (5 / 10)).

Definition confidence (overall : float64) : float64 :=
  fmax overall (fsub (Num 1) overall).

(** [sum(classifications)]: the number of steps classified as AI-generated. *)
Definition flagged (classifications : list bool) : Z :=
  len (filter (fun b => b) classifications).

(** ** [save_results_to_csv]

    What the function hands to [DataFrame.to_csv]: the columns of the
    frame in insertion order.  Labels are kept structured, [HFD size]
    standing for [f'HFD_{size}s'] and [DFA size] for [f'DFA_{size}s']. *)

Inductive column_name : Type :=
| Time
| Classification
| HFD (size : Q)
| DFA (size : Q).

Inductive column : Type :=
| Times (l : list Q)
| Flags (l : list bool)
| Values (l : list float64).

Definition rows (c : column) : Z :=
  match c with
  | Times l => len l
  | Flags l => len l
  | Values l => len l
  end.

Definition same_name (a b : column_name) : bool :=
  match a, b with
  | Time, Time => true
  | Classification, Classification => true
  | HFD s, HFD s' => Qeq_bool s s'
  | DFA s, DFA s' => Qeq_bool s s'
  | _, _ => false
  end.

Definition table : Type := list (column_name * column).

(** [d[k]]; [None] stands for the [KeyError] of a missing key. *)
Definition dict_get (d : dict) (k : Q) : option (list float64) :=
  option_map snd (find (fun kv => Qeq_bool k (fst kv)) d).

(** [df[name] = values]: an existing column is replaced in place, a new
    one is appended. *)
Definition set_column (df : table) (name : column_name) (col : column) : table :=
  if existsb (fun c => same_name name (fst c)) df
  then map (fun c => if same_name name (fst c) then (fst c, col) else c) df
  else df ++ [(name, col)].

Inductive save_outcome : Type :=
| Saved (df : table)
| KeyError (size : Q)
| Failed (e : exn).

(** The loop [for size in results['hfd']]. *)
Fixpoint add_feature_columns (res : results) (min_length : Z) (sizes : list Q)
    (df : table) : save_outcome :=
  match sizes with
  | [] => Saved df
  | size :: rest =>
      match dict_get (r_hfd res) size with
      | None => KeyError size
      | Some hfd =>
          let df := set_column df (HFD size) (Values (take hfd min_length)) in
          match dict_get (r_dfa res) size with
          | None => KeyError size
          | Some dfa =>
              add_feature_columns res min_length rest
                (set_column df (DFA size) (Values (take dfa min_length)))
          end
      end
  end.

Definition save_results_to_csv (res : results) (classifications : list bool)
  : save_outcome :=
  match common_length res classifications with
  | Raise e => Failed e
  | Ok min_length =>
      let df := [(Time, Times (take (r_time res) min_length));
                 (Classification, Flags (take classifications min_length))] in
      add_feature_columns res min_length (dict_keys (r_hfd res)) df
  end.

(** A label written by the loop over sizes. *)
Definition feature_name (name : column_name) : bool :=
  match name with
  | HFD _ | DFA _ => true
  | _ => false
  end.

(** ** [plot_results]: the shaded spans

    The arguments [(start, end)] of the calls [ax.axvspan], in the order
    of the calls; both axes get the same ones. *)

(** [enumerate(l)]. *)
Definition enumerate {A : Type} (l : list A) : list (Z * A) :=
  combine (range (len l)) l.

Definition span_at (res : results) (min_length i : Z) : result (Q * Q) :=
  start <- index (r_time res) i ;;
  finish <- (if (i + 1 <? min_length)%Z
             then index (r_time res) (i + 1)
             else index (r_time res) (min_length - 1)) ;;
  Ok (start, finish).

Definition shaded_spans (res : results) (classifications : list bool)
  : result (list (Q * Q)) :=
  min_length <- common_length res classifications ;;
  map_result (fun ic => span_at res min_length (fst ic))
             (filter (fun ic => snd ic)
                     (enumerate (take classifications min_length))).

(** The time steps that get a span. *)
Definition shaded_steps (classifications : list bool) (min_length : Z) : list Z :=
  map fst (filter (fun ic => snd ic)
                  (enumerate (take classifications min_length))).

(** ** [compare_files]: the classification match

    From [comparison-analysis.py].  The two tables are cut to the number
    of rows of the shorter one; the match is the percentage of rows on
    which the two [Classification] columns agree.  The arguments are the
    two columns as read from the tables. *)

Definition classification_match (classification1 classification2 : list bool)
  : float64 :=
  let min_length := Z.min (len classification1) (len classification2) in
  let c1 := take classification1 min_length in
  let c2 := take classification2 min_length in
  let equal := map (fun p => Bool.eqb (fst p) (snd p)) (combine c1 c2) in
  fmul (np_mean (map of_bool equal)) (Num 100).

(** * Properties *)

Unset Implicit Arguments.

(** ** Integer ranges, slices and indexing *)

Lemma arange_length (a b : Z) : length (arange a b) = Z.to_nat (b - a).
Proof. unfold arange. now rewrite length_map, length_seq. Qed.

Lemma In_arange (a b x : Z) : In x (arange a b) <-> (a <= x < b)%Z.
Proof.
  unfold arange. rewrite in_map_iff. split.
  - intros [j [<- Hj]]. apply in_seq in Hj. lia.
  - intros Hx. exists (Z.to_nat (x - a)). split; [lia|].
    apply in_seq. lia.
Qed.

Lemma arange_empty (a b : Z) : (b <= a)%Z -> arange a b = [].
Proof.
  intros H. unfold arange.
  replace (Z.to_nat (b - a)) with 0%nat by lia. reflexivity.
Qed.

Lemma arange_cons (a b : Z) : (a < b)%Z -> arange a b = a :: arange (a + 1) b.
Proof.
  intros H. unfold arange.
  replace (Z.to_nat (b - a)) with (S (Z.to_nat (b - (a + 1)))) by lia.
  change (seq 0 (S (Z.to_nat (b - (a + 1)))))
    with (0%nat :: seq 1 (Z.to_nat (b - (a + 1)))).
  rewrite <- seq_shift, map_cons, map_map. f_equal.
  - simpl. lia.
  - apply map_ext. intros j. lia.
Qed.

Lemma arange_snoc (a b : Z) : (a <= b)%Z -> arange a (b + 1) = arange a b ++ [b].
Proof.
  intros H. unfold arange.
  replace (Z.to_nat (b + 1 - a)) with (S (Z.to_nat (b - a))) by lia.
  rewrite seq_S, map_app. simpl. do 2 f_equal. lia.
Qed.

Lemma len_nonneg {A : Type} (l : list A) : (0 <= len l)%Z.
Proof. unfold len. lia. Qed.

Lemma len_app {A : Type} (l1 l2 : list A) : len (l1 ++ l2) = (len l1 + len l2)%Z.
Proof. unfold len. rewrite length_app. lia. Qed.

Lemma len_map {A B : Type} (f : A -> B) (l : list A) : len (map f l) = len l.
Proof. unfold len. now rewrite length_map. Qed.

Lemma len_arange (a b : Z) : (a <= b)%Z -> len (arange a b) = (b - a)%Z.
Proof. intros H. unfold len. rewrite arange_length. lia. Qed.

(** The abscissae of a detrending fit are [t = 0, 1, ..., s - 1]. *)
Lemma range_succ (n : nat) :
  range (Z.of_nat (S n)) = range (Z.of_nat n) ++ [Z.of_nat n].
Proof.
  unfold range. rewrite Nat2Z.inj_succ. apply arange_snoc. lia.
Qed.

Lemma len_range (n : Z) : (0 <= n)%Z -> len (range n) = n.
Proof. intros H. unfold range. rewrite len_arange; lia. Qed.

Lemma range_count_spec (start stop step : Z) (j : nat) :
  (0 < step)%Z ->
  (j < range_count start stop step)%nat <-> (start + Z.of_nat j * step < stop)%Z.
Proof.
  intros Hstep. unfold range_count.
  destruct (0 <? step)%Z eqn:E; [|apply Z.ltb_ge in E; lia].
  set (q := ((stop - start + step - 1) / step)%Z).
  split; intros H.
  - assert (Hq : (Z.of_nat j + 1 <= q)%Z) by lia.
    assert (Hm : (step * q <= stop - start + step - 1)%Z)
      by (apply Z.mul_div_le; lia).
    nia.
  - assert (Hq : (Z.of_nat j + 1 <= q)%Z).
    { apply Z.div_le_lower_bound; [lia|]. nia. }
    lia.
Qed.

(** [range(start, stop, step)] with a positive step visits exactly the
    values [start + j * step] below [stop]. *)
Lemma In_py_range (start stop step : Z) (l : list Z) (i : Z) :
  (0 < step)%Z -> py_range start stop step = Ok l ->
  In i l <-> exists j, (0 <= j)%Z /\ i = (start + j * step)%Z /\ (i < stop)%Z.
Proof.
  intros Hstep. unfold py_range.
  destruct (step =? 0)%Z eqn:E; [apply Z.eqb_eq in E; lia|].
  intros [= <-]. rewrite in_map_iff. split.
  - intros [j [<- Hj]]. apply in_seq in Hj. exists (Z.of_nat j).
    repeat split; [lia|]. apply range_count_spec; [assumption|lia].
  - intros [j [Hj [-> Hlt]]]. exists (Z.to_nat j).
    rewrite Z2Nat.id by lia. split; [reflexivity|].
    apply in_seq. split; [lia|]. simpl.
    apply range_count_spec; [assumption|]. now rewrite Z2Nat.id by lia.
Qed.

(** [l[-1]] is the last element, and an [IndexError] on the empty list. *)
Lemma index_last {A : Type} (l : list A) (x : A) : index (l ++ [x]) (-1) = Ok x.
Proof.
  unfold index.
  change (-1 <? 0)%Z with true. cbv iota.
  assert (E : (-1 + len (l ++ [x]))%Z = Z.of_nat (length l)).
  { unfold len. rewrite length_app. change (length [x]) with 1%nat. lia. }
  rewrite E.
  destruct (Z.of_nat (length l) <? 0)%Z eqn:Hneg; [apply Z.ltb_lt in Hneg; lia|].
  rewrite Nat2Z.id, nth_error_app2 by lia. now rewrite Nat.sub_diag.
Qed.

Lemma index_nil {A : Type} (i : Z) : index (@nil A) i = Raise IndexError.
Proof.
  unfold index. unfold len. simpl.
  destruct (i <? 0)%Z; simpl.
  - destruct (i + 0 <? 0)%Z; [reflexivity|]. now destruct (Z.to_nat (i + 0)).
  - destruct (i <? 0)%Z; [reflexivity|]. now destruct (Z.to_nat i).
Qed.

Lemma index_nonneg {A : Type} (l : list A) (i : Z) (x : A) :
  (0 <= i)%Z -> nth_error l (Z.to_nat i) = Some x -> index l i = Ok x.
Proof.
  intros Hi Hx. unfold index.
  destruct (i <? 0)%Z eqn:E; [apply Z.ltb_lt in E; lia|].
  rewrite E. now rewrite Hx.
Qed.

Lemma length_slice {A : Type} (l : list A) (i j : Z) :
  (0 <= i <= j)%Z -> (j <= len l)%Z -> len (slice l i j) = (j - i)%Z.
Proof.
  intros Hij Hj. unfold slice, slice_bound.
  destruct (i <? 0)%Z eqn:Ei; [apply Z.ltb_lt in Ei; lia|].
  destruct (j <? 0)%Z eqn:Ej; [apply Z.ltb_lt in Ej; lia|].
  rewrite !Z.min_l by lia.
  unfold len in *. rewrite length_firstn, length_skipn. lia.
Qed.

Lemma slice_from_zero {A : Type} (l : list A) (n : Z) :
  (0 <= n <= len l)%Z -> slice l 0 n = firstn (Z.to_nat n) l.
Proof.
  intros H. unfold slice, slice_bound.
  destruct (n <? 0)%Z eqn:E; [apply Z.ltb_lt in E; lia|].
  change (0 <? 0)%Z with false. cbv iota.
  rewrite !Z.min_l by lia. now rewrite Z.sub_0_r.
Qed.

Lemma slice_split {A : Type} (l : list A) (i j : Z) :
  (0 <= i <= j)%Z -> (j <= len l)%Z -> slice l 0 i ++ slice l i j = slice l 0 j.
Proof.
  intros Hij Hj. rewrite !slice_from_zero by lia.
  unfold slice, slice_bound.
  destruct (i <? 0)%Z eqn:Ei; [apply Z.ltb_lt in Ei; lia|].
  destruct (j <? 0)%Z eqn:Ej; [apply Z.ltb_lt in Ej; lia|].
  rewrite !Z.min_l by lia.
  replace (Z.to_nat j) with (Z.to_nat i + Z.to_nat (j - i))%nat by lia.
  set (n := Z.to_nat i). set (m := Z.to_nat (j - i)).
  rewrite firstn_skipn_comm.
  rewrite <- (firstn_skipn n (firstn (n + m) l)) at 2.
  rewrite firstn_firstn. now replace (Nat.min n (n + m)) with n by lia.
Qed.

Lemma In_slice {A : Type} (x : A) (l : list A) (i j : Z) :
  In x (slice l i j) -> In x l.
Proof.
  unfold slice. intros H.
  set (a := Z.to_nat (slice_bound (len l) i)) in *.
  set (n := Z.to_nat (slice_bound (len l) j - slice_bound (len l) i)) in *.
  rewrite <- (firstn_skipn a l). apply in_or_app. right.
  rewrite <- (firstn_skipn n (skipn a l)). apply in_or_app. now left.
Qed.

Lemma slice_repeat {A : Type} (c : A) (n : nat) (i j : Z) :
  (0 <= i <= j)%Z -> (j <= Z.of_nat n)%Z ->
  slice (repeat c n) i j = repeat c (Z.to_nat (j - i)).
Proof.
  intros Hij Hj.
  assert (Hlen : len (slice (repeat c n) i j) = (j - i)%Z).
  { apply length_slice; [assumption|]. unfold len. now rewrite repeat_length. }
  assert (Hall : Forall (eq c) (slice (repeat c n) i j)).
  { apply Forall_forall. intros x Hx. apply In_slice in Hx.
    symmetry. now apply repeat_spec in Hx. }
  rewrite (Forall_eq_repeat Hall) at 1. f_equal. unfold len in Hlen. lia.
Qed.

Lemma map_result_ok {A B : Type} (f : A -> result B) (g : A -> B) (l : list A) :
  (forall x, In x l -> f x = Ok (g x)) -> map_result f l = Ok (map g l).
Proof.
  induction l as [|x l IH]; intros H; [reflexivity|].
  cbn [map_result map]. rewrite (H x) by now left.
  cbn [bind]. rewrite IH by (intros y Hy; apply H; now right). reflexivity.
Qed.

(** A loop that completes has completed every iteration. *)
Lemma for_each_ok_inv {A S : Type} (body : A -> S -> result S) (l : list A)
    (s s' : S) (x : A) :
  for_each l body s = Ok s' -> In x l -> exists s1 s2, body x s1 = Ok s2.
Proof.
  revert s. induction l as [|y l IH]; intros s H Hin; [contradiction|].
  cbn [for_each] in H. destruct (body y s) as [s1|e] eqn:E; [|discriminate].
  cbn [bind] in H. destruct Hin as [->|Hin]; [now exists s, s1|].
  now apply (IH s1).
Qed.

(** ** Sums of reals and least squares *)

Lemma Rsum_app (l1 l2 : list R) : Rsum (l1 ++ l2) = (Rsum l1 + Rsum l2)%R.
Proof.
  unfold Rsum. induction l1 as [|x l1 IH]; simpl; [lra|]. rewrite IH. lra.
Qed.

Lemma Rsum_nonneg (l : list R) : Forall (fun x => 0 <= x)%R l -> (0 <= Rsum l)%R.
Proof.
  induction 1 as [|x l Hx _ IH]; unfold Rsum in *; simpl; lra.
Qed.

Lemma Rsum_pos (l : list R) (x : R) :
  Forall (fun y => 0 <= y)%R l -> In x l -> (0 < x)%R -> (0 < Rsum l)%R.
Proof.
  intros Hall. induction Hall as [|y l Hy Hl IH]; intros Hin Hx; [contradiction|].
  unfold Rsum. cbn [fold_right]. fold (Rsum l).
  pose proof (Rsum_nonneg l Hl) as H0.
  destruct Hin as [->|Hin]; [lra|]. specialize (IH Hin Hx). lra.
Qed.

Lemma Rsum_zero (l : list R) : (forall x, In x l -> x = 0%R) -> Rsum l = 0%R.
Proof.
  induction l as [|x l IH]; intros H; [reflexivity|].
  unfold Rsum. cbn [fold_right]. fold (Rsum l).
  rewrite IH by (intros y Hy; apply H; now right).
  rewrite (H x) by now left. ring.
Qed.

Lemma Rsum_scale (c : R) (l : list R) : Rsum (map (Rmult c) l) = (c * Rsum l)%R.
Proof.
  induction l as [|x l IH]; unfold Rsum in *; simpl; [ring|]. rewrite IH. ring.
Qed.

Lemma Rsum_repeat (c : R) (n : nat) : Rsum (repeat c n) = (IZR (Z.of_nat n) * c)%R.
Proof.
  induction n as [|n IH]; [unfold Rsum; simpl; ring|].
  rewrite Nat2Z.inj_succ, succ_IZR. unfold Rsum in *. cbn [repeat fold_right].
  rewrite IH. ring.
Qed.

Lemma IZR_len_cons {A : Type} (x : A) (l : list A) :
  IZR (len (x :: l)) = (IZR (len l) + 1)%R.
Proof.
  unfold len. cbn [length]. rewrite Nat2Z.inj_succ, succ_IZR. reflexivity.
Qed.

Lemma IZR_len_nonneg {A : Type} (l : list A) : (0 <= IZR (len l))%R.
Proof. apply IZR_le. apply len_nonneg. Qed.

Lemma dot_cons (x y : R) (xs ys : list R) :
  dot (x :: xs) (y :: ys) = (x * y + dot xs ys)%R.
Proof. reflexivity. Qed.

Lemma dot_snoc (l : list R) (a : R) :
  dot (l ++ [a]) (l ++ [a]) = (dot l l + a * a)%R.
Proof.
  induction l as [|x l IH].
  - unfold dot, Rsum. simpl. ring.
  - cbn [app]. rewrite !dot_cons, IH. ring.
Qed.

Lemma dot_zero_r (xs ys : list R) :
  (forall y, In y ys -> y = 0%R) -> dot xs ys = 0%R.
Proof.
  intros H. unfold dot. apply Rsum_zero. intros v Hv.
  apply in_map_iff in Hv as [[x y] [<- Hp]]. apply in_combine_r in Hp.
  cbn [fst snd]. rewrite (H y Hp). ring.
Qed.

Lemma sq_residual_cons (x y : R) (xs ys : list R) (a b : R) :
  sq_residual (x :: xs) (y :: ys) a b
  = ((y - (a * x + b)) * (y - (a * x + b)) + sq_residual xs ys a b)%R.
Proof. reflexivity. Qed.

Lemma sq_residual_expand (xs ys : list R) (a b : R) :
  length xs = length ys ->
  sq_residual xs ys a b
  = (dot ys ys - 2 * a * dot xs ys - 2 * b * Rsum ys
     + a * a * dot xs xs + 2 * a * b * Rsum xs + IZR (len xs) * b * b)%R.
Proof.
  revert ys. induction xs as [|x xs IH]; intros [|y ys] Hlen; try discriminate.
  - unfold sq_residual, dot, Rsum, len. simpl. lra.
  - injection Hlen as Hlen.
    rewrite sq_residual_cons, (IH ys Hlen), !dot_cons, IZR_len_cons.
    unfold Rsum. cbn [fold_right]. fold (Rsum xs). fold (Rsum ys). ring.
Qed.

Lemma sq_residual_nonneg (xs ys : list R) (a b : R) :
  (0 <= sq_residual xs ys a b)%R.
Proof.
  unfold sq_residual. apply Rsum_nonneg. apply Forall_forall.
  intros x Hx. apply in_map_iff in Hx as [p [<- _]]. apply Rle_0_sqr.
Qed.

Lemma sq_residual_zero (xs ys : list R) :
  (forall y, In y ys -> y = 0%R) -> sq_residual xs ys 0 0 = 0%R.
Proof.
  intros H. unfold sq_residual. apply Rsum_zero. intros v Hv.
  apply in_map_iff in Hv as [[x y] [<- Hp]]. apply in_combine_r in Hp.
  cbn [fst snd]. rewrite (H y Hp). ring.
Qed.

(** The normal equations of the degree-1 fit. *)
Lemma ols_normal_equations (xs ys : list R) :
  ols_det xs <> 0%R ->
  let s := ols_slope xs ys in
  let c := ols_intercept xs ys in
  (s * dot xs xs + c * Rsum xs = dot xs ys)%R /\
  (s * Rsum xs + IZR (len xs) * c = Rsum ys)%R.
Proof.
  intros HD s c.
  assert (Hn : IZR (len xs) <> 0%R).
  { intros E. apply HD. unfold ols_det. rewrite E.
    destruct xs; [unfold Rsum; simpl; ring|].
    rewrite IZR_len_cons in E. pose proof (IZR_len_nonneg xs). lra. }
  unfold s, c, ols_intercept, ols_slope. unfold ols_det in *.
  split; field; auto.
Qed.

(** The fitted line minimises the sum of squared residuals among all
    lines: [np.polyfit(x, y, 1)] is a least-squares fit. *)
Lemma ols_minimises (xs ys : list R) (a b : R) :
  length xs = length ys -> (0 < ols_det xs)%R ->
  (sq_residual xs ys (ols_slope xs ys) (ols_intercept xs ys)
   <= sq_residual xs ys a b)%R.
Proof.
  intros Hlen HD.
  destruct (ols_normal_equations xs ys) as [E1 E2]; [lra|].
  rewrite !sq_residual_expand by assumption.
  set (s := ols_slope xs ys) in *. set (c := ols_intercept xs ys) in *.
  set (n := IZR (len xs)) in *.
  assert (Hn : (0 < n)%R).
  { pose proof (IZR_len_nonneg xs) as H0. fold n in H0.
    destruct (Req_dec_T n 0) as [E|E]; [|lra].
    exfalso. unfold ols_det in HD. fold n in HD. rewrite E in *.
    destruct xs; [unfold Rsum in HD; simpl in HD; lra|].
    unfold n in E. rewrite IZR_len_cons in E. pose proof (IZR_len_nonneg xs). lra. }
  set (Sx := Rsum xs) in *. set (Sxx := dot xs xs) in *.
  set (Sxy := dot xs ys) in *. set (Sy := Rsum ys) in *.
  unfold ols_det in HD. fold n Sx Sxx in HD.
  set (u := (a - s)%R). set (v := (b - c)%R).
  assert (Hform : (0 <= n * (Sxx * u * u + 2 * Sx * u * v + n * v * v))%R).
  { replace (n * (Sxx * u * u + 2 * Sx * u * v + n * v * v))%R
      with ((n * v + Sx * u) * (n * v + Sx * u) + (n * Sxx - Sx * Sx) * (u * u))%R
      by ring.
    apply Rplus_le_le_0_compat; [apply Rle_0_sqr|].
    apply Rmult_le_pos; [lra|apply Rle_0_sqr]. }
  assert (Hq : (0 <= Sxx * u * u + 2 * Sx * u * v + n * v * v)%R).
  { apply (Rmult_le_reg_l n); [assumption|]. lra. }
  assert (Hid : (dot ys ys - 2 * a * Sxy - 2 * b * Sy + a * a * Sxx
                 + 2 * a * b * Sx + n * b * b
                 - (dot ys ys - 2 * s * Sxy - 2 * c * Sy + s * s * Sxx
                    + 2 * s * c * Sx + n * c * c)
                 = Sxx * u * u + 2 * Sx * u * v + n * v * v)%R).
  { unfold u, v. rewrite <- E1, <- E2. ring. }
  lra.
Qed.

Lemma In_combine_self {A : Type} (x : A) (l : list A) :
  In x l -> In (x, x) (combine l l).
Proof.
  induction l as [|y l IH]; intros Hin; [contradiction|].
  destruct Hin as [->|Hin]; [now left|right; auto].
Qed.

(** The normal equations have a unique solution as soon as two abscissae
    differ. *)
Lemma ols_det_pos (xs : list R) (a b : R) :
  In a xs -> In b xs -> a <> b -> (0 < ols_det xs)%R.
Proof.
  intros Ha Hb Hab.
  set (n := IZR (len xs)).
  assert (Hn : (0 < n)%R).
  { unfold n. destruct xs as [|x xs]; [contradiction|].
    rewrite IZR_len_cons. pose proof (IZR_len_nonneg xs). lra. }
  set (mu := (Rsum xs / n)%R).
  assert (E : (n * sq_residual xs xs 0 mu = ols_det xs)%R).
  { rewrite sq_residual_expand by reflexivity. unfold ols_det. fold n.
    unfold mu. field. lra. }
  rewrite <- E. apply Rmult_lt_0_compat; [assumption|].
  assert (Hc : exists c, In c xs /\ c <> mu).
  { destruct (Req_dec_T a mu) as [Ea|Ea]; [|now exists a].
    exists b. split; [assumption|]. congruence. }
  destruct Hc as [c [Hc Hne]].
  unfold sq_residual.
  apply (Rsum_pos _ ((c - (0 * c + mu)) * (c - (0 * c + mu)))%R).
  - apply Forall_forall. intros z Hz. apply in_map_iff in Hz as [p [<- _]].
    apply Rle_0_sqr.
  - apply in_map_iff. exists (c, c). split; [reflexivity|].
    now apply In_combine_self.
  - assert (c - (0 * c + mu) <> 0)%R by lra. nra.
Qed.

Lemma Rsum_ramp (n : nat) :
  (2 * Rsum (map IZR (range (Z.of_nat n)))
   = IZR (Z.of_nat n) * (IZR (Z.of_nat n) - 1))%R.
Proof.
  induction n as [|n IH].
  - unfold range, Rsum. simpl. ring.
  - rewrite range_succ, map_app, Rsum_app, Nat2Z.inj_succ, succ_IZR.
    unfold Rsum at 2. cbn [map fold_right]. lra.
Qed.

Lemma dot_ramp (n : nat) :
  let t := map IZR (range (Z.of_nat n)) in
  (6 * dot t t
   = (IZR (Z.of_nat n) - 1) * IZR (Z.of_nat n) * (2 * IZR (Z.of_nat n) - 1))%R.
Proof.
  induction n as [|n IH]; cbn zeta in *.
  - unfold range, dot, Rsum. simpl. ring.
  - rewrite range_succ, map_app. cbn [map]. rewrite dot_snoc.
    rewrite Nat2Z.inj_succ, succ_IZR. lra.
Qed.

Lemma ols_det_ramp (s : Z) :
  (2 <= s)%Z -> (0 < ols_det (map IZR (range s)))%R.
Proof.
  intros Hs. rewrite <- (Z2Nat.id s) by lia.
  set (n := Z.to_nat s).
  pose proof (Rsum_ramp n) as HS. pose proof (dot_ramp n) as HQ.
  cbn zeta in HQ. unfold ols_det.
  rewrite len_map, len_range by lia.
  set (x := IZR (Z.of_nat n)) in *.
  set (S1 := Rsum (map IZR (range (Z.of_nat n)))) in *.
  set (S2 := dot (map IZR (range (Z.of_nat n))) (map IZR (range (Z.of_nat n)))) in *.
  assert (Hx : (2 <= x)%R) by (apply IZR_le; lia).
  assert (E : (12 * (x * S2 - S1 * S1) = x * x * (x * x - 1))%R).
  { replace (12 * (x * S2 - S1 * S1))%R
      with (2 * x * (6 * S2) - 3 * ((2 * S1) * (2 * S1)))%R by ring.
    rewrite HS, HQ. ring. }
  assert (Hpos : (0 < x * x * (x * x - 1))%R).
  { apply Rmult_lt_0_compat; nra. }
  lra.
Qed.

(** ** Doubles, [nan] and [np.log] *)

Lemma np_sum_Num (l : list R) : np_sum (map Num l) = Num (Rsum l).
Proof.
  induction l as [|x l IH]; [reflexivity|].
  cbn [map np_sum fold_right] in *. fold (np_sum (map Num l)). now rewrite IH.
Qed.

Lemma np_mean_Num (l : list R) : l <> [] -> np_mean (map Num l) = Num (Rmean l).
Proof.
  intros Hl. destruct l as [|x l]; [contradiction|].
  change (np_mean (map Num (x :: l)))
    with (lift1 (fun s => s / IZR (len (map Num (x :: l))))%R
                (np_sum (map Num (x :: l)))).
  rewrite np_sum_Num, len_map. reflexivity.
Qed.

Lemma np_sum_NaN (l : list float64) : In NaN l -> np_sum l = NaN.
Proof.
  induction l as [|x l IH]; intros Hin; [contradiction|].
  cbn [np_sum fold_right]. fold (np_sum l).
  destruct Hin as [->|Hin]; [reflexivity|].
  rewrite IH by assumption. now destruct x.
Qed.

Lemma np_mean_NaN (l : list float64) : In NaN l -> np_mean l = NaN.
Proof.
  intros Hin. destruct l as [|x l]; [reflexivity|].
  unfold np_mean. now rewrite np_sum_NaN.
Qed.

Lemma np_mean_all_NaN (l : list float64) :
  (forall v, In v l -> v = NaN) -> np_mean l = NaN.
Proof.
  intros H. destruct l as [|x l]; [reflexivity|].
  apply np_mean_NaN. left. apply H. now left.
Qed.

Lemma np_mean_single_false : np_mean [of_bool false] = Num 0.
Proof.
  unfold np_mean, np_sum, of_bool, len. cbn [fold_right fadd lift2 lift1 length].
  f_equal. change (IZR (Z.of_nat 1)) with 1%R. field.
Qed.


Lemma finite_Fin (l : list R) : finite (map Fin l) = Some l.
Proof. induction l as [|x l IH]; [reflexivity|]. simpl. now rewrite IH. Qed.

Lemma finite_None (l : list xfloat) :
  In NegInf l -> finite l = None.
Proof.
  induction l as [|x l IH]; intros Hin; [contradiction|].
  destruct Hin as [->|Hin]; [reflexivity|].
  simpl. destruct x; try reflexivity. now rewrite IH.
Qed.

Lemma np_log_pos (x : R) : (0 < x)%R -> np_log (Num x) = Fin (ln x).
Proof.
  intros H. unfold np_log. destruct (Rlt_dec 0 x); [reflexivity|contradiction].
Qed.

Lemma np_log_zero : np_log (Num 0) = NegInf.
Proof.
  unfold np_log. destruct (Rlt_dec 0 0) as [H|_]; [lra|].
  destruct (Req_dec_T 0 0) as [_|H]; [reflexivity|contradiction].
Qed.

(** [np.polyfit] on finite, well-posed data and on data with [-inf]. *)
Section Polyfit.

Variable fb : list xfloat -> list xfloat -> result (float64 * float64).

Lemma polyfit_finite (xs ys : list R) :
  xs <> [] -> length xs = length ys -> ols_det xs <> 0%R ->
  polyfit fb (map Fin xs) (map Fin ys)
  = Ok (Num (ols_slope xs ys), Num (ols_intercept xs ys)).
Proof.
  intros Hne Hlen HD. unfold polyfit.
  destruct xs as [|x xs]; [contradiction|].
  cbn [map]. change (Fin x :: map Fin xs) with (map Fin (x :: xs)).
  rewrite !length_map, Hlen, Nat.eqb_refl. cbn [negb].
  rewrite !finite_Fin.
  destruct (Req_dec_T (ols_det (x :: xs)) 0); [contradiction|reflexivity].
Qed.

Lemma polyfit_non_finite (xs ys : list xfloat) :
  xs <> [] -> length xs = length ys -> In NegInf ys ->
  polyfit fb xs ys = fb xs ys.
Proof.
  intros Hne Hlen Hinf. unfold polyfit.
  destruct xs as [|x xs]; [contradiction|].
  rewrite Hlen, Nat.eqb_refl. cbn [negb].
  rewrite (finite_None ys Hinf). now destruct (finite (x :: xs)).
Qed.

End Polyfit.

(** ** [vectorized_higuchi_fd] *)

Lemma In_k_range (N k_max k : Z) :
  In k (k_range N k_max) <-> (1 <= k <= Z.min k_max (N / 2))%Z.
Proof. unfold k_range. rewrite In_arange. lia. Qed.

Lemma k_range_empty (N k_max : Z) :
  (0 <= N < 2)%Z \/ (k_max < 1)%Z -> k_range N k_max = [].
Proof.
  intros H. unfold k_range. apply arange_empty.
  destruct H as [H|H]; [|lia].
  assert (N / 2 = 0)%Z by (apply Z.div_small; lia). lia.
Qed.

(** For a scale of [k_range] and an offset of [range(k)] every index that
    the loop reads is a valid position and the normalising divisor is
    positive: no [IndexError] and no division by zero can occur. *)
Lemma Lmk_indices_in_range (N k_max k m i : Z) :
  In k (k_range N k_max) -> In m (range k) -> In i (arange 1 ((N - m) / k)) ->
  (0 <= m + (i - 1) * k)%Z /\ (m + i * k < N)%Z /\ (0 < (N - m) / k * k)%Z.
Proof.
  intros Hk Hm Hi. apply In_k_range in Hk. unfold range in Hm.
  apply In_arange in Hm. apply In_arange in Hi.
  assert (Hkpos : (0 < k)%Z) by lia.
  pose proof (Z.mul_div_le (N - m) k Hkpos). nia.
Qed.

Lemma Lmk_nonneg (ts : list R) (k_max k m : Z) :
  In k (k_range (len ts) k_max) -> In m (range k) -> (0 <= Lmk ts k m)%R.
Proof.
  intros Hk Hm. unfold Lmk.
  apply In_k_range in Hk. unfold range in Hm. apply In_arange in Hm.
  assert (Hhalf : (2 * (len ts / 2) <= len ts)%Z) by (apply Z.mul_div_le; lia).
  assert (Hq : (1 <= (len ts - m) / k)%Z) by (apply Z.div_le_lower_bound; lia).
  apply Rmult_le_pos; [apply Rmult_le_pos|].
  - apply Rsum_nonneg. apply Forall_forall. intros v Hv.
    apply in_map_iff in Hv as [i [<- _]]. apply Rabs_pos.
  - apply IZR_le. lia.
  - apply Rlt_le, Rinv_0_lt_compat, IZR_lt. nia.
Qed.

(** A curve length is never negative, so [np.log] can yield a real number
    or [-inf] here, never [nan]. *)
Lemma Lk_nonneg (ts : list R) (k_max k : Z) :
  In k (k_range (len ts) k_max) -> (0 <= Lk ts k)%R.
Proof.
  intros Hk. unfold Lk, Rmean.
  assert (Hkpos : (1 <= k)%Z) by (apply In_k_range in Hk; lia).
  apply Rmult_le_pos.
  - apply Rsum_nonneg. apply Forall_forall. intros v Hv.
    apply in_map_iff in Hv as [m [<- Hm]]. now apply (Lmk_nonneg ts k_max).
  - apply Rlt_le, Rinv_0_lt_compat. rewrite len_map, len_range by lia.
    apply IZR_lt. lia.
Qed.

Lemma Rabs_of_nonneg (x y : R) : (x <= y)%R -> Rabs (y - x) = (y - x)%R.
Proof. intros H. apply Rabs_right. lra. Qed.

(** Evaluation of the integer parts of a closed estimator expression. *)
Ltac eval_arange :=
  repeat match goal with
    | |- context [arange ?a ?b] =>
        let l := eval vm_compute in (arange a b) in
        change (arange a b) with l
    end.

Ltac eval_sample :=
  repeat match goal with
    | |- context [sample ?l ?i] =>
        let n := eval vm_compute in (Z.to_nat i) in
        change (sample l i) with (nth n l 0%R); cbn [nth]
    end.

Ltac eval_IZR :=
  repeat match goal with
    | |- context [IZR ?z] =>
        lazymatch z with
        | Z0 => fail
        | Zpos _ => fail
        | Zneg _ => fail
        | _ => let v := eval vm_compute in z in change (IZR z) with (IZR v)
        end
    end.

Ltac eval_curve :=
  cbn [len length]; eval_arange;
  cbn [map Rsum fold_right successive_differences];
  eval_sample; cbn [successive_differences]; eval_IZR;
  rewrite ?Rabs_of_nonneg by lra.

(** C4: on the series [0, 1, 2, 3, 7] at scale 2 and offset 0 the loop
    sums only [|x2 - x0|]; the difference [|x4 - x2|] of the last pair of
    2-spaced samples is left out, so [Lmk] is 2 where the sum over all
    successive differences gives 7, and [Lk] is 2 instead of 9/2. *)
Theorem higuchi_drops_last_difference :
  Lmk five_samples 2 0 = 2%R /\
  documented_Lmk five_samples 2 0 = 7%R /\
  Lk five_samples 2 = 2%R /\
  documented_Lk five_samples 2 = (9 / 2)%R.
Proof.
  unfold Lk, documented_Lk, Rmean, range.
  eval_arange. cbn [map].
  unfold Lmk, documented_Lmk, k_spaced, five_samples, Rsum.
  repeat split; eval_curve; lra.
Qed.

Lemma successive_differences_arange (f : Z -> R) (n : nat) (a : Z) :
  successive_differences (map f (arange a (a + Z.of_nat n)))
  = map (fun i => Rabs (f i - f (i - 1)%Z)) (arange (a + 1) (a + Z.of_nat n)).
Proof.
  revert a. induction n as [|n IH]; intros a.
  - rewrite !arange_empty by lia. reflexivity.
  - rewrite (arange_cons a) by lia.
    replace (a + Z.of_nat (S n))%Z with (a + 1 + Z.of_nat n)%Z by lia.
    destruct n as [|n'].
    + rewrite !arange_empty by lia. reflexivity.
    + specialize (IH (a + 1)%Z).
      rewrite (arange_cons (a + 1)) in * by lia.
      cbn [map successive_differences] in *. rewrite IH.
      replace (a + 1 - 1)%Z with a by lia. reflexivity.
Qed.

(** The loop sums the differences [i = 1 .. q - 1] with [q = (N - m) // k].
    These are all the successive differences when [k] divides [N - m];
    otherwise the series has one more [k]-spaced sample and the loop
    leaves out the difference that reaches it. *)
Lemma documented_sum_split (ts : list R) (k m : Z) :
  (0 < k)%Z -> (0 <= m)%Z -> (m + k <= len ts)%Z ->
  let q := ((len ts - m) / k)%Z in
  let diff i := Rabs (sample ts (m + i * k) - sample ts (m + (i - 1) * k)) in
  Rsum (successive_differences (k_spaced ts k m))
  = (Rsum (map diff (arange 1 q))
     + if ((len ts - m) mod k =? 0)%Z then 0 else diff q)%R.
Proof.
  intros Hk Hm HN q diff. unfold k_spaced.
  assert (Hq : (1 <= q)%Z) by (apply Z.div_le_lower_bound; lia).
  pose proof (Z.div_mod (len ts - m) k ltac:(lia)) as Hdiv. fold q in Hdiv.
  pose proof (Z.mod_pos_bound (len ts - m) k Hk) as Hr.
  set (f := fun i => sample ts (m + i * k)).
  assert (Hdiff : forall l, map (fun i => Rabs (f i - f (i - 1)%Z)) l = map diff l).
  { intros l. apply map_ext. intros i. reflexivity. }
  destruct ((len ts - m) mod k =? 0)%Z eqn:E.
  - apply Z.eqb_eq in E.
    assert (Hn : ((len ts - 1 - m) / k + 1 = 0 + Z.of_nat (Z.to_nat q))%Z).
    { rewrite Z2Nat.id by lia.
      assert ((len ts - 1 - m) / k = q - 1)%Z; [|lia].
      symmetry. apply (Z.div_unique_pos _ _ _ (k - 1)); lia. }
    rewrite Hn, (successive_differences_arange f), Hdiff.
    rewrite Z2Nat.id by lia. simpl. lra.
  - apply Z.eqb_neq in E.
    assert (Hn : ((len ts - 1 - m) / k + 1 = 0 + Z.of_nat (Z.to_nat (q + 1)))%Z).
    { rewrite Z2Nat.id by lia.
      assert ((len ts - 1 - m) / k = q)%Z; [|lia].
      symmetry. apply (Z.div_unique_pos _ _ _ ((len ts - m) mod k - 1)); lia. }
    rewrite Hn, (successive_differences_arange f), Hdiff.
    rewrite Z2Nat.id by lia. simpl.
    rewrite arange_snoc by lia. rewrite map_app, Rsum_app. simpl. lra.
Qed.

Lemma hfd_abscissae (ks : list Z) :
  (forall k, In k ks -> (1 <= k)%Z) ->
  map (fun k => np_log (Num (1 / IZR k))) ks = map Fin (log_inverse_scales ks).
Proof.
  intros H. unfold log_inverse_scales. rewrite map_map.
  apply map_ext_in. intros k Hk. apply np_log_pos.
  assert (0 < IZR k)%R by (apply IZR_lt; specialize (H k Hk); lia).
  apply Rdiv_lt_0_compat; lra.
Qed.

Lemma hfd_ordinates (ts : list R) (ks : list Z) :
  (forall k, In k ks -> (0 < Lk ts k)%R) ->
  map (fun k => np_log (Num (Lk ts k))) ks = map Fin (log_curve_lengths ts ks).
Proof.
  intros H. unfold log_curve_lengths. rewrite map_map.
  apply map_ext_in. intros k Hk. apply np_log_pos. now apply H.
Qed.

Section Higuchi.

Variable fb : list xfloat -> list xfloat -> result (float64 * float64).

(** With at least the scales 1 and 2 and positive curve lengths the
    estimator returns the least-squares slope. *)
Lemma higuchi_regular (ts : list R) (k_max : Z) :
  (4 <= len ts)%Z -> (2 <= k_max)%Z ->
  (forall k, In k (k_range (len ts) k_max) -> (0 < Lk ts k)%R) ->
  let ks := k_range (len ts) k_max in
  vectorized_higuchi_fd fb ts k_max
  = Ok (Num (ols_slope (log_inverse_scales ks) (log_curve_lengths ts ks))).
Proof.
  intros HN Hk Hpos ks. unfold vectorized_higuchi_fd. fold ks.
  rewrite hfd_abscissae by (intros k Hin; apply In_k_range in Hin; lia).
  rewrite hfd_ordinates by exact Hpos.
  assert (Hhalf : (2 <= len ts / 2)%Z) by (apply Z.div_le_lower_bound; lia).
  assert (H1 : In 1%Z ks) by (apply In_k_range; lia).
  assert (H2 : In 2%Z ks) by (apply In_k_range; lia).
  rewrite polyfit_finite.
  - reflexivity.
  - unfold log_inverse_scales. destruct ks; [contradiction|discriminate].
  - unfold log_inverse_scales, log_curve_lengths. now rewrite !length_map.
  - apply Rgt_not_eq. apply Rlt_gt.
    apply (ols_det_pos _ (ln (1 / 1)) (ln (1 / 2))).
    + unfold log_inverse_scales. apply in_map_iff. now exists 1%Z.
    + unfold log_inverse_scales. apply in_map_iff. now exists 2%Z.
    + intros E. apply ln_inv in E; lra.
Qed.

(** Without a usable scale [np.polyfit] rejects the empty vector. *)
Lemma higuchi_no_scale (ts : list R) (k_max : Z) :
  (len ts < 2)%Z \/ (k_max < 1)%Z ->
  vectorized_higuchi_fd fb ts k_max = Raise TypeError.
Proof.
  intros H. unfold vectorized_higuchi_fd.
  rewrite k_range_empty; [reflexivity|].
  pose proof (len_nonneg ts). lia.
Qed.

(** A zero curve length reaches [np.polyfit] as [-inf]; what comes back is
    what the least-squares driver makes of it. *)
Lemma higuchi_zero_curve (ts : list R) (k_max k : Z) :
  In k (k_range (len ts) k_max) -> Lk ts k = 0%R ->
  let ks := k_range (len ts) k_max in
  let x := map (fun k => np_log (Num (1 / IZR k))) ks in
  let y := map (fun k => np_log (Num (Lk ts k))) ks in
  In NegInf y /\
  vectorized_higuchi_fd fb ts k_max = ('(slope, _) <- fb x y ;; Ok slope).
Proof.
  intros Hk Hzero ks x y.
  assert (Hy : In NegInf y).
  { unfold y. apply in_map_iff. exists k. split; [|exact Hk].
    rewrite Hzero. apply np_log_zero. }
  split; [exact Hy|].
  unfold vectorized_higuchi_fd. fold ks. fold x. fold y.
  unfold polyfit.
  destruct x as [|x0 x'] eqn:Ex.
  { unfold x in Ex. destruct ks; [contradiction|discriminate]. }
  rewrite <- Ex.
  assert (Hlen : length x = length y) by (unfold x, y; now rewrite !length_map).
  rewrite Hlen, Nat.eqb_refl. cbn [negb].
  rewrite (finite_None y Hy). now destruct (finite x).
Qed.

End Higuchi.

(** ** [vectorized_dfa] *)

Lemma length_cumsum_from (acc : R) (l : list R) :
  length (cumsum_from acc l) = length l.
Proof.
  revert acc. induction l as [|x l IH]; intros acc; [reflexivity|].
  simpl. now rewrite IH.
Qed.

Lemma len_profile (ts : list R) : len (profile ts) = len ts.
Proof.
  unfold profile, cumsum, len. now rewrite length_cumsum_from, length_map.
Qed.

Section Fluctuation.

Variable fb : list xfloat -> list xfloat -> result (float64 * float64).

Lemma residuals_finite (a b : R) (t seg : list R) :
  length t = length seg ->
  map (fun p => let d := fsub (Num (fst p)) (snd p) in fmul d d)
      (combine seg (map (polyval (Num a, Num b)) t))
  = map Num (map (fun p => (snd p - (a * fst p + b)) * (snd p - (a * fst p + b)))%R
                 (combine t seg)).
Proof.
  revert seg. induction t as [|x t IH]; intros [|y seg] Hlen; try discriminate.
  - reflexivity.
  - injection Hlen as Hlen. cbn [map combine]. rewrite IH by assumption.
    reflexivity.
Qed.

Lemma segment_rms_finite (y : list R) (s j : Z) :
  (2 <= s)%Z -> (0 <= j)%Z -> ((j + 1) * s <= len y)%Z ->
  segment_rms fb y s j = Ok (Num (detrended_rms (slice y (j * s) ((j + 1) * s)))).
Proof.
  intros Hs Hj Hfit. unfold segment_rms, detrended_rms.
  set (segment := slice y (j * s) ((j + 1) * s)).
  assert (Hseg : len segment = s).
  { unfold segment. rewrite length_slice; nia. }
  rewrite Hseg.
  set (t := map IZR (range s)).
  assert (Hlen : length t = length segment).
  { apply Nat2Z.inj. fold (len t). fold (len segment).
    unfold t. rewrite len_map, len_range; lia. }
  assert (Hne : t <> []).
  { intros E. rewrite E in Hlen. unfold len in Hseg. simpl in Hlen. lia. }
  pose proof (ols_det_ramp s Hs) as HD. fold t in HD.
  rewrite polyfit_finite by (try assumption; lra).
  cbn [bind]. rewrite residuals_finite by assumption.
  set (a := ols_slope t segment). set (b := ols_intercept t segment).
  set (sq := map _ (combine t segment)).
  assert (Hsq : sq <> []).
  { unfold sq. destruct t; [contradiction|].
    destruct segment; [discriminate|]. discriminate. }
  rewrite np_mean_Num by assumption.
  assert (Hmean : Rmean sq = (sq_residual t segment a b / IZR s)%R).
  { unfold Rmean, sq_residual. fold sq. do 2 f_equal.
    unfold sq. rewrite len_map. unfold len. rewrite length_combine.
    rewrite Hlen, Nat.min_id. exact Hseg. }
  rewrite Hmean. unfold fsqrt.
  destruct (Rlt_dec (sq_residual t segment a b / IZR s) 0) as [Hneg|_];
    [|reflexivity].
  exfalso. pose proof (sq_residual_nonneg t segment a b) as H0.
  assert (Hpos : (0 < IZR s)%R) by (apply IZR_lt; lia).
  assert (0 <= sq_residual t segment a b / IZR s)%R; [|lra].
  apply Rmult_le_pos; [assumption|].
  apply Rlt_le. now apply Rinv_0_lt_compat.
Qed.

Lemma F_of_scale_finite (y : list R) (s : Z) :
  (2 <= s)%Z -> (s <= len y)%Z ->
  F_of_scale fb y (len y) s = Ok (Num (fluctuation y s)).
Proof.
  intros Hs Hle. unfold F_of_scale, fluctuation, segments_of.
  assert (Hq : (1 <= len y / s)%Z) by (apply Z.div_le_lower_bound; lia).
  destruct (len y / s <? 0)%Z eqn:E; [apply Z.ltb_lt in E; lia|].
  rewrite (map_result_ok _
             (fun j => Num (detrended_rms (slice y (j * s) ((j + 1) * s))))).
  - cbn [bind]. rewrite <- (map_map _ Num), np_mean_Num.
    + now rewrite map_map.
    + unfold range. rewrite (arange_cons 0) by lia. discriminate.
  - intros j Hj. unfold range in Hj. apply In_arange in Hj.
    apply segment_rms_finite; [lia|lia|].
    pose proof (Z.mul_div_le (len y) s ltac:(lia)). nia.
Qed.

End Fluctuation.

Lemma concat_segments (y : list R) (s : Z) (q : nat) :
  (0 <= s)%Z -> (Z.of_nat q * s <= len y)%Z ->
  concat (map (fun j => slice y (j * s) ((j + 1) * s)) (range (Z.of_nat q)))
  = slice y 0 (Z.of_nat q * s).
Proof.
  intros Hs. induction q as [|q IH]; intros Hfit.
  - rewrite slice_from_zero by (pose proof (len_nonneg y); lia). reflexivity.
  - rewrite range_succ, map_app, concat_app. cbn [map concat].
    rewrite app_nil_r, IH by lia.
    replace (Z.of_nat (S q) * s)%Z with ((Z.of_nat q + 1) * s)%Z by lia.
    apply slice_split; nia.
Qed.

Lemma segments_of_partition (y : list R) (s : Z) :
  (0 < s)%Z ->
  len (segments_of y s) = (len y / s)%Z /\
  (forall seg, In seg (segments_of y s) -> len seg = s) /\
  concat (segments_of y s) = take y (len y / s * s).
Proof.
  intros Hs. pose proof (len_nonneg y) as Hy.
  assert (Hq : (0 <= len y / s)%Z) by (apply Z.div_pos; lia).
  pose proof (Z.mul_div_le (len y) s Hs) as Hfit.
  unfold segments_of. repeat split.
  - rewrite len_map. now apply len_range.
  - intros seg Hseg. apply in_map_iff in Hseg as [j [<- Hj]].
    unfold range in Hj. apply In_arange in Hj.
    rewrite length_slice; nia.
  - unfold take. rewrite <- (Z2Nat.id (len y / s)) by assumption.
    apply concat_segments; [lia|]. rewrite Z2Nat.id by assumption. lia.
Qed.

(** With [minScale >= 2] every fluctuation is a real number and the
    estimator is the fit of [log s] against [log F(s)]. *)
Lemma vectorized_dfa_regular
    (fb : list xfloat -> list xfloat -> result (float64 * float64))
    (ts : list R) (lo hi : Z) :
  (2 <= lo)%Z ->
  let scales := dfa_scales (len ts) (lo, hi) in
  (forall s, In s scales ->
             F_of_scale fb (profile ts) (len ts) s
             = Ok (Num (fluctuation (profile ts) s))) /\
  vectorized_dfa fb ts (lo, hi)
  = ('(slope, _) <- polyfit fb (map (fun s => np_log (Num (IZR s))) scales)
                     (map (fun s => np_log (Num (fluctuation (profile ts) s))) scales) ;;
     Ok slope).
Proof.
  intros Hlo scales.
  assert (HF : forall s, In s scales ->
                         F_of_scale fb (profile ts) (len ts) s
                         = Ok (Num (fluctuation (profile ts) s))).
  { intros s Hs. unfold scales, dfa_scales in Hs. cbn [fst snd] in Hs.
    apply In_arange in Hs.
    pose proof (Z.mul_div_le (len ts) 4 ltac:(lia)).
    rewrite <- (len_profile ts) at 1.
    apply F_of_scale_finite; rewrite ?len_profile; lia. }
  split; [exact HF|].
  unfold vectorized_dfa. fold scales.
  change (cumsum (map (fun x => x - Rmean ts)%R ts)) with (profile ts).
  rewrite (map_result_ok _ (fun s => Num (fluctuation (profile ts) s))) by exact HF.
  cbn [bind]. now rewrite map_map.
Qed.

(** C5, as stated, fails on a series of 24 samples with the default
    bounds: scale 6 lies in the inclusive range [5, min(100, 24 // 4)] but
    only scale 5 is evaluated. *)
Lemma dfa_top_scale_not_evaluated :
  (5 <= 6 <= Z.min 100 (len (repeat 0%R 24) / 4))%Z /\
  dfa_scales (len (repeat 0%R 24)) default_scale_lim = [5%Z] /\
  ~ In 6%Z (dfa_scales (len (repeat 0%R 24)) default_scale_lim).
Proof.
  repeat split; try (vm_compute; congruence).
  vm_compute. intros [H|[]]. discriminate.
Qed.

(** C5 (amended): [dfa] evaluates [F(s)] for every integer scale in the
    half-open range [minScale <= s < min(maxScale, N // 4)]: the upper
    bound is excluded.  For each such scale [s >= 2] the cumulative sum of
    the mean-centred series is cut into [N // s] consecutive,
    non-overlapping segments of length [s], each segment contributes the
    root mean square of its residual about its own least-squares line,
    and [F(s)] is the average over the segments; with [minScale >= 2] the
    result is the slope of the fit of [log s] against [log F(s)]. *)
Theorem dfa_scales_half_open
    (fb : list xfloat -> list xfloat -> result (float64 * float64))
    (ts : list R) (lo hi : Z) :
  let N := len ts in
  let y := profile ts in
  let scales := dfa_scales N (lo, hi) in
  (forall s, In s scales <-> (lo <= s < Z.min hi (N / 4))%Z) /\
  (forall s, In s scales -> (2 <= s)%Z ->
     len (segments_of y s) = (N / s)%Z /\
     (forall seg, In seg (segments_of y s) -> len seg = s) /\
     concat (segments_of y s) = take y (N / s * s) /\
     F_of_scale fb y N s = Ok (Num (fluctuation y s))) /\
  ((2 <= lo)%Z ->
   vectorized_dfa fb ts (lo, hi)
   = ('(slope, _) <- polyfit fb (map (fun s => np_log (Num (IZR s))) scales)
                                (map (fun s => np_log (Num (fluctuation y s))) scales) ;;
      Ok slope)).
Proof.
  intros N y scales.
  assert (Hy : len y = N) by apply len_profile.
  assert (Hin : forall s, In s scales <-> (lo <= s < Z.min hi (N / 4))%Z).
  { intros s. unfold scales, dfa_scales. cbn [fst snd]. apply In_arange. }
  split; [exact Hin|split].
  - intros s Hs Hs2. apply Hin in Hs.
    pose proof (Z.mul_div_le N 4 ltac:(lia)) as Hquarter.
    destruct (segments_of_partition y s) as [H1 [H2 H3]]; [lia|].
    rewrite Hy in *. repeat split; auto.
    rewrite <- Hy. apply F_of_scale_finite; lia.
  - intros Hlo. now destruct (vectorized_dfa_regular fb ts lo hi Hlo).
Qed.

Lemma dfa_scales_half_open_witness :
  let ts := repeat 1%R 24 in
  let N := len ts in
  let y := profile ts in
  let scales := dfa_scales N (5, 100)%Z in
  (forall s, In s scales <-> (5 <= s < Z.min 100 (N / 4))%Z) /\
  (len (segments_of y 5) = (N / 5)%Z /\
   (forall seg, In seg (segments_of y 5) -> len seg = 5%Z) /\
   concat (segments_of y 5) = take y (N / 5 * 5) /\
   F_of_scale lstsq_nan y N 5 = Ok (Num (fluctuation y 5))) /\
  vectorized_dfa lstsq_nan ts (5, 100)%Z
  = ('(slope, _) <- polyfit lstsq_nan
                      (map (fun s => np_log (Num (IZR s))) scales)
                      (map (fun s => np_log (Num (fluctuation y s))) scales) ;;
     Ok slope).
Proof.
  intros ts N y scales.
  destruct (dfa_scales_half_open lstsq_nan ts 5 100) as [H1 [H2 H3]].
  split; [exact H1|split].
  - apply H2; [now left|lia].
  - apply H3. lia.
Defined.

(** ** Constant signals and the missing degeneracy guard *)

Lemma detrended_rms_zero (segment : list R) :
  (forall y, In y segment -> y = 0%R) -> detrended_rms segment = 0%R.
Proof.
  intros H. unfold detrended_rms.
  set (t := map IZR (range (len segment))).
  assert (Ha : ols_slope t segment = 0%R).
  { unfold ols_slope. rewrite dot_zero_r, (Rsum_zero segment) by assumption.
    unfold Rdiv. ring. }
  assert (Hb : ols_intercept t segment = 0%R).
  { unfold ols_intercept. rewrite Ha, (Rsum_zero segment) by assumption.
    unfold Rdiv. ring. }
  rewrite Ha, Hb, sq_residual_zero by assumption.
  unfold Rdiv. rewrite Rmult_0_l. apply sqrt_0.
Qed.

Lemma fluctuation_zero (y : list R) (s : Z) :
  (forall v, In v y -> v = 0%R) -> fluctuation y s = 0%R.
Proof.
  intros H. unfold fluctuation, Rmean. rewrite Rsum_zero.
  - unfold Rdiv. ring.
  - intros v Hv. apply in_map_iff in Hv as [seg [<- Hseg]].
    apply detrended_rms_zero. intros w Hw.
    unfold segments_of in Hseg. apply in_map_iff in Hseg as [j [<- _]].
    apply H. now apply In_slice in Hw.
Qed.

Lemma cumsum_from_zero (acc : R) (l : list R) :
  (forall x, In x l -> x = 0%R) ->
  forall v, In v (cumsum_from acc l) -> v = acc.
Proof.
  revert acc. induction l as [|x l IH]; intros acc H v Hv; [contradiction|].
  cbn [cumsum_from] in Hv.
  assert (Hx : x = 0%R) by (apply H; now left).
  rewrite Hx, Rplus_0_r in Hv.
  destruct Hv as [<-|Hv]; [reflexivity|].
  apply (IH acc); [|assumption]. intros y Hy. apply H. now right.
Qed.

(** The profile of a constant series vanishes. *)
Lemma profile_constant (c : R) (n : nat) :
  forall v, In v (profile (repeat c n)) -> v = 0%R.
Proof.
  intros v Hv. unfold profile, cumsum in Hv.
  apply (cumsum_from_zero 0) in Hv; [assumption|].
  intros x Hx. apply in_map_iff in Hx as [w [<- Hw]].
  apply repeat_spec in Hw. subst w.
  destruct n as [|n]; [contradiction|].
  unfold Rmean, len. rewrite Rsum_repeat, repeat_length.
  assert (0 < IZR (Z.of_nat (S n)))%R by (apply IZR_lt; lia).
  field. lra.
Qed.

Lemma sample_repeat (c : R) (n : nat) (i : Z) :
  (0 <= i < Z.of_nat n)%Z -> sample (repeat c n) i = c.
Proof. intros H. unfold sample. apply nth_repeat_lt. lia. Qed.

(** Every curve length of a constant series is zero. *)
Lemma Lk_constant (c : R) (n : nat) (k : Z) :
  (0 < k)%Z -> Lk (repeat c n) k = 0%R.
Proof.
  intros Hk. unfold Lk, Rmean. rewrite Rsum_zero; [unfold Rdiv; ring|].
  intros v Hv. apply in_map_iff in Hv as [m [<- Hm]].
  unfold range in Hm. apply In_arange in Hm.
  unfold Lmk. rewrite Rsum_zero; [unfold Rdiv; ring|].
  intros d Hd. apply in_map_iff in Hd as [i [<- Hi]].
  apply In_arange in Hi. unfold len in *. rewrite repeat_length in *.
  pose proof (Z.mul_div_le (Z.of_nat n - m) k Hk) as Hq.
  rewrite !sample_repeat by nia.
  rewrite Rminus_diag. apply Rabs_R0.
Qed.

Section NoGuard.

Variable fb : list xfloat -> list xfloat -> result (float64 * float64).

Lemma map_constant {A B : Type} (f : A -> B) (b : B) (l : list A) :
  (forall x, In x l -> f x = b) -> map f l = map (fun _ => b) l.
Proof. intros H. apply map_ext_in. exact H. Qed.

(** On a constant series every ordinate handed to [np.polyfit] is [-inf]. *)
Lemma higuchi_constant (c : R) (n : nat) (k_max : Z) :
  (2 <= n)%nat -> (1 <= k_max)%Z ->
  let ks := k_range (Z.of_nat n) k_max in
  vectorized_higuchi_fd fb (repeat c n) k_max
  = ('(slope, _) <- fb (map (fun k => np_log (Num (1 / IZR k))) ks)
                       (map (fun _ => NegInf) ks) ;;
     Ok slope).
Proof.
  intros Hn Hk ks. unfold vectorized_higuchi_fd.
  unfold len. rewrite repeat_length. fold ks.
  assert (Hy : map (fun k => np_log (Num (Lk (repeat c n) k))) ks
               = map (fun _ => NegInf) ks).
  { apply map_constant. intros k Hin. apply In_k_range in Hin.
    rewrite Lk_constant by lia. apply np_log_zero. }
  rewrite Hy.
  assert (H1 : In 1%Z ks).
  { apply In_k_range.
    assert (1 <= Z.of_nat n / 2)%Z by (apply Z.div_le_lower_bound; lia). lia. }
  rewrite polyfit_non_finite; [reflexivity| | |].
  - destruct ks; [contradiction|discriminate].
  - now rewrite !length_map.
  - apply in_map_iff. now exists 1%Z.
Qed.

Lemma dfa_no_scale (ts : list R) (lo hi : Z) :
  (Z.min hi (len ts / 4) <= lo)%Z ->
  vectorized_dfa fb ts (lo, hi) = Raise TypeError.
Proof.
  intros H. unfold vectorized_dfa, dfa_scales. cbn [fst snd].
  rewrite arange_empty by assumption. reflexivity.
Qed.

Lemma dfa_constant (c : R) (n : nat) (lo hi : Z) :
  (2 <= lo < Z.min hi (Z.of_nat n / 4))%Z ->
  let scales := dfa_scales (Z.of_nat n) (lo, hi) in
  vectorized_dfa fb (repeat c n) (lo, hi)
  = ('(slope, _) <- fb (map (fun s => np_log (Num (IZR s))) scales)
                       (map (fun _ => NegInf) scales) ;;
     Ok slope).
Proof.
  intros Hlo scales.
  destruct (vectorized_dfa_regular fb (repeat c n) lo hi) as [_ Hfit]; [lia|].
  rewrite Hfit. unfold len. rewrite repeat_length. fold scales.
  assert (Hy : map (fun s => np_log (Num (fluctuation (profile (repeat c n)) s))) scales
               = map (fun _ => NegInf) scales).
  { apply map_constant. intros s _.
    rewrite fluctuation_zero by apply profile_constant. apply np_log_zero. }
  rewrite Hy.
  assert (Hin : In lo scales).
  { unfold scales, dfa_scales. cbn [fst snd]. apply In_arange. lia. }
  rewrite polyfit_non_finite; [reflexivity| | |].
  - destruct scales; [contradiction|discriminate].
  - now rewrite !length_map.
  - apply in_map_iff. now exists lo.
Qed.

End NoGuard.

Lemma Lk_four_samples (k : Z) :
  In k (k_range (len four_samples) 10) -> (0 < Lk four_samples k)%R.
Proof.
  intros Hk. apply In_k_range in Hk.
  change (Z.min 10 (len four_samples / 2)) with 2%Z in Hk.
  assert (Hcase : k = 1%Z \/ k = 2%Z) by lia.
  destruct Hcase as [-> | ->]; unfold Lk, Rmean, range; eval_arange; cbn [map];
    unfold Lmk, four_samples, Rsum; eval_curve; lra.
Qed.

(** C3, as stated, fails: a series of 4 samples is shorter than
    [2 * kMax = 20], yet the estimator returns a finite value, whatever
    the least-squares driver does on degenerate systems. *)
Lemma higuchi_short_series_returns :
  (len four_samples < 2 * 10)%Z /\
  forall fb, exists v, vectorized_higuchi_fd fb four_samples 10 = Ok (Num v).
Proof.
  split; [reflexivity|]. intros fb. eexists.
  apply higuchi_regular.
  - vm_compute. congruence.
  - lia.
  - exact Lk_four_samples.
Qed.

(** What a raising [np.polyfit] means: an empty vector, or data on which
    the least-squares driver itself raises. *)
Lemma polyfit_raise_inv
    (fb : list xfloat -> list xfloat -> result (float64 * float64))
    (xs ys : list xfloat) (e : exn) :
  length xs = length ys -> polyfit fb xs ys = Raise e ->
  (xs = [] /\ e = TypeError) \/ (xs <> [] /\ fb xs ys = Raise e).
Proof.
  intros Hlen. unfold polyfit. destruct xs as [|x xs].
  - intros [= <-]. now left.
  - rewrite Hlen, Nat.eqb_refl. cbn [negb]. intros H. right.
    split; [discriminate|].
    destruct (finite (x :: xs)) as [rx|]; [|exact H].
    destruct (finite ys) as [ry|]; [|exact H].
    destruct (Req_dec_T (ols_det rx) 0); [exact H|discriminate].
Qed.

Lemma slope_raise_inv (fit : result (float64 * float64)) (e : exn) :
  ('(slope, _) <- fit ;; Ok slope) = Raise e -> fit = Raise e.
Proof. destruct fit as [[slope intercept]|e']; cbn [bind]; congruence. Qed.

Lemma positive_or_zero (f : Z -> R) (l : list Z) :
  (forall k, In k l -> (0 <= f k)%R) ->
  (forall k, In k l -> (0 < f k)%R) \/ (exists k, In k l /\ f k = 0%R).
Proof.
  induction l as [|k l IH]; intros Hnn; [left; intros k []|].
  destruct (Rle_lt_or_eq_dec 0 (f k) (Hnn k (or_introl eq_refl))) as [Hpos|Hzero].
  - destruct IH as [Hall|[k' [Hin Hk']]].
    + intros k' Hk'. apply Hnn. now right.
    + left. intros k' [<-|Hk']; [exact Hpos|now apply Hall].
    + right. exists k'. split; [now right|exact Hk'].
  - right. exists k. split; [now left|now symmetry].
Qed.

Section ErrorPaths.

Variable fb : list xfloat -> list xfloat -> result (float64 * float64).

(** [vectorized_higuchi_fd] has two ways to raise and no other: no scale
    to fit, or a least-squares driver that raises on degenerate data, a
    single scale or a zero curve length. *)
Lemma higuchi_raise_inv (ts : list R) (k_max : Z) (e : exn) :
  vectorized_higuchi_fd fb ts k_max = Raise e ->
  let ks := k_range (len ts) k_max in
  let x := map (fun k => np_log (Num (1 / IZR k))) ks in
  let y := map (fun k => np_log (Num (Lk ts k))) ks in
  (ks = [] /\ e = TypeError) \/
  (ks <> [] /\ fb x y = Raise e /\
   ((len ts < 4)%Z \/ (k_max < 2)%Z \/ exists k, In k ks /\ Lk ts k = 0%R)).
Proof.
  intros Hraise ks x y. pose proof Hraise as H.
  unfold vectorized_higuchi_fd in H. fold ks in H. fold x y in H.
  apply slope_raise_inv in H.
  apply polyfit_raise_inv in H; [|unfold x, y; now rewrite !length_map].
  destruct H as [[Hx He]|[Hx Hfb]].
  - left. split; [|exact He]. unfold x in Hx. now apply map_eq_nil in Hx.
  - right. split; [intros E; apply Hx; unfold x; now rewrite E|].
    split; [exact Hfb|].
    destruct (Z_lt_le_dec (len ts) 4) as [|HN]; [now left|].
    destruct (Z_lt_le_dec k_max 2) as [|Hk]; [now right; left|].
    right. right.
    destruct (positive_or_zero (Lk ts) ks) as [Hpos|Hzero].
    + intros k Hin. now apply (Lk_nonneg ts k_max).
    + rewrite (higuchi_regular fb ts k_max HN Hk Hpos) in Hraise. discriminate.
    + exact Hzero.
Qed.

(** With [minScale >= 2] every fluctuation is computed, and
    [vectorized_dfa] raises only through its final fit. *)
Lemma dfa_raise_inv (ts : list R) (lo hi : Z) (e : exn) :
  (2 <= lo)%Z -> vectorized_dfa fb ts (lo, hi) = Raise e ->
  let scales := dfa_scales (len ts) (lo, hi) in
  let x := map (fun s => np_log (Num (IZR s))) scales in
  let y := map (fun s => np_log (Num (fluctuation (profile ts) s))) scales in
  (scales = [] /\ e = TypeError) \/ (scales <> [] /\ fb x y = Raise e).
Proof.
  intros Hlo H scales x y.
  destruct (vectorized_dfa_regular fb ts lo hi Hlo) as [_ Hfit].
  fold scales in Hfit. fold x y in Hfit. rewrite Hfit in H.
  apply slope_raise_inv in H.
  apply polyfit_raise_inv in H; [|unfold x, y; now rewrite !length_map].
  destruct H as [[Hx He]|[Hx Hfb]].
  - left. split; [|exact He]. unfold x in Hx. now apply map_eq_nil in Hx.
  - right. split; [intros E; apply Hx; unfold x; now rewrite E|exact Hfb].
Qed.

(** An estimator that raises on one scanned window makes the scan raise:
    nothing catches the error between the estimator and [main]. *)
Lemma estimator_error_aborts_scan (signal : list R) (sr k_max : Z)
    (window_sizes : list Q) (size : Q) (offsets : list Z) (i : Z) :
  In size window_sizes ->
  window_offsets (len signal) size sr = Ok offsets -> In i offsets ->
  let window := slice signal i (i + window_samples size sr) in
  (exists e, vectorized_higuchi_fd fb window k_max = Raise e) \/
  (exists e, vectorized_dfa fb window default_scale_lim = Raise e) ->
  exists e, analyze_audio fb signal sr k_max window_sizes = Raise e.
Proof.
  intros Hsize Hoffsets Hi window Hraise.
  destruct (analyze_audio fb signal sr k_max window_sizes) as [r|e] eqn:Hrun;
    [|now exists e].
  exfalso. unfold analyze_audio in Hrun.
  destruct (for_each window_sizes _ _) as [res1|e] eqn:E; [|discriminate].
  destruct (for_each_ok_inv _ _ _ _ size E Hsize) as [s1 [s2 Hscan]].
  unfold analyze_size in Hscan. rewrite Hoffsets in Hscan. cbn [bind] in Hscan.
  destruct (for_each_ok_inv _ _ _ _ i Hscan Hi) as [s3 [s4 Hwin]].
  unfold analyze_window in Hwin. fold window in Hwin.
  destruct (vectorized_higuchi_fd fb window k_max) as [h|e1];
    [|discriminate].
  cbn [bind] in Hwin.
  destruct (vectorized_dfa fb window default_scale_lim) as [d|e2];
    [|discriminate].
  destruct Hraise as [[e He]|[e He]]; discriminate.
Qed.

(** A scan that raises ends the run: [main] logs the error twice, once
    in [analyze_audio] and once in its own handler, and hands nothing to
    the later stages. *)
Lemma scan_error_ends_run (signal : list R) (sr : Z) (st : logger) (e : exn) :
  analyze_audio fb signal sr 10 [1; 3] = Raise e ->
  Run.main fb signal sr st
  = (Raise e, st ++ [Info_start; Info_analyzing; Error_analysis e; Error_main e]).
Proof.
  intros H. unfold Run.main, Run.stages, Run.analyze_audio. rewrite H.
  unfold emit. now rewrite <- !app_assoc.
Qed.

End ErrorPaths.

(** C3 (amended): neither estimator has a degenerate-signal guard.

    - A series shorter than [2 * kMax] is not an error: with at least
      four samples, [kMax >= 2] and positive curve lengths, [higuchiFD]
      returns the least-squares slope of [log Lk] against [log (1 / k)]
      over the scales [1 .. min(kMax, N // 2)].
    - When no scale is left, an estimator raises the [TypeError] of
      [np.polyfit] on an empty vector.
    - When some [Lk] is zero, as on every constant window, [np.log]
      yields [-inf] without raising and the estimator returns or raises
      what [np.polyfit] does on these ordinates; the same holds for
      [dfa], whose fluctuations all vanish on a constant window.
    - [higuchiFD] raises in no other way: either no scale is left, or
      the least-squares driver raises on a single scale or a zero curve
      length.  With [minScale >= 2], [dfa] raises either because no scale
      is left or because the driver raises in the final fit.
    - An estimator that raises on a scanned window makes the scan raise,
      and a scan that raises ends the run: [main] logs the error and
      returns no output. *)
Theorem estimators_have_no_degeneracy_guard
    (fb : list xfloat -> list xfloat -> result (float64 * float64)) :
  (forall ts k_max,
      (4 <= len ts)%Z -> (2 <= k_max)%Z ->
      (forall k, In k (k_range (len ts) k_max) -> (0 < Lk ts k)%R) ->
      let ks := k_range (len ts) k_max in
      vectorized_higuchi_fd fb ts k_max
      = Ok (Num (ols_slope (log_inverse_scales ks) (log_curve_lengths ts ks)))) /\
  (forall ts k_max,
      (len ts < 2)%Z \/ (k_max < 1)%Z ->
      vectorized_higuchi_fd fb ts k_max = Raise TypeError) /\
  (forall ts k_max k,
      In k (k_range (len ts) k_max) -> Lk ts k = 0%R ->
      let ks := k_range (len ts) k_max in
      let x := map (fun k => np_log (Num (1 / IZR k))) ks in
      let y := map (fun k => np_log (Num (Lk ts k))) ks in
      In NegInf y /\
      vectorized_higuchi_fd fb ts k_max = ('(slope, _) <- fb x y ;; Ok slope)) /\
  (forall c n k_max,
      (2 <= n)%nat -> (1 <= k_max)%Z ->
      let ks := k_range (Z.of_nat n) k_max in
      vectorized_higuchi_fd fb (repeat c n) k_max
      = ('(slope, _) <- fb (map (fun k => np_log (Num (1 / IZR k))) ks)
                           (map (fun _ => NegInf) ks) ;;
         Ok slope)) /\
  (forall ts lo hi,
      (Z.min hi (len ts / 4) <= lo)%Z ->
      vectorized_dfa fb ts (lo, hi) = Raise TypeError) /\
  (forall c n lo hi,
      (2 <= lo < Z.min hi (Z.of_nat n / 4))%Z ->
      let scales := dfa_scales (Z.of_nat n) (lo, hi) in
      vectorized_dfa fb (repeat c n) (lo, hi)
      = ('(slope, _) <- fb (map (fun s => np_log (Num (IZR s))) scales)
                           (map (fun _ => NegInf) scales) ;;
         Ok slope)) /\
  (forall ts k_max e,
      vectorized_higuchi_fd fb ts k_max = Raise e ->
      let ks := k_range (len ts) k_max in
      let x := map (fun k => np_log (Num (1 / IZR k))) ks in
      let y := map (fun k => np_log (Num (Lk ts k))) ks in
      (ks = [] /\ e = TypeError) \/
      (ks <> [] /\ fb x y = Raise e /\
       ((len ts < 4)%Z \/ (k_max < 2)%Z \/ exists k, In k ks /\ Lk ts k = 0%R))) /\
  (forall ts lo hi e,
      (2 <= lo)%Z -> vectorized_dfa fb ts (lo, hi) = Raise e ->
      let scales := dfa_scales (len ts) (lo, hi) in
      let x := map (fun s => np_log (Num (IZR s))) scales in
      let y := map (fun s => np_log (Num (fluctuation (profile ts) s))) scales in
      (scales = [] /\ e = TypeError) \/ (scales <> [] /\ fb x y = Raise e)) /\
  (forall signal sr k_max window_sizes size offsets i,
      In size window_sizes ->
      window_offsets (len signal) size sr = Ok offsets -> In i offsets ->
      let window := slice signal i (i + window_samples size sr) in
      (exists e, vectorized_higuchi_fd fb window k_max = Raise e) \/
      (exists e, vectorized_dfa fb window default_scale_lim = Raise e) ->
      exists e, analyze_audio fb signal sr k_max window_sizes = Raise e) /\
  (forall signal sr st e,
      analyze_audio fb signal sr 10 [1; 3] = Raise e ->
      Run.main fb signal sr st
      = (Raise e,
         st ++ [Info_start; Info_analyzing; Error_analysis e; Error_main e])).
Proof.
  split; [|split; [|split; [|split; [|split; [|split; [|split; [|split; [|split]]]]]]]].
  - intros ts k_max HN Hk Hpos. now apply higuchi_regular.
  - intros ts k_max H. now apply higuchi_no_scale.
  - intros ts k_max k Hk Hzero. now apply (higuchi_zero_curve fb ts k_max k).
  - intros c n k_max Hn Hk. now apply higuchi_constant.
  - intros ts lo hi H. now apply dfa_no_scale.
  - intros c n lo hi H. now apply dfa_constant.
  - intros ts k_max e H. now apply higuchi_raise_inv.
  - intros ts lo hi e Hlo H. now apply dfa_raise_inv.
  - intros signal sr k_max window_sizes size offsets i Hsize Hoffsets Hi.
    now apply (estimator_error_aborts_scan fb signal sr k_max window_sizes size offsets i).
  - intros signal sr st e H. now apply scan_error_ends_run.
Qed.

Lemma estimators_have_no_degeneracy_guard_witness :
  vectorized_higuchi_fd lstsq_nan four_samples 10
  = Ok (Num (ols_slope (log_inverse_scales (k_range (len four_samples) 10))
                       (log_curve_lengths four_samples
                          (k_range (len four_samples) 10)))) /\
  vectorized_higuchi_fd lstsq_nan [1%R] 10 = Raise TypeError /\
  vectorized_higuchi_fd lstsq_nan (repeat 0%R 100) 10 = Ok NaN /\
  vectorized_dfa lstsq_nan (repeat 0%R 20) default_scale_lim = Raise TypeError /\
  vectorized_dfa lstsq_nan (repeat 0%R 100) default_scale_lim = Ok NaN /\
  (exists e,
      analyze_audio lstsq_nan (repeat 0%R 100) 20 10 [1; 3] = Raise e /\
      Run.main lstsq_nan (repeat 0%R 100) 20 []
      = (Raise e, [Info_start; Info_analyzing; Error_analysis e; Error_main e])).
Proof.
  destruct (estimators_have_no_degeneracy_guard lstsq_nan)
    as [Hregular [Hempty [_ [Hconst [Hdfa_empty [Hdfa_const
          [_ [_ [Habort Hrun]]]]]]]]].
  split; [|split; [|split; [|split; [|split]]]].
  - apply Hregular; [vm_compute; congruence|lia|exact Lk_four_samples].
  - apply Hempty. left. reflexivity.
  - rewrite (Hconst 0%R 100%nat 10%Z); [reflexivity|lia|lia].
  - apply Hdfa_empty. vm_compute. congruence.
  - unfold default_scale_lim.
    rewrite (Hdfa_const 0%R 100%nat 5%Z 100%Z); [reflexivity|].
    vm_compute. split; [congruence|reflexivity].
  - destruct (Habort (repeat 0%R 100) 20%Z 10%Z [1; 3] 1
                     (offsets_or_nil 100 1 20) 0%Z) as [e He].
    + now left.
    + reflexivity.
    + vm_compute. now left.
    + right. exists TypeError. apply Hdfa_empty. vm_compute. congruence.
    + exists e. split; [exact He|]. exact (Hrun _ _ [] e He).
Defined.

(** ** The window scan of [analyze_audio] *)

Lemma step_samples_div (sr : Z) : (0 <= sr)%Z -> step_samples sr = (sr / 10)%Z.
Proof.
  intros H. unfold step_samples, int_of_Q, Qmult, inject_Z. cbn [Qnum Qden].
  change (Z.pos (10 * 1)) with 10%Z. rewrite Z.mul_1_l.
  apply Z.quot_div_nonneg; lia.
Qed.

(** [int] does not depend on how the rational is written. *)
Lemma int_of_Q_compat (p q : Q) : p == q -> int_of_Q p = int_of_Q q.
Proof.
  unfold Qeq, int_of_Q. intros H.
  rewrite <- (Z.quot_mul_cancel_r (Qnum p) (Zpos (Qden p)) (Zpos (Qden q))) by lia.
  rewrite H.
  rewrite (Z.mul_comm (Zpos (Qden p))).
  now rewrite Z.quot_mul_cancel_r by lia.
Qed.

Lemma window_samples_whole (k sr : Z) : window_samples (inject_Z k) sr = (k * sr)%Z.
Proof.
  unfold window_samples, int_of_Q, Qmult, inject_Z. cbn [Qnum Qden].
  change (Z.pos (1 * 1)) with 1%Z. apply Z.quot_1_r.
Qed.

Lemma window_offsets_spec (n : Z) (size : Q) (sr : Z) :
  (10 <= sr)%Z ->
  window_offsets n size sr = Ok (offsets_or_nil n size sr) /\
  forall i, In i (offsets_or_nil n size sr) ->
            (0 <= i)%Z /\ (i + window_samples size sr <= n)%Z.
Proof.
  intros Hsr. unfold offsets_or_nil.
  assert (Hstep : step_samples sr = (sr / 10)%Z) by (apply step_samples_div; lia).
  assert (Hpos : (0 < sr / 10)%Z) by (apply Z.div_str_pos; lia).
  destruct (window_offsets n size sr) as [l|e] eqn:E.
  - split; [reflexivity|]. intros i Hi. unfold window_offsets in E.
    rewrite Hstep in E.
    apply (In_py_range _ _ _ _ i Hpos E) in Hi as [j [Hj [-> Hlt]]]. nia.
  - unfold window_offsets, py_range in E. rewrite Hstep in E.
    destruct (sr / 10 =? 0)%Z eqn:E0; [apply Z.eqb_eq in E0; lia|discriminate].
Qed.

(** C1, as stated, fails for a single 2-second window at 10 Hz: the scan
    advances by 1 sample, 10% of the smallest window would be 2. *)
Lemma scan_step_not_tenth_of_smallest_window :
  documented_step_samples [2] 10 = 2%Z /\
  step_samples 10 = 1%Z /\
  window_offsets 24 2 10 = Ok [0; 1; 2; 3; 4]%Z.
Proof. repeat split. Qed.

Section TimeGrid.

Variable fb : list xfloat -> list xfloat -> result (float64 * float64).

Lemma analyze_window_time signal sr k_max window_sizes size i res res' :
  analyze_window fb signal sr k_max window_sizes size i res = Ok res' ->
  r_time res'
  = r_time res ++ (if is_first size window_sizes then [time_of sr i] else []).
Proof.
  unfold analyze_window.
  destruct (vectorized_higuchi_fd fb _ k_max) as [h|e]; [|discriminate].
  destruct (vectorized_dfa fb _ default_scale_lim) as [d|e]; [|discriminate].
  cbn [bind]. intros [= <-]. cbn [r_time].
  destruct (is_first size window_sizes); [reflexivity|now rewrite app_nil_r].
Qed.

Lemma analyze_windows_time signal sr k_max window_sizes size offsets res res' :
  for_each offsets (analyze_window fb signal sr k_max window_sizes size) res = Ok res' ->
  r_time res'
  = r_time res ++ (if is_first size window_sizes then map (time_of sr) offsets else []).
Proof.
  revert res. induction offsets as [|i offsets IH]; intros res H.
  - cbn [for_each] in H. injection H as <-.
    destruct (is_first size window_sizes); now rewrite app_nil_r.
  - cbn [for_each] in H.
    destruct (analyze_window fb signal sr k_max window_sizes size i res)
      as [res1|e] eqn:E1; [|discriminate].
    cbn [bind] in H. rewrite (IH res1 H), (analyze_window_time _ _ _ _ _ _ _ _ E1).
    destruct (is_first size window_sizes); cbn [map];
      now rewrite <- app_assoc.
Qed.

Lemma analyze_sizes_time signal sr k_max window_sizes sizes res res' :
  for_each sizes (analyze_size fb signal sr k_max window_sizes) res = Ok res' ->
  r_time res'
  = r_time res
    ++ flat_map (fun size => if is_first size window_sizes
                             then map (time_of sr) (offsets_or_nil (len signal) size sr)
                             else []) sizes.
Proof.
  revert res. induction sizes as [|size sizes IH]; intros res H.
  - cbn [for_each] in H. injection H as <-. cbn [flat_map]. now rewrite app_nil_r.
  - cbn [for_each] in H.
    destruct (analyze_size fb signal sr k_max window_sizes size res)
      as [res1|e] eqn:E1; [|discriminate].
    cbn [bind] in H. rewrite (IH res1 H). cbn [flat_map]. rewrite app_assoc. f_equal.
    unfold analyze_size in E1. unfold offsets_or_nil.
    destruct (window_offsets (len signal) size sr) as [offsets|e]; [|discriminate].
    cbn [bind] in E1. now apply analyze_windows_time in E1.
Qed.

(** In a successful run the time axis is the grid of the first window
    size: the offsets of its scan divided by the sample rate, once for
    every occurrence of that size in the configuration. *)
Lemma analyze_audio_time signal sr k_max window_sizes res sr' :
  analyze_audio fb signal sr k_max window_sizes = Ok (res, sr') ->
  sr' = sr /\
  r_time res
  = flat_map (fun size => if is_first size window_sizes
                          then map (time_of sr) (offsets_or_nil (len signal) size sr)
                          else []) window_sizes.
Proof.
  unfold analyze_audio.
  destruct (for_each window_sizes _ _) as [res1|e] eqn:E; [|discriminate].
  cbn [bind]. intros [= <- <-]. split; [reflexivity|].
  now rewrite (analyze_sizes_time _ _ _ _ _ _ _ E).
Qed.

End TimeGrid.

(** C1 (amended): every window size is scanned with the same step of
    [floor(0.1 * sr)] samples, whatever the configured durations: the
    offsets visited for a size are exactly the multiples of that step at
    which a whole window fits, and the time axis of a successful run is
    that grid for the first size, divided by the sample rate.  The step is
    10% of the smallest window duration when that duration is one
    second. *)
Theorem scan_step_is_tenth_of_sample_rate
    (fb : list xfloat -> list xfloat -> result (float64 * float64))
    (signal : list R) (sr k_max : Z) (window_sizes : list Q) :
  (10 <= sr)%Z ->
  let n := len signal in
  let step := (sr / 10)%Z in
  step_samples sr = step /\
  (forall size, exists offsets,
      window_offsets n size sr = Ok offsets /\
      forall i, In i offsets <->
                exists j, (0 <= j)%Z /\ i = (j * step)%Z /\
                          (i + window_samples size sr <= n)%Z) /\
  (forall res sr',
      analyze_audio fb signal sr k_max window_sizes = Ok (res, sr') ->
      r_time res
      = flat_map (fun size => if is_first size window_sizes
                              then map (time_of sr) (offsets_or_nil n size sr)
                              else []) window_sizes) /\
  (smallest window_sizes == 1 ->
   documented_step_samples window_sizes sr = step_samples sr).
Proof.
  intros Hsr n step.
  assert (Hstep : step_samples sr = step) by (apply step_samples_div; lia).
  assert (Hpos : (0 < step)%Z) by (apply Z.div_str_pos; lia).
  split; [exact Hstep|split; [|split]].
  - intros size. unfold window_offsets. rewrite Hstep.
    destruct (py_range 0 (n - window_samples size sr + 1) step) as [l|e] eqn:E.
    + exists l. split; [reflexivity|]. intros i.
      rewrite (In_py_range _ _ _ _ i Hpos E).
      split; intros [j [Hj [Hi Hlt]]]; exists j; repeat split; lia.
    + unfold py_range in E.
      destruct (step =? 0)%Z eqn:E0; [apply Z.eqb_eq in E0; lia|discriminate].
  - intros res sr' Hrun.
    now destruct (analyze_audio_time fb signal sr k_max window_sizes res sr' Hrun).
  - intros Hone. unfold documented_step_samples, step_samples.
    apply int_of_Q_compat. rewrite Hone. ring.
Qed.

Lemma scan_step_is_tenth_of_sample_rate_witness :
  let signal := repeat 0%R 40 in
  let window_sizes := [1; 3] in
  step_samples 10 = (10 / 10)%Z /\
  (forall size, exists offsets,
      window_offsets (len signal) size 10 = Ok offsets /\
      forall i, In i offsets <->
                exists j, (0 <= j)%Z /\ i = (j * (10 / 10))%Z /\
                          (i + window_samples size 10 <= len signal)%Z) /\
  (forall res sr',
      analyze_audio lstsq_nan signal 10 10 window_sizes = Ok (res, sr') ->
      r_time res
      = flat_map (fun size => if is_first size window_sizes
                              then map (time_of 10) (offsets_or_nil (len signal) size 10)
                              else []) window_sizes) /\
  documented_step_samples window_sizes 10 = step_samples 10.
Proof.
  intros signal window_sizes.
  destruct (scan_step_is_tenth_of_sample_rate lstsq_nan signal 10 10 window_sizes)
    as [H1 [H2 [H3 H4]]]; [lia|].
  split; [exact H1|split; [exact H2|split; [exact H3|]]].
  apply H4. reflexivity.
Defined.

(** ** [adaptive_threshold] *)

Lemma Rmean_scale (c : R) (l : list R) : Rmean (map (Rmult c) l) = (c * Rmean l)%R.
Proof. unfold Rmean. rewrite Rsum_scale, len_map. unfold Rdiv. ring. Qed.


Lemma Rvar_nonneg (l : list R) : (0 <= Rvar l)%R.
Proof.
  unfold Rvar, Rmean. destruct l as [|x l].
  - unfold Rsum, Rdiv. simpl. lra.
  - apply Rmult_le_pos.
    + apply Rsum_nonneg. apply Forall_forall. intros v Hv.
      apply in_map_iff in Hv as [w [<- _]]. apply Rle_0_sqr.
    + apply Rlt_le, Rinv_0_lt_compat. rewrite len_map, IZR_len_cons.
      pose proof (IZR_len_nonneg l). lra.
Qed.


Lemma np_std_Num (l : list R) : l <> [] -> np_std (map Num l) = Num (Rstd l).
Proof.
  intros Hl. unfold np_std. rewrite np_mean_Num by assumption.
  rewrite map_map.
  assert (E : map (fun x => lift1 (fun d => d * d)%R (fsub (Num x) (Num (Rmean l)))) l
              = map Num (map (fun x => (x - Rmean l) * (x - Rmean l))%R l)).
  { rewrite map_map. reflexivity. }
  rewrite E, np_mean_Num by (destruct l; [contradiction|discriminate]).
  fold (Rvar l). unfold fsqrt, Rstd.
  destruct (Rlt_dec (Rvar l) 0) as [H|_]; [|reflexivity].
  pose proof (Rvar_nonneg l). lra.
Qed.

Lemma np_std_all_NaN (l : list float64) :
  (forall v, In v l -> v = NaN) -> np_std l = NaN.
Proof.
  intros H. unfold np_std. rewrite (np_mean_all_NaN l H).
  rewrite np_mean_all_NaN; [reflexivity|].
  intros v Hv. apply in_map_iff in Hv as [x [<- _]]. now destruct x.
Qed.

Lemma threshold_of_Num (l : list R) :
  l <> [] -> threshold_of (map Num l) = Num (Rmean l + 25 / 100 * Rstd l).
Proof.
  intros Hl. unfold threshold_of.
  now rewrite np_mean_Num, np_std_Num by assumption.
Qed.

Lemma threshold_of_all_NaN (l : list float64) :
  (forall v, In v l -> v = NaN) -> threshold_of l = NaN.
Proof. intros H. unfold threshold_of. now rewrite np_mean_all_NaN. Qed.




Lemma adaptive_threshold_pooled (res : results) (h d : float64) :
  adaptive_threshold res = Ok (h, d) ->
  r_hfd res <> [] /\ r_dfa res <> [] /\
  h = threshold_of (pooled (r_hfd res)) /\
  d = threshold_of (pooled (r_dfa res)).
Proof.
  unfold adaptive_threshold, np_concatenate, pooled, dict_values.
  destruct (r_hfd res) as [|kv1 d1]; [discriminate|].
  destruct (r_dfa res) as [|kv2 d2]; [discriminate|].
  cbn [map bind]. intros [= <- <-]. repeat split; discriminate.
Qed.



(** ** [classify_voice] *)

Lemma computed_decisions_length res h d m :
  length (computed_decisions res h d m) = Z.to_nat (m - 4).
Proof.
  unfold computed_decisions, range, window_size.
  rewrite length_map, arange_length. f_equal. lia.
Qed.

Lemma computed_decisions_short res h d m :
  (m < 5)%Z -> computed_decisions res h d m = [].
Proof.
  intros H. unfold computed_decisions, range, window_size.
  rewrite arange_empty by lia. reflexivity.
Qed.

Lemma computed_decisions_nth res h d m (i : nat) :
  (Z.of_nat i <= m - 5)%Z ->
  nth_error (computed_decisions res h d m) i = Some (classify_at res h d (Z.of_nat i)).
Proof.
  intros H. unfold computed_decisions, range, window_size, arange.
  rewrite map_map, nth_error_map, nth_error_seq.
  destruct (Nat.ltb_spec i (Z.to_nat (m - 5 + 1 - 0))); [|lia].
  reflexivity.
Qed.

Lemma min_length_hfd_nonneg res m : min_length_hfd res = Ok m -> (0 <= m)%Z.
Proof.
  unfold min_length_hfd, py_min.
  destruct (map _ (dict_values (r_hfd res))) as [|x l] eqn:E; [discriminate|].
  intros [= <-].
  assert (Hx : (0 <= x)%Z).
  { destruct (dict_values (r_hfd res)); [discriminate|].
    simpl in E. injection E as <- _. apply len_nonneg. }
  assert (Hl : Forall (fun z => 0 <= z)%Z l).
  { apply Forall_forall. intros z Hz.
    assert (Hin : In z (x :: l)) by now right.
    rewrite <- E in Hin. apply in_map_iff in Hin as [w [<- _]]. apply len_nonneg. }
  clear E. revert x Hx. induction Hl as [|y l Hy _ IH]; intros x Hx; simpl.
  - exact Hx.
  - apply IH. lia.
Qed.

(** Below five time steps the loop body never runs and the padding step
    indexes an empty list. *)
Lemma classify_voice_below_window res h d m :
  min_length_hfd res = Ok m -> (m < 5)%Z ->
  classify_voice res h d = Raise IndexError.
Proof.
  intros Hm Hlt. unfold classify_voice. rewrite Hm. simpl.
  rewrite computed_decisions_short by assumption.
  now rewrite index_nil.
Qed.

Lemma four_steps_min_length : min_length_hfd four_steps = Ok 4%Z.
Proof. reflexivity. Qed.

(** C6, as stated, fails on a series of four time steps: no classification
    series is returned at all. *)
Lemma classify_voice_length_fails_at_four :
  min_length_hfd four_steps = Ok 4%Z /\
  forall h d cls, classify_voice four_steps h d <> Ok cls.
Proof.
  split; [reflexivity|]. intros h d cls.
  rewrite (classify_voice_below_window four_steps h d 4 four_steps_min_length);
    [discriminate|lia].
Qed.

(** C6 (amended): when the common length [minLength] is at least 5, the
    loop computes exactly [minLength - 4] decisions, one per start index
    [0 .. minLength - 5], the result is these decisions followed by four
    copies of the last one, and its length is [minLength]. *)
Theorem classify_voice_length res h d m :
  min_length_hfd res = Ok m -> (5 <= m)%Z ->
  let computed := computed_decisions res h d m in
  exists final,
    len computed = (m - 4)%Z /\
    (forall i, (0 <= i <= m - 5)%Z -> index computed i = Ok (classify_at res h d i)) /\
    index computed (-1) = Ok final /\
    classify_voice res h d = Ok (computed ++ [final; final; final; final]) /\
    len (computed ++ [final; final; final; final]) = m.
Proof.
  intros Hm Hge computed.
  assert (Hlen : length computed = Z.to_nat (m - 4))
    by apply computed_decisions_length.
  destruct (exists_last (l := computed)) as [front [final Hsplit]].
  { intros E. rewrite E in Hlen. simpl in Hlen. lia. }
  exists final.
  assert (Hfinal : index computed (-1) = Ok final)
    by (rewrite Hsplit; apply index_last).
  repeat split.
  - unfold len. rewrite Hlen. lia.
  - intros i Hi. apply index_nonneg; [lia|].
    unfold computed. rewrite computed_decisions_nth by lia.
    now rewrite Z2Nat.id by lia.
  - exact Hfinal.
  - unfold classify_voice. rewrite Hm. simpl. fold computed.
    now rewrite Hfinal.
  - rewrite len_app. unfold len. rewrite Hlen. simpl. lia.
Qed.

Lemma classify_voice_length_witness :
  let computed := computed_decisions five_steps (Num 0) (Num 0) 5 in
  exists final,
    len computed = (5 - 4)%Z /\
    (forall i, (0 <= i <= 5 - 5)%Z ->
               index computed i = Ok (classify_at five_steps (Num 0) (Num 0) i)) /\
    index computed (-1) = Ok final /\
    classify_voice five_steps (Num 0) (Num 0)
      = Ok (computed ++ [final; final; final; final]) /\
    len (computed ++ [final; final; final; final]) = 5%Z.
Proof.
  apply (classify_voice_length five_steps (Num 0) (Num 0) 5).
  - reflexivity.
  - lia.
Defined.

Lemma classify_voice_returns_iff res h d m :
  min_length_hfd res = Ok m ->
  (exists cls, classify_voice res h d = Ok cls) <-> (5 <= m)%Z.
Proof.
  intros Hm. split.
  - intros [cls Hcls]. destruct (Z_lt_le_dec m 5) as [Hlt|Hge]; [|exact Hge].
    rewrite (classify_voice_below_window res h d m Hm Hlt) in Hcls. discriminate.
  - intros Hge. unfold classify_voice. rewrite Hm. cbn [bind].
    destruct (exists_last (l := computed_decisions res h d m)) as [front [final E]].
    { intros E. pose proof (computed_decisions_length res h d m) as Hlen.
      rewrite E in Hlen. simpl in Hlen. lia. }
    rewrite E, index_last. cbn [bind]. eexists. reflexivity.
Qed.

(** C10: when the common length is below 5 the loop runs zero times and
    the padding step raises [IndexError]; the classifier returns a series
    exactly when the common length is at least 5. *)
Theorem classify_voice_short_input res h d m :
  min_length_hfd res = Ok m ->
  ((0 <= m < 5)%Z ->
   computed_decisions res h d m = [] /\
   classify_voice res h d = Raise IndexError) /\
  ((exists cls, classify_voice res h d = Ok cls) <-> (5 <= m)%Z).
Proof.
  intros Hm. split.
  - intros [_ Hlt]. split.
    + now apply computed_decisions_short.
    + now apply classify_voice_below_window with (m := m).
  - now apply classify_voice_returns_iff.
Qed.

Lemma classify_voice_short_input_witness :
  computed_decisions four_steps (Num 0) (Num 0) 4 = [] /\
  classify_voice four_steps (Num 0) (Num 0) = Raise IndexError /\
  ~ (exists cls, classify_voice four_steps (Num 0) (Num 0) = Ok cls).
Proof.
  destruct (classify_voice_short_input four_steps (Num 0) (Num 0) 4) as [H1 H2];
    [reflexivity|].
  destruct H1 as [H1 H1']; [lia|].
  split; [exact H1|split; [exact H1'|]].
  intros H. apply H2 in H. lia.
Defined.

Lemma is_ai_hfd (hfd_ai dfa_ai : bool) : is_ai hfd_ai dfa_ai = hfd_ai.
Proof.
  unfold is_ai, of_bool, fgt, fadd, fmul, lift2, hfd_weight, dfa_weight.
  destruct hfd_ai, dfa_ai;
    match goal with
    | |- (if ?c then _ else _) = _ => destruct c
    end; try reflexivity; exfalso; lra.
Qed.

Lemma classify_at_hfd res h d i :
  classify_at res h d i = flag (r_hfd res) h (1 / 10) i.
Proof. unfold classify_at. apply is_ai_hfd. Qed.

(** C7: for flags in [{0,1}] the weighted vote
    [(0.7 * hfdFlag + 0.3 * dfaFlag) > 0.5] is true exactly when [hfdFlag]
    is, over the reals and in binary64 arithmetic alike, so the
    classification does not depend on the DFA side: neither on the DFA
    series nor on the DFA threshold. *)
Theorem weighted_vote_is_hfd_flag :
  (forall hfd_ai dfa_ai : bool, is_ai hfd_ai dfa_ai = true <-> hfd_ai = true) /\
  (forall hfd_ai dfa_ai : bool, Binary64.is_ai hfd_ai dfa_ai = hfd_ai) /\
  (forall res h d d' i dfa',
      classify_at res h d i
      = classify_at (mk_results (r_time res) (r_hfd res) dfa') h d' i) /\
  (forall res h d d' dfa',
      classify_voice res h d
      = classify_voice (mk_results (r_time res) (r_hfd res) dfa') h d').
Proof.
  split; [|split; [|split]].
  - intros hfd_ai dfa_ai. now rewrite is_ai_hfd.
  - intros [] []; reflexivity.
  - intros. now rewrite !classify_at_hfd.
  - intros res h d d' dfa'. unfold classify_voice, min_length_hfd. simpl.
    destruct (py_min _) as [m|e]; [|reflexivity]. simpl.
    assert (E : computed_decisions res h d m
                = computed_decisions (mk_results (r_time res) (r_hfd res) dfa') h d' m).
    { unfold computed_decisions. apply map_ext. intros i.
      now rewrite !classify_at_hfd. }
    now rewrite E.
Qed.

(** With only [nan] in the HFD series no rolling window raises a flag. *)
Lemma flag_all_NaN (series : dict) (threshold : float64) (spread : R) (i : Z) :
  (forall w, In w (dict_values series) -> forall v, In v w -> v = NaN) ->
  flag series threshold spread i = false.
Proof.
  intros H. unfold flag.
  assert (Hw : forall w', In w' (map (fun w => slice w i (i + window_size))
                                     (dict_values series)) ->
                          forall v, In v w' -> v = NaN).
  { intros w' Hw' v Hv. apply in_map_iff in Hw' as [w [<- Hin]].
    apply In_slice in Hv. now apply (H w). }
  rewrite (np_mean_all_NaN (map np_mean _)), (np_mean_all_NaN (map np_std _)).
  - reflexivity.
  - intros v Hv. apply in_map_iff in Hv as [w' [<- Hin]].
    apply np_std_all_NaN. now apply Hw.
  - intros v Hv. apply in_map_iff in Hv as [w' [<- Hin]].
    apply np_mean_all_NaN. now apply Hw.
Qed.

Lemma classify_voice_all_NaN (res : results) (h d : float64) (m : Z) :
  (forall w, In w (dict_values (r_hfd res)) -> forall v, In v w -> v = NaN) ->
  min_length_hfd res = Ok m -> (5 <= m)%Z ->
  classify_voice res h d = Ok (repeat false (Z.to_nat m)).
Proof.
  intros Hnan Hm Hge. unfold classify_voice. rewrite Hm. cbn [bind].
  assert (E : computed_decisions res h d m = repeat false (Z.to_nat (m - 5) + 1)).
  { unfold computed_decisions.
    rewrite (map_ext _ (fun _ => false)).
    - rewrite map_const. f_equal. unfold range, window_size.
      rewrite arange_length. lia.
    - intros i. rewrite classify_at_hfd. now apply flag_all_NaN. }
  rewrite E, repeat_app. cbn [repeat]. rewrite index_last. cbn [bind].
  rewrite <- app_assoc. change window_size with 5%Z.
  change (Z.to_nat (5 - 1)) with 4%nat.
  change ([false] ++ repeat false 4) with (repeat false 5).
  rewrite <- repeat_app. do 2 f_equal. lia.
Qed.

(** ** [retroactive_analysis] *)

Lemma Qlt_bool_iff (a b : Q) : Qlt_bool a b = true <-> a < b.
Proof.
  unfold Qlt_bool. rewrite negb_true_iff. split.
  - intros H. apply Qnot_le_lt. intros Hle.
    apply Qle_bool_iff in Hle. congruence.
  - intros H. destruct (Qle_bool b a) eqn:E; [|reflexivity].
    apply Qle_bool_iff in E. exfalso. Lqa.lra.
Qed.

Lemma in_segment_iff (start finish t : Q) :
  in_segment (start, finish) t = true <-> start <= t /\ t < finish.
Proof.
  unfold in_segment. simpl.
  now rewrite andb_true_iff, Qle_bool_iff, Qlt_bool_iff.
Qed.

Lemma in_segment_false (start finish t : Q) :
  ~ (start <= t /\ t < finish) -> in_segment (start, finish) t = false.
Proof.
  intros H. destruct (in_segment (start, finish) t) eqn:E; [|reflexivity].
  apply in_segment_iff in E. contradiction.
Qed.

Lemma in_segment_true (start finish t : Q) :
  start <= t -> t < finish -> in_segment (start, finish) t = true.
Proof. intros. apply in_segment_iff. now split. Qed.

(** Every time stamp strictly before the total duration is selected by
    exactly one of the three segments. *)
Lemma earlier_steps_in_one_segment (total t : Q) :
  0 <= t -> t < total -> segments_selecting total t = 1%nat.
Proof.
  intros H0 Ht. unfold segments_selecting, segments. cbn [filter].
  destruct (Qlt_le_dec t (total / 3)) as [H1|H1].
  - rewrite (in_segment_true 0 (total / 3) t) by Lqa.lra.
    rewrite !in_segment_false by (intros [? ?]; Lqa.lra). reflexivity.
  - rewrite (in_segment_false 0 (total / 3) t) by (intros [? ?]; Lqa.lra).
    destruct (Qlt_le_dec t (2 * (total / 3))) as [H2|H2].
    + rewrite (in_segment_true (total / 3) (2 * (total / 3)) t) by Lqa.lra.
      rewrite in_segment_false by (intros [? ?]; Lqa.lra). reflexivity.
    + rewrite (in_segment_false (total / 3) (2 * (total / 3)) t)
        by (intros [? ?]; Lqa.lra).
      rewrite in_segment_true by Lqa.lra. reflexivity.
Qed.

(** The last time stamp, which is the total duration, is selected by none:
    the third segment is half-open like the other two. *)
Lemma final_step_in_no_segment (total t : Q) :
  0 <= total -> t == total -> segments_selecting total t = 0%nat.
Proof.
  intros H0 Ht.
  assert (Hd : total == 3 * (total / 3)) by field.
  unfold segments_selecting, segments. cbn [filter].
  rewrite !in_segment_false by (intros [? ?]; Lqa.lra). reflexivity.
Qed.

(** C2: on a four-step timeline [0, 0.1, 0.2, 0.3] the three masks select
    the first three steps, one each; the final step, at the total
    duration, is in none of the ranges, whereas the claim puts it in the
    third.  Its classification, the only positive one, enters no segment
    summary: every segment reports a fraction of 0. *)
Theorem retroactive_final_step_unselected :
  let classifications := [false; false; false; true] in
  common_length four_steps classifications = Ok 4%Z /\
  index (r_time four_steps) (4 - 1) = Ok (3 # 10) /\
  map (segment_indices (take (r_time four_steps) 4)) (segments (3 # 10))
  = [ [true; false; false; false];
      [false; true; false; false];
      [false; false; true; false] ] /\
  segments_selecting (3 # 10) (3 # 10) = 0%nat /\
  exists s1 s2 s3,
    retroactive_analysis four_steps classifications = Ok [s1; s2; s3] /\
    seg_classification s1 = Num 0 /\
    seg_classification s2 = Num 0 /\
    seg_classification s3 = Num 0.
Proof.
  cbv zeta. repeat split.
  eexists _, _, _. split; [reflexivity|].
  cbn [seg_classification]. repeat split; apply np_mean_single_false.
Qed.

(** ** The run *)

Section LoggedRun.

Variable fb : list xfloat -> list xfloat -> result (float64 * float64).

(** Each stage returns what its logger-free counterpart returns, whatever
    the logger holds. *)
Lemma analyze_audio_run signal sr k_max window_sizes st :
  fst (Run.analyze_audio fb signal sr k_max window_sizes st)
  = analyze_audio fb signal sr k_max window_sizes.
Proof. unfold Run.analyze_audio. now destruct (analyze_audio _ _ _ _ _). Qed.

Lemma adaptive_threshold_run res st :
  fst (Run.adaptive_threshold res st) = adaptive_threshold res.
Proof.
  unfold Run.adaptive_threshold.
  now destruct (adaptive_threshold res) as [[h d]|e].
Qed.

Lemma classify_voice_run res h d st :
  fst (Run.classify_voice res h d st) = classify_voice res h d.
Proof. unfold Run.classify_voice. now destruct (classify_voice res h d). Qed.

Lemma retroactive_analysis_run res cls st :
  fst (Run.retroactive_analysis res cls st) = retroactive_analysis res cls.
Proof.
  unfold Run.retroactive_analysis. now destruct (retroactive_analysis res cls).
Qed.

Lemma stages_run signal sr st :
  fst (Run.stages fb signal sr st) = pipeline fb signal sr.
Proof.
  unfold Run.stages, pipeline.
  pose proof (analyze_audio_run signal sr 10 [1; 3] st) as H1.
  destruct (Run.analyze_audio fb signal sr 10 [1; 3] st) as [r1 st1].
  cbn [fst] in H1. rewrite <- H1.
  destruct r1 as [[res sr']|e]; [|reflexivity]. cbn [bind].
  pose proof (adaptive_threshold_run res st1) as H2.
  destruct (Run.adaptive_threshold res st1) as [r2 st2].
  cbn [fst] in H2. rewrite <- H2.
  destruct r2 as [[h d]|e]; [|reflexivity]. cbn [bind].
  pose proof (classify_voice_run res h d st2) as H3.
  destruct (Run.classify_voice res h d st2) as [r3 st3].
  cbn [fst] in H3. rewrite <- H3.
  destruct r3 as [cls|e]; [|reflexivity]. cbn [bind].
  pose proof (retroactive_analysis_run res cls st3) as H4.
  destruct (Run.retroactive_analysis res cls st3) as [r4 st4].
  cbn [fst] in H4. rewrite <- H4.
  now destruct r4 as [segs|e].
Qed.

Lemma main_run signal sr st :
  fst (Run.main fb signal sr st) = pipeline fb signal sr.
Proof.
  unfold Run.main.
  pose proof (stages_run signal sr (emit st Info_start)) as H.
  destruct (Run.stages fb signal sr (emit st Info_start)) as [r st'].
  cbn [fst] in H. rewrite <- H. now destruct r.
Qed.

End LoggedRun.

(** ** A constant recording, end to end *)

Lemma higuchi_constant_nan (c : R) (n : nat) (k_max : Z) :
  (2 <= n)%nat -> (1 <= k_max)%Z ->
  vectorized_higuchi_fd lstsq_nan (repeat c n) k_max = Ok NaN.
Proof. intros Hn Hk. now rewrite higuchi_constant. Qed.

Lemma dfa_constant_nan (c : R) (n : nat) :
  (24 <= n)%nat ->
  vectorized_dfa lstsq_nan (repeat c n) default_scale_lim = Ok NaN.
Proof.
  intros Hn. unfold default_scale_lim. rewrite dfa_constant; [reflexivity|].
  assert (6 <= Z.of_nat n / 4)%Z by (apply Z.div_le_lower_bound; lia). lia.
Qed.

Section ConstantRecording.

Variables (c : R) (n : nat) (sr k_max : Z) (window_sizes : list Q).

Let signal : list R := repeat c n.

Lemma analyze_window_constant (size : Q) (i : Z) (res : results) :
  (24 <= window_samples size sr)%Z -> (1 <= k_max)%Z ->
  (0 <= i)%Z -> (i + window_samples size sr <= Z.of_nat n)%Z ->
  analyze_window lstsq_nan signal sr k_max window_sizes size i res
  = Ok (mk_results
          (r_time res ++ (if is_first size window_sizes then [time_of sr i] else []))
          (dict_append (r_hfd res) size NaN)
          (dict_append (r_dfa res) size NaN)).
Proof.
  intros Hws Hk Hi Hfit. unfold analyze_window, signal.
  rewrite slice_repeat by lia.
  rewrite higuchi_constant_nan, dfa_constant_nan by lia.
  cbn [bind]. destruct (is_first size window_sizes);
    [reflexivity|now rewrite app_nil_r].
Qed.

Lemma analyze_windows_constant (size : Q) (offsets : list Z) (res : results) :
  (24 <= window_samples size sr)%Z -> (1 <= k_max)%Z ->
  (forall i, In i offsets ->
             (0 <= i)%Z /\ (i + window_samples size sr <= Z.of_nat n)%Z) ->
  for_each offsets (analyze_window lstsq_nan signal sr k_max window_sizes size) res
  = Ok (mk_results
          (r_time res
           ++ (if is_first size window_sizes then map (time_of sr) offsets else []))
          (fold_left (fun d _ => dict_append d size NaN) offsets (r_hfd res))
          (fold_left (fun d _ => dict_append d size NaN) offsets (r_dfa res))).
Proof.
  intros Hws Hk. revert res.
  induction offsets as [|i offsets IH]; intros res Hin.
  - cbn [for_each fold_left map]. destruct res.
    cbn [r_time r_hfd r_dfa]. destruct (is_first size window_sizes);
      now rewrite app_nil_r.
  - cbn [for_each].
    destruct (Hin i (or_introl eq_refl)) as [Hi Hfit].
    rewrite analyze_window_constant by assumption. cbn [bind].
    rewrite IH by (intros j Hj; apply Hin; now right).
    cbn [r_time r_hfd r_dfa fold_left map].
    destruct (is_first size window_sizes); now rewrite <- app_assoc.
Qed.

End ConstantRecording.

Lemma append_first_of_two (l1 l3 : list float64) (offsets : list Z) :
  fold_left (fun d _ => dict_append d 1 NaN) offsets [(1, l1); (3, l3)]
  = [(1, l1 ++ repeat NaN (length offsets)); (3, l3)].
Proof.
  revert l1. induction offsets as [|i offsets IH]; intros l1.
  - cbn [fold_left length repeat]. now rewrite app_nil_r.
  - cbn [fold_left length repeat].
    change (dict_append [(1, l1); (3, l3)] 1 NaN) with [(1, l1 ++ [NaN]); (3, l3)].
    rewrite IH, <- app_assoc. reflexivity.
Qed.

Lemma append_second_of_two (l1 l3 : list float64) (offsets : list Z) :
  fold_left (fun d _ => dict_append d 3 NaN) offsets [(1, l1); (3, l3)]
  = [(1, l1); (3, l3 ++ repeat NaN (length offsets))].
Proof.
  revert l3. induction offsets as [|i offsets IH]; intros l3.
  - cbn [fold_left length repeat]. now rewrite app_nil_r.
  - cbn [fold_left length repeat].
    change (dict_append [(1, l1); (3, l3)] 3 NaN) with [(1, l1); (3, l3 ++ [NaN])].
    rewrite IH, <- app_assoc. reflexivity.
Qed.

(** The scan of a constant recording with the default window sizes: every
    feature value is [nan]. *)
Lemma analyze_audio_constant (c : R) (n : nat) (sr k_max : Z) :
  (24 <= sr)%Z -> (1 <= k_max)%Z ->
  let offsets1 := offsets_or_nil (Z.of_nat n) 1 sr in
  let offsets3 := offsets_or_nil (Z.of_nat n) 3 sr in
  let series := [(1, repeat NaN (length offsets1)); (3, repeat NaN (length offsets3))] in
  analyze_audio lstsq_nan (repeat c n) sr k_max [1; 3]
  = Ok (mk_results (map (time_of sr) offsets1) series series, sr).
Proof.
  intros Hsr Hk offsets1 offsets3 series.
  destruct (window_offsets_spec (Z.of_nat n) 1 sr) as [E1 H1]; [lia|].
  destruct (window_offsets_spec (Z.of_nat n) 3 sr) as [E3 H3]; [lia|].
  fold offsets1 in E1, H1. fold offsets3 in E3, H3.
  assert (W1 : window_samples 1 sr = sr) by (rewrite (window_samples_whole 1); lia).
  assert (W3 : window_samples 3 sr = (3 * sr)%Z) by apply (window_samples_whole 3).
  unfold analyze_audio.
  change (dict_fresh [1; 3] []) with [(1, @nil float64); (3, @nil float64)].
  cbn [for_each]. unfold analyze_size at 1.
  unfold len at 1. rewrite repeat_length, E1. cbn [bind].
  rewrite analyze_windows_constant by (try assumption; lia).
  cbn [bind r_time r_hfd r_dfa]. unfold analyze_size.
  unfold len at 1. rewrite repeat_length, E3. cbn [bind].
  rewrite analyze_windows_constant by (try assumption; lia).
  cbn [bind r_time r_hfd r_dfa].
  change (is_first 1 [1; 3]) with true. change (is_first 3 [1; 3]) with false.
  cbv iota. rewrite app_nil_r. cbn [app].
  now rewrite !append_first_of_two, !append_second_of_two.
Qed.

(** Ten seconds of a constant signal at 16 kHz, default configuration,
    with a least-squares driver that answers [nan] on non-finite data:
    the run completes, both thresholds are [nan] and each of the 71 time
    steps is classified as not AI-generated. *)
Lemma constant_recording_is_classified (c : R) (st : logger) :
  exists out,
    pipeline lstsq_nan (constant_recording c) 16000 = Ok out /\
    fst (Run.main lstsq_nan (constant_recording c) 16000 st) = Ok out /\
    out_thresholds out = (NaN, NaN) /\
    out_classifications out = repeat false 71.
Proof.
  rewrite main_run. unfold pipeline, constant_recording.
  rewrite analyze_audio_constant by lia.
  rewrite Z2Nat.id by lia. cbn [bind].
  set (offsets1 := offsets_or_nil 160000 1 16000).
  set (offsets3 := offsets_or_nil 160000 3 16000).
  assert (L1 : length offsets1 = 91%nat) by (vm_compute; reflexivity).
  assert (L3 : length offsets3 = 71%nat) by (vm_compute; reflexivity).
  rewrite L1, L3.
  set (series := [(1, repeat NaN 91); (3, repeat NaN 71)]).
  set (res := mk_results (map (time_of 16000) offsets1) series series).
  assert (Hnan : forall w, In w (dict_values series) -> forall v, In v w -> v = NaN).
  { intros w [<-|[<-|[]]] v Hv; now apply repeat_spec in Hv. }
  assert (Hthr : adaptive_threshold res = Ok (NaN, NaN)).
  { unfold adaptive_threshold, res. cbn [r_hfd r_dfa].
    unfold series, dict_values, np_concatenate. cbn [map snd bind concat].
    rewrite threshold_of_all_NaN; [reflexivity|].
    intros v Hv. rewrite app_nil_r in Hv.
    apply in_app_or in Hv as [Hv|Hv]; now apply repeat_spec in Hv. }
  rewrite Hthr. cbn [bind].
  rewrite (classify_voice_all_NaN res NaN NaN 71) by (try assumption; reflexivity || lia).
  cbn [bind]. change (Z.to_nat 71) with 71%nat.
  destruct (retroactive_analysis res (repeat false 71)) as [segs|e] eqn:E.
  - cbn [bind]. eexists. repeat split.
  - exfalso. unfold res, offsets1 in E. vm_compute in E. discriminate.
Qed.

(** * Further properties *)

(** ** How many windows a scan visits *)

Lemma range_count_from_zero (stop step : Z) :
  (0 < step)%Z ->
  Z.of_nat (range_count 0 stop step)
  = if (1 <=? stop)%Z then ((stop - 1) / step + 1)%Z else 0%Z.
Proof.
  intros Hstep. unfold range_count.
  destruct (0 <? step)%Z eqn:E; [|apply Z.ltb_ge in E; lia].
  replace (stop - 0 + step - 1)%Z with (stop - 1 + 1 * step)%Z by lia.
  rewrite Z.div_add by lia.
  destruct (1 <=? stop)%Z eqn:E1.
  - apply Z.leb_le in E1.
    assert (0 <= (stop - 1) / step)%Z by (apply Z.div_pos; lia). lia.
  - apply Z.leb_gt in E1.
    assert ((stop - 1) / step < 0)%Z by (apply Z.div_lt_upper_bound; lia). lia.
Qed.

Lemma len_offsets (n : Z) (size : Q) (sr : Z) :
  (10 <= sr)%Z ->
  len (offsets_or_nil n size sr) = window_count n (window_samples size sr) (sr / 10).
Proof.
  intros Hsr. unfold offsets_or_nil, window_offsets, py_range, window_count.
  rewrite step_samples_div by lia.
  assert (Hpos : (0 < sr / 10)%Z) by (apply Z.div_str_pos; lia).
  destruct (sr / 10 =? 0)%Z eqn:E0; [apply Z.eqb_eq in E0; lia|].
  unfold len. rewrite length_map, length_seq, range_count_from_zero by assumption.
  set (ws := window_samples size sr).
  replace (n - ws + 1 - 1)%Z with (n - ws)%Z by lia.
  destruct (1 <=? n - ws + 1)%Z eqn:E1, (ws <=? n)%Z eqn:E2; try reflexivity.
  - apply Z.leb_le in E1. apply Z.leb_gt in E2. lia.
  - apply Z.leb_gt in E1. apply Z.leb_le in E2. lia.
Qed.

(** X1: at a sample rate of at least 10 Hz the scan of one window size
    visits [(n - ws) // step + 1] offsets when a window of [ws] samples
    fits the signal of [n] samples and none otherwise, with
    [step = sr // 10]; every window it slices is whole, [ws] samples long;
    and a longer window never yields more positions than a shorter one. *)
Theorem scan_window_count (signal : list R) (size size' : Q) (sr : Z) :
  (10 <= sr)%Z -> (0 <= window_samples size sr <= window_samples size' sr)%Z ->
  let n := len signal in
  let ws := window_samples size sr in
  exists offsets,
    window_offsets n size sr = Ok offsets /\
    len offsets = window_count n ws (sr / 10) /\
    (forall i, In i offsets -> len (slice signal i (i + ws)) = ws) /\
    (len (offsets_or_nil n size' sr) <= len offsets)%Z.
Proof.
  intros Hsr Hws n ws.
  destruct (window_offsets_spec n size sr Hsr) as [E Hin].
  exists (offsets_or_nil n size sr). split; [exact E|split; [|split]].
  - now apply len_offsets.
  - intros i Hi. destruct (Hin i Hi) as [H0 Hfit].
    rewrite length_slice; fold ws in Hfit |- *; unfold n in *; lia.
  - rewrite !len_offsets by assumption. unfold window_count. fold ws.
    set (ws' := window_samples size' sr).
    assert (Hpos : (0 < sr / 10)%Z) by (apply Z.div_str_pos; lia).
    destruct (ws' <=? n)%Z eqn:E1, (ws <=? n)%Z eqn:E2; try lia.
    + apply Z.leb_le in E1. apply Z.leb_le in E2.
      assert ((n - ws') / (sr / 10) <= (n - ws) / (sr / 10))%Z
        by (apply Z.div_le_mono; lia). lia.
    + apply Z.leb_le in E2.
      assert (0 <= (n - ws) / (sr / 10))%Z by (apply Z.div_pos; lia). lia.
Qed.

Lemma scan_window_count_witness :
  let signal := repeat 0%R 40 in
  exists offsets,
    window_offsets (len signal) 1 10 = Ok offsets /\
    len offsets = window_count (len signal) (window_samples 1 10) (10 / 10) /\
    (forall i, In i offsets ->
               len (slice signal i (i + window_samples 1 10)) = window_samples 1 10) /\
    (len (offsets_or_nil (len signal) 3 10) <= len offsets)%Z.
Proof.
  intros signal.
  apply (scan_window_count signal 1 3 10); [lia|vm_compute; split; congruence].
Defined.

(** ** The feature dictionaries of a successful scan *)

Lemma grow_grow (f g : Q -> nat) (s : list (Q * nat)) :
  grow f (grow g s) = grow (fun key => (g key + f key)%nat) s.
Proof.
  unfold grow. rewrite map_map. apply map_ext. intros [k c]. cbn [fst snd].
  f_equal. lia.
Qed.

Lemma grow_ext (f g : Q -> nat) (s : list (Q * nat)) :
  (forall key, f key = g key) -> grow f s = grow g s.
Proof.
  intros H. unfold grow. apply map_ext. intros [k c]. cbn [fst snd]. now rewrite H.
Qed.

Lemma grow_zero (s : list (Q * nat)) : grow (fun _ => 0%nat) s = s.
Proof.
  unfold grow. rewrite <- (map_id s) at 2. apply map_ext. intros [k c].
  cbn [fst snd]. f_equal. lia.
Qed.

Lemma grow_nothing (f : Q -> nat) (s : list (Q * nat)) :
  (forall key, f key = 0%nat) -> grow f s = s.
Proof.
  intros H. rewrite (grow_ext f (fun _ => 0%nat)) by exact H. apply grow_zero.
Qed.

Lemma shape_dict_append (d : dict) (k : Q) (v : float64) :
  shape (dict_append d k v)
  = grow (fun key => if Qeq_bool k key then 1%nat else 0%nat) (shape d).
Proof.
  unfold shape, dict_append, grow. rewrite !map_map. apply map_ext.
  intros [key l]. cbn [fst snd]. destruct (Qeq_bool k key); cbn [fst snd].
  - rewrite length_app. reflexivity.
  - f_equal. lia.
Qed.

Section Shapes.

Variable fb : list xfloat -> list xfloat -> result (float64 * float64).

Lemma analyze_window_shape signal sr k_max window_sizes size i res res' :
  analyze_window fb signal sr k_max window_sizes size i res = Ok res' ->
  let one key := if Qeq_bool size key then 1%nat else 0%nat in
  shape (r_hfd res') = grow one (shape (r_hfd res)) /\
  shape (r_dfa res') = grow one (shape (r_dfa res)).
Proof.
  unfold analyze_window.
  destruct (vectorized_higuchi_fd fb _ k_max) as [h|e]; [|discriminate].
  destruct (vectorized_dfa fb _ default_scale_lim) as [d|e]; [|discriminate].
  cbn [bind]. intros [= <-]. cbn [r_hfd r_dfa].
  split; apply shape_dict_append.
Qed.

Lemma analyze_windows_shape signal sr k_max window_sizes size offsets res res' :
  for_each offsets (analyze_window fb signal sr k_max window_sizes size) res = Ok res' ->
  let many key := if Qeq_bool size key then length offsets else 0%nat in
  shape (r_hfd res') = grow many (shape (r_hfd res)) /\
  shape (r_dfa res') = grow many (shape (r_dfa res)).
Proof.
  revert res. induction offsets as [|i offsets IH]; intros res H; cbn zeta.
  - cbn [for_each] in H. injection H as <-.
    split; symmetry; apply grow_nothing; intros key;
      now destruct (Qeq_bool size key).
  - cbn [for_each] in H.
    destruct (analyze_window fb signal sr k_max window_sizes size i res)
      as [res1|e] eqn:E1; [|discriminate].
    cbn [bind] in H. destruct (IH res1 H) as [Hh Hd].
    destruct (analyze_window_shape _ _ _ _ _ _ _ _ E1) as [Hh1 Hd1].
    rewrite Hh, Hd, Hh1, Hd1, !grow_grow.
    split; apply grow_ext; intros key; cbn [length];
      now destruct (Qeq_bool size key).
Qed.

Lemma analyze_sizes_shape signal sr k_max window_sizes sizes res res' :
  for_each sizes (analyze_size fb signal sr k_max window_sizes) res = Ok res' ->
  let scanned key := length (windows_for (len signal) sr sizes key) in
  shape (r_hfd res') = grow scanned (shape (r_hfd res)) /\
  shape (r_dfa res') = grow scanned (shape (r_dfa res)).
Proof.
  revert res. induction sizes as [|size sizes IH]; intros res H; cbn zeta.
  - cbn [for_each] in H. injection H as <-.
    unfold windows_for. cbn [flat_map length]. now rewrite !grow_zero.
  - cbn [for_each] in H.
    destruct (analyze_size fb signal sr k_max window_sizes size res)
      as [res1|e] eqn:E1; [|discriminate].
    cbn [bind] in H. destruct (IH res1 H) as [Hh Hd].
    unfold analyze_size in E1.
    destruct (window_offsets (len signal) size sr) as [offsets|e] eqn:Eo;
      [|discriminate].
    cbn [bind] in E1.
    destruct (analyze_windows_shape _ _ _ _ _ _ _ _ E1) as [Hh1 Hd1].
    rewrite Hh, Hd, Hh1, Hd1, !grow_grow.
    split; apply grow_ext; intros key; unfold windows_for; cbn [flat_map];
      rewrite length_app; unfold offsets_or_nil; rewrite Eo;
      now destruct (Qeq_bool size key).
Qed.

End Shapes.

Lemma shape_dict_fresh (keys : list Q) (d : dict) :
  (forall kv, In kv d -> snd kv = []) ->
  shape (dict_fresh keys d)
  = map (fun key => (key, 0%nat)) (dict_keys (dict_fresh keys d)).
Proof.
  revert d. induction keys as [|k keys IH]; intros d Hd.
  - cbn [dict_fresh]. unfold shape, dict_keys. rewrite map_map.
    apply map_ext_in. intros kv Hkv. now rewrite (Hd kv Hkv).
  - cbn [dict_fresh]. apply IH. destruct (dict_mem k d); [exact Hd|].
    intros kv Hkv. apply in_app_or in Hkv as [Hkv|[<-|[]]]; [now apply Hd|reflexivity].
Qed.

Lemma time_of_windows (sr n : Z) (first : Q -> bool) (s0 : Q) (sizes : list Q) :
  (forall size, first size = Qeq_bool size s0) ->
  flat_map (fun size => if first size
                        then map (time_of sr) (offsets_or_nil n size sr)
                        else []) sizes
  = map (time_of sr)
        (flat_map (fun size => if Qeq_bool size s0
                               then offsets_or_nil n size sr else []) sizes).
Proof.
  intros Hfirst. induction sizes as [|size sizes IH]; [reflexivity|].
  cbn [flat_map]. rewrite map_app, IH, Hfirst.
  now destruct (Qeq_bool size s0).
Qed.

Section ScanShape.

Variable fb : list xfloat -> list xfloat -> result (float64 * float64).

Lemma analyze_audio_shape signal sr k_max window_sizes res sr' :
  analyze_audio fb signal sr k_max window_sizes = Ok (res, sr') ->
  let scanned key := (key, length (windows_for (len signal) sr window_sizes key)) in
  shape (r_hfd res) = map scanned (dict_keys (dict_fresh window_sizes [])) /\
  shape (r_dfa res) = map scanned (dict_keys (dict_fresh window_sizes [])).
Proof.
  intros Hrun scanned. unfold analyze_audio in Hrun.
  destruct (for_each window_sizes _ _) as [res1|e] eqn:E; [|discriminate].
  cbn [bind] in Hrun. injection Hrun as <- <-.
  destruct (analyze_sizes_shape fb _ _ _ _ _ _ _ E) as [Hh Hd].
  cbn [r_hfd r_dfa] in Hh, Hd.
  rewrite shape_dict_fresh in Hh, Hd by (intros kv []).
  assert (Hgrow : forall f keys,
             grow f (map (fun key => (key, 0%nat)) keys)
             = map (fun key => (key, f key)) keys).
  { intros f keys. unfold grow. rewrite map_map. apply map_ext. reflexivity. }
  rewrite Hgrow in Hh, Hd. now split.
Qed.

Lemma analyze_audio_time_axis signal sr k_max s0 rest res sr' :
  analyze_audio fb signal sr k_max (s0 :: rest) = Ok (res, sr') ->
  r_time res = map (time_of sr) (windows_for (len signal) sr (s0 :: rest) s0).
Proof.
  intros Hrun.
  destruct (analyze_audio_time fb signal sr k_max (s0 :: rest) res sr' Hrun)
    as [_ Htime].
  rewrite Htime. unfold windows_for.
  apply (time_of_windows sr (len signal) _ s0 (s0 :: rest)).
  intros size. reflexivity.
Qed.

End ScanShape.

(** X2: in a successful scan the HFD and DFA dictionaries have the same
    keys in the same order (the configured sizes, repeated ones once) and,
    key by key, series of the same length: one value for every window
    scanned under that key.  The time axis holds the time stamps of the
    windows scanned under the first size, so it is as long as that size's
    series. *)
Theorem analyze_audio_series_aligned
    (fb : list xfloat -> list xfloat -> result (float64 * float64))
    (signal : list R) (sr k_max : Z) (window_sizes : list Q)
    (res : results) (sr' : Z) :
  analyze_audio fb signal sr k_max window_sizes = Ok (res, sr') ->
  let n := len signal in
  shape (r_hfd res)
  = map (fun key => (key, length (windows_for n sr window_sizes key)))
        (dict_keys (dict_fresh window_sizes [])) /\
  shape (r_dfa res) = shape (r_hfd res) /\
  (forall s0 rest, window_sizes = s0 :: rest ->
     r_time res = map (time_of sr) (windows_for n sr window_sizes s0)).
Proof.
  intros Hrun n.
  destruct (analyze_audio_shape fb _ _ _ _ _ _ Hrun) as [Hh Hd].
  split; [exact Hh|split; [now rewrite Hh, Hd|]].
  intros s0 rest Hsizes. subst window_sizes.
  exact (analyze_audio_time_axis fb _ _ _ _ _ _ _ Hrun).
Qed.

Lemma analyze_audio_series_aligned_witness :
  let signal := repeat 0%R 100 in
  exists res,
    analyze_audio lstsq_nan signal 24 10 [1; 3] = Ok (res, 24%Z) /\
    shape (r_hfd res)
    = map (fun key => (key, length (windows_for (len signal) 24 [1; 3] key)))
          (dict_keys (dict_fresh [1; 3] [])) /\
    shape (r_dfa res) = shape (r_hfd res) /\
    (forall s0 rest, [1; 3] = s0 :: rest ->
       r_time res = map (time_of 24) (windows_for (len signal) 24 [1; 3] s0)).
Proof.
  intros signal.
  pose proof (analyze_audio_constant 0%R 100 24 10 ltac:(lia) ltac:(lia)) as Hrun.
  cbv zeta in Hrun. eexists. split; [exact Hrun|].
  exact (analyze_audio_series_aligned lstsq_nan signal 24 10 [1; 3] _ _ Hrun).
Defined.

(** ** Configurations on which the scan cannot succeed *)

Lemma step_samples_low (sr : Z) : (0 <= sr < 10)%Z -> step_samples sr = 0%Z.
Proof.
  intros H. rewrite step_samples_div by lia. apply Z.div_small. lia.
Qed.

Section FailingScans.

Variable fb : list xfloat -> list xfloat -> result (float64 * float64).

Lemma analyze_audio_zero_step signal sr k_max size rest :
  (0 <= sr < 10)%Z ->
  analyze_audio fb signal sr k_max (size :: rest) = Raise ValueError.
Proof.
  intros Hsr. unfold analyze_audio. cbn [for_each].
  unfold analyze_size at 1, window_offsets, py_range.
  now rewrite step_samples_low.
Qed.

Lemma short_window_not_ok signal sr k_max window_sizes size r :
  (10 <= sr)%Z -> In size window_sizes ->
  (0 <= window_samples size sr < 24)%Z -> (window_samples size sr <= len signal)%Z ->
  analyze_audio fb signal sr k_max window_sizes <> Ok r.
Proof.
  intros Hsr Hin Hws Hfit Hrun. unfold analyze_audio in Hrun.
  destruct (for_each window_sizes _ _) as [res1|e] eqn:E; [|discriminate].
  destruct (for_each_ok_inv _ _ _ _ size E Hin) as [s1 [s2 Hsize]].
  unfold analyze_size in Hsize.
  destruct (window_offsets (len signal) size sr) as [offsets|e] eqn:Eo;
    [|discriminate].
  cbn [bind] in Hsize.
  assert (H0 : In 0%Z offsets).
  { unfold window_offsets in Eo. rewrite step_samples_div in Eo by lia.
    assert (Hpos : (0 < sr / 10)%Z) by (apply Z.div_str_pos; lia).
    apply (In_py_range _ _ _ _ 0%Z Hpos Eo). exists 0%Z. lia. }
  destruct (for_each_ok_inv _ _ _ _ 0%Z Hsize H0) as [s3 [s4 Hwin]].
  unfold analyze_window in Hwin.
  destruct (vectorized_higuchi_fd fb _ k_max) as [h|e]; [|discriminate].
  cbn [bind] in Hwin. unfold default_scale_lim in Hwin.
  rewrite dfa_no_scale in Hwin; [discriminate|].
  rewrite length_slice by lia.
  replace (0 + window_samples size sr - 0)%Z with (window_samples size sr) by lia.
  assert (window_samples size sr / 4 <= 5)%Z
    by (apply Z.lt_succ_r, Z.div_lt_upper_bound; lia).
  lia.
Qed.

End FailingScans.

(** X3: below 10 Hz the step [int(0.1 * sr)] is zero: with at least one
    window size configured the scan raises the [ValueError] of [range]
    before any window is analysed, whatever the signal; with no window
    size it returns empty results. *)
Theorem analyze_audio_low_sample_rate
    (fb : list xfloat -> list xfloat -> result (float64 * float64))
    (signal : list R) (sr k_max : Z) (window_sizes : list Q) :
  (0 <= sr < 10)%Z ->
  analyze_audio fb signal sr k_max window_sizes
  = match window_sizes with
    | [] => Ok (mk_results [] [] [], sr)
    | _ :: _ => Raise ValueError
    end.
Proof.
  intros Hsr. destruct window_sizes as [|size rest].
  - reflexivity.
  - now apply analyze_audio_zero_step.
Qed.

Lemma analyze_audio_low_sample_rate_witness :
  analyze_audio lstsq_nan (repeat 0%R 100) 8 10 [1; 3] = Raise ValueError.
Proof.
  apply (analyze_audio_low_sample_rate lstsq_nan (repeat 0%R 100) 8 10 [1; 3]). lia.
Defined.

(** X4: a configured window of fewer than 24 samples that fits the signal
    makes the scan raise: [vectorized_dfa] is called with its default scale
    limits [[5, 100]] and has no scale to fit on such a window.  With
    one-second windows this rules out sample rates below 24 Hz. *)
Theorem analyze_audio_short_window
    (fb : list xfloat -> list xfloat -> result (float64 * float64))
    (signal : list R) (sr k_max : Z) (window_sizes : list Q) (size : Q) :
  (10 <= sr)%Z -> In size window_sizes ->
  (0 <= window_samples size sr < 24)%Z -> (window_samples size sr <= len signal)%Z ->
  exists e, analyze_audio fb signal sr k_max window_sizes = Raise e.
Proof.
  intros Hsr Hin Hws Hfit.
  destruct (analyze_audio fb signal sr k_max window_sizes) as [r|e] eqn:E.
  - exfalso. exact (short_window_not_ok fb _ _ _ _ _ r Hsr Hin Hws Hfit E).
  - now exists e.
Qed.

Lemma analyze_audio_short_window_witness :
  exists e, analyze_audio lstsq_nan (repeat 0%R 100) 20 10 [1; 3] = Raise e.
Proof.
  apply (analyze_audio_short_window lstsq_nan (repeat 0%R 100) 20 10 [1; 3] 1).
  - lia.
  - now left.
  - vm_compute. split; [congruence|reflexivity].
  - vm_compute. congruence.
Defined.

(** ** The shortest recording the default run accepts *)

Lemma classify_voice_len res h d cls m :
  classify_voice res h d = Ok cls -> min_length_hfd res = Ok m -> len cls = m.
Proof.
  intros Hcls Hm.
  assert (Hge : (5 <= m)%Z).
  { apply (classify_voice_returns_iff res h d m Hm). now exists cls. }
  unfold classify_voice in Hcls. rewrite Hm in Hcls. cbn [bind] in Hcls.
  destruct (index _ (-1)) as [final|e]; [|discriminate].
  cbn [bind] in Hcls. injection Hcls as <-.
  rewrite len_app. unfold len.
  rewrite computed_decisions_length. cbn [length]. lia.
Qed.

Lemma min_length_of_shape (res : results) :
  min_length_hfd res = py_min (map (fun p => Z.of_nat (snd p)) (shape (r_hfd res))).
Proof.
  unfold min_length_hfd, shape, dict_values. now rewrite !map_map.
Qed.

Lemma windows_for_default (n sr : Z) :
  windows_for n sr [1; 3] 1 = offsets_or_nil n 1 sr /\
  windows_for n sr [1; 3] 3 = offsets_or_nil n 3 sr.
Proof.
  unfold windows_for. cbn [flat_map].
  change (Qeq_bool 1 1) with true. change (Qeq_bool 3 1) with false.
  change (Qeq_bool 1 3) with false. change (Qeq_bool 3 3) with true.
  cbn [app]. now rewrite !app_nil_r.
Qed.

Lemma window_count_ge (n ws step k : Z) :
  (0 < step)%Z -> (1 <= k)%Z ->
  (k <= window_count n ws step)%Z <-> (ws + (k - 1) * step <= n)%Z.
Proof.
  intros Hstep Hk. unfold window_count.
  destruct (ws <=? n)%Z eqn:E.
  - apply Z.leb_le in E. split; intros H.
    + assert (k - 1 <= (n - ws) / step)%Z by lia.
      assert (step * ((n - ws) / step) <= n - ws)%Z
        by (apply Z.mul_div_le; lia).
      nia.
    + assert (k - 1 <= (n - ws) / step)%Z
        by (apply Z.div_le_lower_bound; lia).
      lia.
  - apply Z.leb_gt in E. split; intros H; [lia|nia].
Qed.

Lemma retroactive_analysis_three res cls segs :
  retroactive_analysis res cls = Ok segs -> length segs = 3%nat.
Proof.
  unfold retroactive_analysis.
  destruct (common_length res cls) as [m|e]; [|discriminate]. cbn [bind].
  destruct (index (r_time res) (m - 1)) as [total|e]; [|discriminate].
  cbn [bind]. intros [= <-]. reflexivity.
Qed.

Section DefaultRun.

Variable fb : list xfloat -> list xfloat -> result (float64 * float64).

(** What the default scan hands to the later stages. *)
Lemma default_scan_lengths signal sr res sr' :
  (10 <= sr)%Z ->
  analyze_audio fb signal sr 10 [1; 3] = Ok (res, sr') ->
  let n := len signal in
  let step := (sr / 10)%Z in
  len (r_time res) = window_count n sr step /\
  shape (r_hfd res)
  = [(1, Z.to_nat (window_count n sr step));
     (3, Z.to_nat (window_count n (3 * sr) step))] /\
  shape (r_dfa res) = shape (r_hfd res) /\
  min_length_hfd res = Ok (window_count n (3 * sr) step).
Proof.
  intros Hsr Hrun n step.
  destruct (analyze_audio_shape fb _ _ _ _ _ _ Hrun) as [Hh Hd].
  pose proof (analyze_audio_time_axis fb _ _ _ _ _ _ _ Hrun) as Ht.
  change (dict_keys (dict_fresh [1; 3] [])) with [1; 3] in Hh, Hd.
  cbn [map] in Hh, Hd.
  destruct (windows_for_default (len signal) sr) as [W1 W3].
  rewrite W1 in Ht. rewrite W1, W3 in Hh, Hd.
  pose proof (len_offsets (len signal) 1 sr Hsr) as L1.
  pose proof (len_offsets (len signal) 3 sr Hsr) as L3.
  rewrite (window_samples_whole 1) in L1. rewrite (window_samples_whole 3) in L3.
  replace (1 * sr)%Z with sr in L1 by lia.
  fold n step in L1, L3. unfold len in L1, L3.
  fold n in Hh, Hd, Ht.
  assert (S1 : length (offsets_or_nil n 1 sr)
               = Z.to_nat (window_count n sr step)) by lia.
  assert (S3 : length (offsets_or_nil n 3 sr)
               = Z.to_nat (window_count n (3 * sr) step)) by lia.
  rewrite S1, S3 in Hh, Hd.
  assert (Hpos : (0 < step)%Z) by (apply Z.div_str_pos; lia).
  assert (Hmono : (window_count n (3 * sr) step <= window_count n sr step)%Z).
  { unfold window_count.
    destruct (3 * sr <=? n)%Z eqn:E3, (sr <=? n)%Z eqn:E1; try lia.
    - apply Z.leb_le in E3. apply Z.leb_le in E1.
      assert ((n - 3 * sr) / step <= (n - sr) / step)%Z
        by (apply Z.div_le_mono; lia). lia.
    - apply Z.leb_le in E1.
      assert (0 <= (n - sr) / step)%Z by (apply Z.div_pos; lia). lia. }
  split; [|split; [exact Hh|split; [now rewrite Hh, Hd|]]].
  - rewrite Ht, len_map. unfold len. lia.
  - rewrite min_length_of_shape, Hh. cbn [map snd py_min fold_left].
    f_equal. lia.
Qed.

End DefaultRun.

(** X5: the default run (window sizes 1 s and 3 s, step [sr // 10],
    rolling window of five steps) returns only for a sample rate of at
    least 24 Hz and a recording that holds five successive three-second
    windows, [3 * sr + 4 * (sr // 10)] samples.  What it then returns has
    one time stamp per one-second window, one classification per
    three-second window and three segment summaries. *)
Theorem pipeline_minimum_recording
    (fb : list xfloat -> list xfloat -> result (float64 * float64))
    (signal : list R) (sr : Z) (out : outputs) :
  (0 <= sr)%Z -> pipeline fb signal sr = Ok out ->
  let n := len signal in
  let step := (sr / 10)%Z in
  (24 <= sr)%Z /\ (3 * sr + 4 * step <= n)%Z /\
  len (r_time (out_results out)) = ((n - sr) / step + 1)%Z /\
  len (out_classifications out) = ((n - 3 * sr) / step + 1)%Z /\
  length (out_segments out) = 3%nat.
Proof.
  intros Hsr Hrun n step. unfold pipeline in Hrun.
  destruct (analyze_audio fb signal sr 10 [1; 3]) as [[res sr']|e] eqn:Ea;
    [|discriminate].
  cbn [bind] in Hrun.
  destruct (adaptive_threshold res) as [[h d]|e]; [|discriminate].
  cbn [bind] in Hrun.
  destruct (classify_voice res h d) as [cls|e] eqn:Ec; [|discriminate].
  cbn [bind] in Hrun.
  destruct (retroactive_analysis res cls) as [segs|e] eqn:Er; [|discriminate].
  cbn [bind] in Hrun. injection Hrun as <-.
  cbn [out_results out_classifications out_segments].
  assert (H10 : (10 <= sr)%Z).
  { destruct (Z_lt_le_dec sr 10) as [Hlt|Hge]; [|exact Hge].
    rewrite analyze_audio_zero_step in Ea by lia. discriminate. }
  destruct (default_scan_lengths fb signal sr res sr' H10 Ea)
    as [Ht [_ [_ Hm]]].
  fold n step in Ht, Hm.
  assert (Hpos : (0 < step)%Z) by (apply Z.div_str_pos; lia).
  assert (H5 : (5 <= window_count n (3 * sr) step)%Z).
  { apply (classify_voice_returns_iff res h d _ Hm). now exists cls. }
  assert (Hfit : (3 * sr + 4 * step <= n)%Z).
  { apply (window_count_ge n (3 * sr) step 5) in H5; lia. }
  assert (H24 : (24 <= sr)%Z).
  { destruct (Z_lt_le_dec sr 24) as [Hlt|Hge]; [|exact Hge].
    exfalso. apply (short_window_not_ok fb signal sr 10 [1; 3] 1 (res, sr')).
    - exact H10.
    - now left.
    - rewrite (window_samples_whole 1). lia.
    - rewrite (window_samples_whole 1). fold n. lia.
    - exact Ea. }
  split; [exact H24|split; [exact Hfit|split; [|split]]].
  - rewrite Ht. unfold window_count.
    destruct (sr <=? n)%Z eqn:E; [reflexivity|apply Z.leb_gt in E; lia].
  - rewrite (classify_voice_len res h d cls _ Ec Hm). unfold window_count.
    destruct (3 * sr <=? n)%Z eqn:E; [reflexivity|apply Z.leb_gt in E; lia].
  - exact (retroactive_analysis_three res cls segs Er).
Qed.

Lemma pipeline_minimum_recording_witness :
  let signal := constant_recording 0 in
  exists out,
    pipeline lstsq_nan signal 16000 = Ok out /\
    (24 <= 16000)%Z /\ (3 * 16000 + 4 * (16000 / 10) <= len signal)%Z /\
    len (r_time (out_results out)) = ((len signal - 16000) / (16000 / 10) + 1)%Z /\
    len (out_classifications out)
    = ((len signal - 3 * 16000) / (16000 / 10) + 1)%Z /\
    length (out_segments out) = 3%nat.
Proof.
  intros signal.
  destruct (constant_recording_is_classified 0%R []) as [out [Hrun _]].
  exists out. split; [exact Hrun|].
  apply (pipeline_minimum_recording lstsq_nan signal 16000 out); [lia|exact Hrun].
Defined.

(** ** How the estimators respond to offset and gain

    Samples are real numbers here, so the statements are about the
    estimators in exact arithmetic. *)

Lemma sample_map (f : R -> R) (ts : list R) (i : Z) :
  (0 <= i < len ts)%Z -> sample (map f ts) i = f (sample ts i).
Proof.
  intros Hi. unfold sample.
  rewrite (nth_indep _ 0%R (f 0%R)) by (rewrite length_map; unfold len in Hi; lia).
  apply map_nth.
Qed.

Lemma Lmk_affine (a c : R) (ts : list R) (k_max k m : Z) :
  In k (k_range (len ts) k_max) -> In m (range k) ->
  Lmk (map (fun x => a * x + c)%R ts) k m = (Rabs a * Lmk ts k m)%R.
Proof.
  intros Hk Hm. unfold Lmk. rewrite len_map. cbv zeta.
  set (idx := arange 1 ((len ts - m) / k)).
  assert (E : map (fun i => Rabs (sample (map (fun x => a * x + c)%R ts) (m + i * k)
                                  - sample (map (fun x => a * x + c)%R ts)
                                           (m + (i - 1) * k))) idx
              = map (Rmult (Rabs a))
                    (map (fun i => Rabs (sample ts (m + i * k)
                                         - sample ts (m + (i - 1) * k))) idx)).
  { rewrite map_map. apply map_ext_in. intros i Hi.
    destruct (Lmk_indices_in_range _ _ _ _ _ Hk Hm Hi) as [Hlo [Hhi _]].
    assert (0 < k)%Z by (apply In_k_range in Hk; lia).
    rewrite !sample_map by nia.
    rewrite <- Rabs_mult. f_equal. ring. }
  rewrite E, Rsum_scale. unfold Rdiv. ring.
Qed.

Lemma Lk_affine (a c : R) (ts : list R) (k_max k : Z) :
  In k (k_range (len ts) k_max) ->
  Lk (map (fun x => a * x + c)%R ts) k = (Rabs a * Lk ts k)%R.
Proof.
  intros Hk. unfold Lk. rewrite <- Rmean_scale, map_map. f_equal.
  apply map_ext_in. intros m Hm. now apply (Lmk_affine a c ts k_max).
Qed.

Lemma Rsum_shift (d : R) (l : list R) :
  Rsum (map (Rplus d) l) = (IZR (len l) * d + Rsum l)%R.
Proof.
  induction l as [|x l IH].
  - unfold len. simpl. lra.
  - rewrite IZR_len_cons. cbn [map]. unfold Rsum in *. cbn [fold_right].
    rewrite IH. lra.
Qed.

Lemma dot_shift (d : R) (xs ys : list R) :
  length xs = length ys ->
  dot xs (map (Rplus d) ys) = (d * Rsum xs + dot xs ys)%R.
Proof.
  revert ys. induction xs as [|x xs IH]; intros [|y ys] Hlen; try discriminate.
  - unfold dot. simpl. lra.
  - injection Hlen as Hlen. cbn [map]. rewrite !dot_cons, IH by assumption.
    unfold Rsum. cbn [fold_right]. lra.
Qed.

(** The least-squares slope does not see a constant added to the
    ordinates. *)
Lemma ols_slope_shift (d : R) (xs ys : list R) :
  length xs = length ys ->
  ols_slope xs (map (Rplus d) ys) = ols_slope xs ys.
Proof.
  intros Hlen. unfold ols_slope. rewrite dot_shift, Rsum_shift by assumption.
  f_equal. unfold len. rewrite <- Hlen. ring.
Qed.

(** X6: [vectorized_higuchi_fd] does not see a constant offset of the
    signal: the curve lengths are built from differences of samples that
    all lie inside the series, so the fitted data are the same, whatever
    the series, [k_max] and the least-squares driver. *)
Theorem higuchi_offset_invariant
    (fb : list xfloat -> list xfloat -> result (float64 * float64))
    (ts : list R) (c : R) (k_max : Z) :
  vectorized_higuchi_fd fb (map (fun x => x + c)%R ts) k_max
  = vectorized_higuchi_fd fb ts k_max.
Proof.
  unfold vectorized_higuchi_fd. rewrite len_map. cbv zeta.
  assert (E : map (fun k => np_log (Num (Lk (map (fun x => x + c)%R ts) k)))
                  (k_range (len ts) k_max)
              = map (fun k => np_log (Num (Lk ts k))) (k_range (len ts) k_max)).
  { apply map_ext_in. intros k Hk. do 2 f_equal.
    rewrite (map_ext (fun x => x + c)%R (fun x => 1 * x + c)%R)
      by (intros x; ring).
    rewrite (Lk_affine 1 c ts k_max k Hk), Rabs_R1. ring. }
  now rewrite E.
Qed.

Lemma Rmean_offset (c : R) (ts : list R) :
  ts <> [] -> Rmean (map (fun x => x + c)%R ts) = (Rmean ts + c)%R.
Proof.
  intros Hne. unfold Rmean. rewrite len_map.
  rewrite (map_ext (fun x => x + c)%R (Rplus c)) by (intros x; ring).
  rewrite Rsum_shift.
  assert (IZR (len ts) <> 0)%R.
  { apply not_0_IZR. destruct ts; [contradiction|]. unfold len. simpl length. lia. }
  field. assumption.
Qed.

(** X7: [vectorized_dfa] does not see a constant offset either: the mean
    is removed before the signal is integrated, so the profile, and with
    it every fluctuation, is the same. *)
Theorem dfa_offset_invariant
    (fb : list xfloat -> list xfloat -> result (float64 * float64))
    (ts : list R) (c : R) (scale_lim : Z * Z) :
  profile (map (fun x => x + c)%R ts) = profile ts /\
  vectorized_dfa fb (map (fun x => x + c)%R ts) scale_lim
  = vectorized_dfa fb ts scale_lim.
Proof.
  assert (E : cumsum (map (fun x => x - Rmean (map (fun x => x + c) ts))
                          (map (fun x => x + c) ts))%R
              = cumsum (map (fun x => x - Rmean ts)%R ts)).
  { destruct ts as [|x0 ts']; [reflexivity|].
    rewrite Rmean_offset by discriminate.
    rewrite map_map. f_equal. apply map_ext. intros x. ring. }
  split; [exact E|].
  unfold vectorized_dfa. rewrite len_map. cbv zeta. now rewrite E.
Qed.

(** X8: in the regular case (at least four samples, [k_max >= 2], every
    curve length positive) [vectorized_higuchi_fd] does not see the gain
    of the signal: a factor [a <> 0] multiplies every curve length by
    [|a|], which shifts the fitted ordinates by [ln |a|] and leaves the
    slope as it is. *)
Theorem higuchi_gain_invariant
    (fb : list xfloat -> list xfloat -> result (float64 * float64))
    (ts : list R) (a : R) (k_max : Z) :
  a <> 0%R -> (4 <= len ts)%Z -> (2 <= k_max)%Z ->
  (forall k, In k (k_range (len ts) k_max) -> (0 < Lk ts k)%R) ->
  (forall k, In k (k_range (len ts) k_max) ->
             Lk (map (Rmult a) ts) k = (Rabs a * Lk ts k)%R) /\
  vectorized_higuchi_fd fb (map (Rmult a) ts) k_max
  = vectorized_higuchi_fd fb ts k_max.
Proof.
  intros Ha HN Hk Hpos.
  assert (Habs : (0 < Rabs a)%R) by now apply Rabs_pos_lt.
  assert (Hscaled : forall k, In k (k_range (len ts) k_max) ->
                              Lk (map (Rmult a) ts) k = (Rabs a * Lk ts k)%R).
  { intros k Hin.
    rewrite (map_ext (Rmult a) (fun x => a * x + 0)%R) by (intros x; ring).
    now apply (Lk_affine a 0 ts k_max). }
  split; [exact Hscaled|].
  rewrite (higuchi_regular fb ts k_max HN Hk Hpos).
  rewrite higuchi_regular; rewrite ?len_map; try assumption.
  - cbv zeta. do 2 f_equal.
    assert (E : log_curve_lengths (map (Rmult a) ts) (k_range (len ts) k_max)
                = map (Rplus (ln (Rabs a)))
                      (log_curve_lengths ts (k_range (len ts) k_max))).
    { unfold log_curve_lengths. rewrite map_map. apply map_ext_in.
      intros k Hin. rewrite (Hscaled k Hin).
      apply ln_mult; [assumption|now apply Hpos]. }
    rewrite E. apply ols_slope_shift.
    unfold log_inverse_scales, log_curve_lengths. now rewrite !length_map.
  - intros k Hin. rewrite (Hscaled k Hin).
    apply Rmult_lt_0_compat; [assumption|now apply Hpos].
Qed.

Lemma higuchi_gain_invariant_witness :
  (forall k, In k (k_range (len four_samples) 10) ->
             Lk (map (Rmult (-2)) four_samples) k
             = (Rabs (-2) * Lk four_samples k)%R) /\
  vectorized_higuchi_fd lstsq_nan (map (Rmult (-2)) four_samples) 10
  = vectorized_higuchi_fd lstsq_nan four_samples 10.
Proof.
  apply (higuchi_gain_invariant lstsq_nan four_samples (-2) 10).
  - lra.
  - vm_compute. congruence.
  - lia.
  - exact Lk_four_samples.
Defined.

(** ** What [adaptive_threshold] returns *)

Lemma Rstd_nonneg (l : list R) : (0 <= Rstd l)%R.
Proof. unfold Rstd. apply sqrt_pos. Qed.

Lemma threshold_of_degenerate (l : list float64) :
  l = [] \/ In NaN l -> threshold_of l = NaN.
Proof.
  intros [-> | H]; [reflexivity|].
  unfold threshold_of. now rewrite np_mean_NaN.
Qed.

Lemma threshold_of_above_mean (vs : list R) :
  vs <> [] ->
  exists v, threshold_of (map Num vs) = Num v /\ (Rmean vs <= v)%R.
Proof.
  intros Hne. rewrite threshold_of_Num by assumption. eexists. split; [reflexivity|].
  pose proof (Rstd_nonneg vs). lra.
Qed.

(** X9: [adaptive_threshold] raises exactly when one of the two feature
    dictionaries has no key, the [ValueError] of [np.concatenate] on an
    empty list.  Otherwise it returns a pair; a threshold is [nan] when
    its pool is empty or holds a [nan], and on a non-empty pool of finite
    values it is a number that is not below the pooled mean. *)
Theorem adaptive_threshold_cases (res : results) :
  let law (pool : list float64) (t : float64) :=
    (pool = [] \/ In NaN pool -> t = NaN) /\
    (forall vs, pool = map Num vs -> vs <> [] ->
                exists v, t = Num v /\ (Rmean vs <= v)%R) in
  match adaptive_threshold res with
  | Raise e => e = ValueError /\ (r_hfd res = [] \/ r_dfa res = [])
  | Ok (h, d) =>
      r_hfd res <> [] /\ r_dfa res <> [] /\
      law (pooled (r_hfd res)) h /\ law (pooled (r_dfa res)) d
  end.
Proof.
  intros law.
  assert (Hlaw : forall pool, law pool (threshold_of pool)).
  { intros pool. split.
    - apply threshold_of_degenerate.
    - intros vs -> Hne. now apply threshold_of_above_mean. }
  unfold adaptive_threshold, np_concatenate, pooled, dict_values.
  destruct (r_hfd res) as [|kv1 d1]; [split; [reflexivity|now left]|].
  destruct (r_dfa res) as [|kv2 d2]; [split; [reflexivity|now right]|].
  cbn [map bind]. repeat split; try discriminate; apply Hlaw.
Qed.

(** ** [nan] features and the level test *)

Lemma fgt_NaN_r (a : float64) : fgt a NaN = false.
Proof. now destruct a. Qed.

(** X10: one [nan] among the pooled HFD values, as a silent window may
    produce, makes the HFD threshold [nan]; the comparison of the rolling
    average with the threshold is then false at every time step, and a
    step is classified by the spread test [hfd_var > 0.1] alone. *)
Theorem nan_feature_disables_level_test (res : results) (h d : float64) :
  adaptive_threshold res = Ok (h, d) -> In NaN (pooled (r_hfd res)) ->
  h = NaN /\
  forall i,
    classify_at res h d i
    = fgt (np_mean (map np_std (map (fun w => slice w i (i + window_size))
                                    (dict_values (r_hfd res)))))
          (Num (1 / 10)).
Proof.
  intros Hthr Hnan.
  destruct (adaptive_threshold_pooled res h d Hthr) as [_ [_ [Hh _]]].
  assert (E : h = NaN).
  { rewrite Hh. apply threshold_of_degenerate. now right. }
  split; [exact E|].
  intros i. rewrite classify_at_hfd, E. unfold flag. cbv zeta.
  now rewrite fgt_NaN_r.
Qed.

Lemma nan_feature_disables_level_test_witness :
  exists h d,
    adaptive_threshold steps_with_nan = Ok (h, d) /\
    h = NaN /\
    forall i,
      classify_at steps_with_nan h d i
      = fgt (np_mean (map np_std (map (fun w => slice w i (i + window_size))
                                      (dict_values (r_hfd steps_with_nan)))))
            (Num (1 / 10)).
Proof.
  eexists. eexists. split; [reflexivity|].
  apply (nan_feature_disables_level_test steps_with_nan); [reflexivity|].
  right. now left.
Defined.

(** ** The classification and the HFD threshold *)

Lemma fgt_antitone (a : float64) (h h' : R) :
  (h <= h')%R -> fgt a (Num h') = true -> fgt a (Num h) = true.
Proof.
  intros Hle. destruct a as [x|]; [|discriminate]. unfold fgt.
  destruct (Rlt_dec h' x) as [H'|]; [|discriminate].
  destruct (Rlt_dec h x) as [|H]; [reflexivity|]. exfalso. lra.
Qed.

Lemma classify_at_antitone res (h h' : R) d d' i :
  (h <= h')%R ->
  classify_at res (Num h') d' i = true -> classify_at res (Num h) d i = true.
Proof.
  intros Hle. rewrite !classify_at_hfd. unfold flag. cbv zeta.
  rewrite !orb_true_iff. intros [H|H]; [left|now right].
  now apply (fgt_antitone _ h h').
Qed.

Lemma classify_voice_padded res h d cls :
  classify_voice res h d = Ok cls ->
  exists m final,
    min_length_hfd res = Ok m /\ (5 <= m)%Z /\
    index (computed_decisions res h d m) (-1) = Ok final /\
    nth_error (computed_decisions res h d m) (Z.to_nat (m - 5)) = Some final /\
    cls = computed_decisions res h d m ++ repeat final 4.
Proof.
  intros Hcls. unfold classify_voice in Hcls.
  destruct (min_length_hfd res) as [m|e] eqn:Hm; [|discriminate].
  cbn [bind] in Hcls.
  assert (Hge : (5 <= m)%Z).
  { apply (classify_voice_returns_iff res h d m Hm). exists cls.
    unfold classify_voice. now rewrite Hm. }
  destruct (index _ (-1)) as [final|e] eqn:Ei; [|discriminate].
  cbn [bind] in Hcls. injection Hcls as <-.
  exists m, final. repeat split; try assumption.
  unfold index in Ei. change (-1 <? 0)%Z with true in Ei. cbv iota in Ei.
  unfold len in Ei. rewrite computed_decisions_length in Ei.
  destruct (-1 + Z.of_nat (Z.to_nat (m - 4)) <? 0)%Z; [discriminate|].
  replace (Z.to_nat (-1 + Z.of_nat (Z.to_nat (m - 4)))) with (Z.to_nat (m - 5))
    in Ei by lia.
  destruct (nth_error _ (Z.to_nat (m - 5))) as [b|]; [|discriminate].
  now injection Ei as ->.
Qed.

(** X11: the classification is antitone in the HFD threshold and blind
    to the DFA threshold: when the classifier returns for a threshold
    [h'], it returns for every lower threshold [h], whatever the two DFA
    thresholds, with a series of the same length in which every step
    that was flagged under [h'] is still flagged. *)
Theorem classify_voice_antitone (res : results) (h h' : R) (d d' : float64)
    (cls' : list bool) :
  (h <= h')%R -> classify_voice res (Num h') d' = Ok cls' ->
  exists cls,
    classify_voice res (Num h) d = Ok cls /\
    length cls = length cls' /\
    forall i, nth i cls' false = true -> nth i cls false = true.
Proof.
  intros Hle Hcls'.
  destruct (classify_voice_padded res (Num h') d' cls' Hcls')
    as [m [final' [Hm [Hge [_ [Hlast' ->]]]]]].
  destruct (classify_voice_returns_iff res (Num h) d m Hm) as [_ Hret].
  destruct (Hret Hge) as [cls Hcls]. exists cls. split; [exact Hcls|].
  destruct (classify_voice_padded res (Num h) d cls Hcls)
    as [m0 [final [Hm0 [_ [_ [Hlast ->]]]]]].
  rewrite Hm in Hm0. injection Hm0 as <-.
  rewrite computed_decisions_nth in Hlast, Hlast' by lia.
  injection Hlast as <-. injection Hlast' as <-.
  split.
  - now rewrite !length_app, !computed_decisions_length, !repeat_length.
  - intros i.
    destruct (Nat.lt_ge_cases i (Z.to_nat (m - 4))) as [Hi|Hi].
    + rewrite !app_nth1 by (rewrite computed_decisions_length; exact Hi).
      rewrite !(nth_error_nth _ _ _ (computed_decisions_nth _ _ _ m i ltac:(lia))).
      apply classify_at_antitone. exact Hle.
    + rewrite !app_nth2 by (rewrite computed_decisions_length; exact Hi).
      rewrite !computed_decisions_length.
      destruct (Nat.lt_ge_cases (i - Z.to_nat (m - 4)) 4) as [Hj|Hj].
      * rewrite !(nth_error_nth _ _ _ (nth_error_repeat _ Hj)).
        apply classify_at_antitone. exact Hle.
      * rewrite !nth_overflow by (rewrite repeat_length; exact Hj).
        discriminate.
Qed.

Lemma classify_voice_antitone_witness :
  exists cls' cls,
    classify_voice five_steps (Num 7) NaN = Ok cls' /\
    classify_voice five_steps (Num 0) (Num 0) = Ok cls /\
    length cls = length cls' /\
    forall i, nth i cls' false = true -> nth i cls false = true.
Proof.
  destruct (classify_voice_returns_iff five_steps (Num 7) NaN 5 eq_refl)
    as [_ Hret].
  destruct (Hret ltac:(lia)) as [cls' Hcls'].
  destruct (classify_voice_antitone five_steps 0 7 (Num 0) NaN cls'
              ltac:(lra) Hcls') as [cls [Hcls H]].
  exists cls', cls. split; [exact Hcls'|split; [exact Hcls|exact H]].
Defined.

(** ** When [retroactive_analysis] returns *)

Lemma fold_left_min_le_init (l : list Z) (x : Z) : (fold_left Z.min l x <= x)%Z.
Proof.
  revert x. induction l as [|y l IH]; intros x; cbn [fold_left]; [lia|].
  specialize (IH (Z.min x y)). lia.
Qed.

Lemma fold_left_min_le_in (l : list Z) (x y : Z) :
  In y l -> (fold_left Z.min l x <= y)%Z.
Proof.
  revert x. induction l as [|z l IH]; intros x Hin; [contradiction|].
  cbn [fold_left]. destruct Hin as [->|Hin].
  - pose proof (fold_left_min_le_init l (Z.min x y)). lia.
  - now apply IH.
Qed.

Lemma fold_left_min_lower (l : list Z) (x lo : Z) :
  (lo <= x)%Z -> (forall y, In y l -> (lo <= y)%Z) ->
  (lo <= fold_left Z.min l x)%Z.
Proof.
  revert x. induction l as [|z l IH]; intros x Hx Hl; cbn [fold_left]; [exact Hx|].
  apply IH.
  - specialize (Hl z (or_introl eq_refl)). lia.
  - intros y Hy. apply Hl. now right.
Qed.

(** The common length is a length: never negative, and bounded by the
    time axis and by the classification series. *)
Lemma common_length_bounds (res : results) (cls : list bool) :
  exists m, common_length res cls = Ok m /\
            (0 <= m <= len (r_time res))%Z /\ (m <= len cls)%Z.
Proof.
  unfold common_length. cbn [app py_min]. eexists. split; [reflexivity|].
  repeat split.
  - apply fold_left_min_lower; [apply len_nonneg|].
    intros y [<-|Hy]; [apply len_nonneg|].
    apply in_app_or in Hy as [Hy|Hy]; apply in_map_iff in Hy as [w [<- _]];
      apply len_nonneg.
  - apply fold_left_min_le_init.
  - apply fold_left_min_le_in. now left.
Qed.

Lemma index_in_range {A : Type} (l : list A) (i : Z) :
  (0 <= i < len l)%Z -> exists x, index l i = Ok x.
Proof.
  intros Hi. unfold len in Hi.
  destruct (nth_error l (Z.to_nat i)) as [x|] eqn:E.
  - exists x. apply index_nonneg; [lia|exact E].
  - apply nth_error_None in E. lia.
Qed.

(** X12: [retroactive_analysis] raises only on an empty time axis, the
    [IndexError] of [results['time'][-1]].  On any other input it
    returns three summaries over the segments of a total duration read
    from the time axis at the last common index; when the common length
    is zero the index [-1] wraps around and the last time stamp of all is
    taken. *)
Theorem retroactive_analysis_cases (res : results) (cls : list bool) :
  match retroactive_analysis res cls with
  | Raise e => e = IndexError /\ r_time res = []
  | Ok segs =>
      r_time res <> [] /\ length segs = 3%nat /\
      exists m total,
        common_length res cls = Ok m /\
        (0 <= m <= len (r_time res))%Z /\ (m <= len cls)%Z /\
        index (r_time res) (if (m =? 0)%Z then len (r_time res) - 1 else m - 1)
        = Ok total /\
        segs = map (segment_summary res cls m) (segments total)
  end.
Proof.
  destruct (common_length_bounds res cls) as [m [Hm [Hbound Hcls]]].
  unfold retroactive_analysis. rewrite Hm. cbn [bind].
  destruct (r_time res) as [|t0 times] eqn:Et.
  - rewrite index_nil. cbn [bind]. now split.
  - rewrite <- Et in *.
    assert (Hlen : (1 <= len (r_time res))%Z)
      by (rewrite Et; unfold len; cbn [length]; lia).
    assert (Hidx : index (r_time res) (m - 1)
                   = index (r_time res)
                           (if (m =? 0)%Z then len (r_time res) - 1 else m - 1)).
    { destruct (m =? 0)%Z eqn:E0; [|reflexivity]. apply Z.eqb_eq in E0. subst m.
      unfold index. change (0 - 1 <? 0)%Z with true. cbv iota.
      replace (0 - 1 + len (r_time res))%Z with (len (r_time res) - 1)%Z by lia.
      destruct (len (r_time res) - 1 <? 0)%Z eqn:E; [apply Z.ltb_lt in E; lia|].
      now rewrite E. }
    destruct (index_in_range (r_time res)
                (if (m =? 0)%Z then len (r_time res) - 1 else m - 1))
      as [total Htotal].
    { destruct (m =? 0)%Z eqn:E0; [lia|apply Z.eqb_neq in E0; lia]. }
    rewrite Hidx, Htotal. cbn [bind].
    split; [rewrite Et; discriminate|split; [reflexivity|]].
    exists m, total. repeat split; try assumption; lia.
Qed.

(** ** The segments of a default run *)

Lemma offsets_explicit (n : Z) (size : Q) (sr : Z) :
  (10 <= sr)%Z ->
  offsets_or_nil n size sr
  = map (fun j => j * (sr / 10))%Z
        (range (window_count n (window_samples size sr) (sr / 10))).
Proof.
  intros Hsr.
  pose proof (len_offsets n size sr Hsr) as Hlen.
  unfold offsets_or_nil, window_offsets, py_range in *.
  rewrite step_samples_div in * by lia.
  assert (Hpos : (0 < sr / 10)%Z) by (apply Z.div_str_pos; lia).
  destruct (sr / 10 =? 0)%Z eqn:E0; [apply Z.eqb_eq in E0; lia|].
  unfold len in Hlen. rewrite length_map, length_seq in Hlen.
  unfold range, arange. rewrite map_map, Z.sub_0_r, <- Hlen, Nat2Z.id.
  apply map_ext. intros j. lia.
Qed.

Lemma lens_of_shape (d : dict) :
  map (fun w : list float64 => len w) (dict_values d)
  = map (fun p => Z.of_nat (snd p)) (shape d).
Proof. unfold dict_values, shape. now rewrite !map_map. Qed.

(** X13: in a default run that returns, the retroactive analysis works
    on the first [m] time steps, [m] being the number of three-second
    windows, and takes as total duration the start time of the last
    three-second window, [(m - 1) * step / sr]: its three segments end
    at least three seconds before the end of the recording. *)
Theorem pipeline_segments_span
    (fb : list xfloat -> list xfloat -> result (float64 * float64))
    (signal : list R) (sr : Z) (out : outputs) :
  (0 <= sr)%Z -> pipeline fb signal sr = Ok out ->
  let n := len signal in
  let step := (sr / 10)%Z in
  let m := ((n - 3 * sr) / step + 1)%Z in
  let total := time_of sr ((m - 1) * step) in
  common_length (out_results out) (out_classifications out) = Ok m /\
  index (r_time (out_results out)) (m - 1) = Ok total /\
  out_segments out
  = map (segment_summary (out_results out) (out_classifications out) m)
        (segments total) /\
  ((m - 1) * step + 3 * sr <= n)%Z.
Proof.
  intros Hsr Hrun n step m total. unfold pipeline in Hrun.
  destruct (analyze_audio fb signal sr 10 [1; 3]) as [[res sr']|e] eqn:Ea;
    [|discriminate].
  cbn [bind] in Hrun.
  destruct (adaptive_threshold res) as [[h d]|e]; [|discriminate].
  cbn [bind] in Hrun.
  destruct (classify_voice res h d) as [cls|e] eqn:Ec; [|discriminate].
  cbn [bind] in Hrun.
  destruct (retroactive_analysis res cls) as [segs|e] eqn:Er; [|discriminate].
  cbn [bind] in Hrun. injection Hrun as <-.
  cbn [out_results out_classifications out_segments].
  assert (H10 : (10 <= sr)%Z).
  { destruct (Z_lt_le_dec sr 10) as [Hlt|Hge]; [|exact Hge].
    rewrite analyze_audio_zero_step in Ea by lia. discriminate. }
  destruct (default_scan_lengths fb signal sr res sr' H10 Ea)
    as [Ht [Hh [Hd Hm]]].
  fold n step in Ht, Hh, Hd, Hm.
  assert (Hpos : (0 < step)%Z) by (apply Z.div_str_pos; lia).
  assert (H5 : (5 <= window_count n (3 * sr) step)%Z).
  { apply (classify_voice_returns_iff res h d _ Hm). now exists cls. }
  pose proof (classify_voice_len res h d cls _ Ec Hm) as Hcls.
  assert (Hfit : (3 * sr + 4 * step <= n)%Z).
  { apply (window_count_ge n (3 * sr) step 5) in H5; lia. }
  assert (E3 : window_count n (3 * sr) step = m).
  { unfold window_count, m.
    destruct (3 * sr <=? n)%Z eqn:E; [reflexivity|apply Z.leb_gt in E; lia]. }
  assert (E1 : window_count n sr step = ((n - sr) / step + 1)%Z).
  { unfold window_count.
    destruct (sr <=? n)%Z eqn:E; [reflexivity|apply Z.leb_gt in E; lia]. }
  assert (Hmono : (m <= (n - sr) / step + 1)%Z).
  { assert ((n - 3 * sr) / step <= (n - sr) / step)%Z
      by (apply Z.div_le_mono; lia).
    unfold m. lia. }
  rewrite E3 in *. rewrite E1 in *.
  assert (Hcommon : common_length res cls = Ok m).
  { unfold common_length. rewrite !lens_of_shape, Hd, Hh, Ht, Hcls.
    cbn [map snd app py_min fold_left]. f_equal. lia. }
  assert (Hindex : index (r_time res) (m - 1) = Ok total).
  { apply index_nonneg; [lia|].
    rewrite (analyze_audio_time_axis fb _ _ _ _ _ _ _ Ea).
    destruct (windows_for_default (len signal) sr) as [W1 _]. rewrite W1.
    rewrite (offsets_explicit _ 1 sr H10), (window_samples_whole 1).
    replace (1 * sr)%Z with sr by lia. fold n step. rewrite E1.
    rewrite map_map, nth_error_map. unfold range, arange.
    rewrite nth_error_map, nth_error_seq.
    destruct (Nat.ltb_spec (Z.to_nat (m - 1)) (Z.to_nat ((n - sr) / step + 1 - 0)));
      [|lia].
    cbn [option_map]. unfold total. do 2 f_equal. lia. }
  split; [exact Hcommon|split; [exact Hindex|split]].
  - unfold retroactive_analysis in Er. rewrite Hcommon in Er. cbn [bind] in Er.
    rewrite Hindex in Er. cbn [bind] in Er. now injection Er as <-.
  - assert (step * ((n - 3 * sr) / step) <= n - 3 * sr)%Z
      by (apply Z.mul_div_le; lia).
    unfold m. nia.
Qed.

Lemma pipeline_segments_span_witness :
  let signal := constant_recording 0 in
  let m := ((len signal - 3 * 16000) / (16000 / 10) + 1)%Z in
  let total := time_of 16000 ((m - 1) * (16000 / 10)) in
  exists out,
    pipeline lstsq_nan signal 16000 = Ok out /\
    common_length (out_results out) (out_classifications out) = Ok m /\
    index (r_time (out_results out)) (m - 1) = Ok total /\
    out_segments out
    = map (segment_summary (out_results out) (out_classifications out) m)
          (segments total) /\
    ((m - 1) * (16000 / 10) + 3 * 16000 <= len signal)%Z.
Proof.
  intros signal m total.
  destruct (constant_recording_is_classified 0%R []) as [out [Hrun _]].
  exists out. split; [exact Hrun|].
  apply (pipeline_segments_span lstsq_nan signal 16000 out); [lia|exact Hrun].
Defined.

(** ** The overall verdict *)

Lemma flagged_cons (b : bool) (cls : list bool) :
  flagged (b :: cls) = ((if b then 1 else 0) + flagged cls)%Z.
Proof.
  unfold flagged, len. cbn [filter]. destruct b; cbn [length]; lia.
Qed.

Lemma flagged_bounds (cls : list bool) : (0 <= flagged cls <= len cls)%Z.
Proof.
  induction cls as [|b cls IH].
  - unfold flagged, len. simpl. lia.
  - rewrite flagged_cons. unfold len in *. cbn [length]. destruct b; lia.
Qed.

Lemma Rsum_of_bool (cls : list bool) :
  Rsum (map (fun b : bool => if b then 1 else 0)%R cls) = IZR (flagged cls).
Proof.
  induction cls as [|b cls IH]; [reflexivity|].
  rewrite flagged_cons, plus_IZR. cbn [map]. unfold Rsum in *. cbn [fold_right].
  rewrite IH. now destruct b.
Qed.

Lemma overall_classification_fraction (cls : list bool) :
  cls <> [] ->
  overall_classification cls = Num (IZR (flagged cls) / IZR (len cls)).
Proof.
  intros Hne. unfold overall_classification.
  assert (E : map of_bool cls = map Num (map (fun b : bool => if b then 1 else 0)%R cls)).
  { rewrite map_map. reflexivity. }
  rewrite E, np_mean_Num by (destruct cls; [contradiction|discriminate]).
  unfold Rmean. now rewrite Rsum_of_bool, len_map.
Qed.

Lemma emit_twice (st : logger) (r1 r2 : log_record) :
  emit (emit st r1) r2 = st ++ [r1; r2].
Proof. unfold emit. now rewrite <- app_assoc. Qed.

Section Verdict.

Variable fb : list xfloat -> list xfloat -> result (float64 * float64).

(** The last two records of a successful run. *)
Lemma stages_log signal sr st out st' :
  Run.stages fb signal sr st = (Ok out, st') ->
  let overall := overall_classification (out_classifications out) in
  (exists log,
     st' = log ++ [Info_overall (ai_generated overall) (confidence overall);
                   Info_completed]) /\
  exists h d, classify_voice (out_results out) h d = Ok (out_classifications out).
Proof.
  unfold Run.stages.
  destruct (Run.analyze_audio fb signal sr 10 [1; 3] st) as [[[res sr']|e] st1];
    [|discriminate].
  destruct (Run.adaptive_threshold res st1) as [[[h d]|e] st2]; [|discriminate].
  pose proof (classify_voice_run res h d st2) as Hc.
  destruct (Run.classify_voice res h d st2) as [[cls|e] st3]; [|discriminate].
  cbn [fst] in Hc.
  destruct (Run.retroactive_analysis res cls st3) as [[segs|e] st4]; [|discriminate].
  cbv zeta. intros [= <- <-]. cbn [out_classifications out_results]. split.
  - eexists. apply emit_twice.
  - now exists h, d.
Qed.

End Verdict.

(** X14: a run of [main] that succeeds ends its log with the overall
    verdict and the completion record.  The classification series has at
    least five entries, so [np.mean] is the fraction [t / n] of flagged
    steps; the label is AI-generated exactly when more than half of the
    steps are flagged (a tie reads as human), and the confidence is
    [max(t, n - t) / n], between 1/2 and 1. *)
Theorem main_overall_verdict
    (fb : list xfloat -> list xfloat -> result (float64 * float64))
    (signal : list R) (sr : Z) (st st' : logger) (out : outputs) :
  Run.main fb signal sr st = (Ok out, st') ->
  let cls := out_classifications out in
  let n := len cls in
  let t := flagged cls in
  exists log c,
    st' = log ++ [Info_overall (ai_generated (overall_classification cls)) (Num c);
                  Info_completed] /\
    (5 <= n)%Z /\ (0 <= t <= n)%Z /\
    overall_classification cls = Num (IZR t / IZR n) /\
    (ai_generated (overall_classification cls) = true <-> (n < 2 * t)%Z) /\
    confidence (overall_classification cls) = Num c /\
    c = (IZR (Z.max t (n - t)) / IZR n)%R /\ (1 / 2 <= c <= 1)%R.
Proof.
  intros Hmain cls n t. unfold Run.main in Hmain.
  destruct (Run.stages fb signal sr (emit st Info_start)) as [[out0|e] st0] eqn:Es;
    [|discriminate].
  injection Hmain as <- <-.
  destruct (stages_log fb _ _ _ _ _ Es) as [[log Hlog] [h [d Hcls]]].
  fold cls in Hlog, Hcls.
  destruct (classify_voice_padded _ _ _ _ Hcls) as [m [final [Hm [Hge _]]]].
  pose proof (classify_voice_len _ _ _ _ m Hcls Hm) as Hlen. fold n in Hlen.
  pose proof (flagged_bounds cls) as Ht. fold t n in Ht.
  assert (Hne : cls <> []).
  { intros E. unfold n in Hlen. rewrite E in Hlen. unfold len in Hlen.
    simpl in Hlen. lia. }
  pose proof (overall_classification_fraction cls Hne) as Hov. fold t n in Hov.
  assert (Hn : (0 < IZR n)%R) by (apply IZR_lt; lia).
  set (x := (IZR t / IZR n)%R) in *.
  assert (Hx : (x * IZR n = IZR t)%R) by (unfold x; field; lra).
  assert (Ht0 : (0 <= IZR t)%R) by (apply IZR_le; lia).
  assert (Ht1 : (IZR t <= IZR n)%R) by (apply IZR_le; lia).
  assert (Hx01 : (0 <= x <= 1)%R) by (split; nra).
  assert (Hconf : confidence (overall_classification cls)
                  = Num (IZR (Z.max t (n - t)) / IZR n)).
  { rewrite Hov. unfold confidence, fsub, lift2, fmax. f_equal.
    destruct (Z.max_spec t (n - t)) as [[Hlt ->]|[Hlt ->]].
    - rewrite Rmax_right.
      + rewrite minus_IZR. unfold x. field. lra.
      + assert (IZR t <= IZR (n - t))%R by (apply IZR_le; lia).
        rewrite minus_IZR in *. nra.
    - rewrite Rmax_left; [reflexivity|].
      assert (IZR (n - t) <= IZR t)%R by (apply IZR_le; lia).
      rewrite minus_IZR in *. nra. }
  exists log, (IZR (Z.max t (n - t)) / IZR n)%R.
  split; [now rewrite <- Hconf|].
  split; [lia|split; [exact Ht|split; [exact Hov|split; [|split; [exact Hconf|split]]]]].
  - rewrite Hov. unfold ai_generated, fgt.
    destruct (Rlt_dec (5 / 10) x) as [H|H]; split; intros H'; try reflexivity;
      try discriminate.
    + apply lt_IZR. rewrite mult_IZR. nra.
    + exfalso. apply H. apply IZR_lt in H'. rewrite mult_IZR in H'. nra.
  - reflexivity.
  - set (c := (IZR (Z.max t (n - t)) / IZR n)%R).
    assert (Hc : (c * IZR n = IZR (Z.max t (n - t)))%R) by (unfold c; field; lra).
    assert (H1 : (IZR n <= 2 * IZR (Z.max t (n - t)))%R).
    { rewrite <- mult_IZR. apply IZR_le. lia. }
    assert (H2 : (IZR (Z.max t (n - t)) <= IZR n)%R) by (apply IZR_le; lia).
    split; nra.
Qed.

Lemma main_overall_verdict_witness :
  let signal := constant_recording 0 in
  exists out st' log c,
    Run.main lstsq_nan signal 16000 [] = (Ok out, st') /\
    st' = log ++ [Info_overall
                    (ai_generated (overall_classification (out_classifications out)))
                    (Num c);
                  Info_completed] /\
    (5 <= len (out_classifications out))%Z /\
    (0 <= flagged (out_classifications out) <= len (out_classifications out))%Z /\
    overall_classification (out_classifications out)
    = Num (IZR (flagged (out_classifications out))
           / IZR (len (out_classifications out))) /\
    (ai_generated (overall_classification (out_classifications out)) = true
     <-> (len (out_classifications out) < 2 * flagged (out_classifications out))%Z) /\
    confidence (overall_classification (out_classifications out)) = Num c /\
    c = (IZR (Z.max (flagged (out_classifications out))
                    (len (out_classifications out)
                     - flagged (out_classifications out)))
         / IZR (len (out_classifications out)))%R /\
    (1 / 2 <= c <= 1)%R.
Proof.
  intros signal.
  destruct (constant_recording_is_classified 0%R []) as [out [_ [Hmain _]]].
  fold signal in Hmain.
  destruct (Run.main lstsq_nan signal 16000 []) as [r st'] eqn:E.
  cbn [fst] in Hmain. subst r.
  destruct (main_overall_verdict lstsq_nan signal 16000 [] st' out E)
    as [log [c H]].
  exists out, st', log, c. split; [reflexivity|exact H].
Defined.

(** ** The table of [save_results_to_csv] *)

Lemma take_rows {A : Type} (l : list A) (m : Z) :
  (0 <= m <= len l)%Z -> len (take l m) = m.
Proof. intros H. unfold take. rewrite length_slice; lia. Qed.

Lemma take_all {A : Type} (l : list A) : take l (len l) = l.
Proof.
  unfold take. rewrite slice_from_zero by (pose proof (len_nonneg l); lia).
  unfold len. rewrite Nat2Z.id. apply firstn_all.
Qed.

Lemma dict_get_in (d : dict) (k : Q) (l : list float64) :
  dict_get d k = Some l -> In l (dict_values d).
Proof.
  unfold dict_get, dict_values.
  destruct (find _ d) as [kv|] eqn:E; [|discriminate].
  cbn [option_map]. intros [= <-]. apply find_some in E as [Hin _].
  now apply in_map.
Qed.

Lemma dict_get_own_key (d : dict) (k : Q) :
  In k (dict_keys d) -> exists l, dict_get d k = Some l.
Proof.
  unfold dict_keys, dict_get. intros Hk. apply in_map_iff in Hk as [kv [<- Hin]].
  destruct (find _ d) as [kv'|] eqn:E; [now eexists|].
  exfalso. pose proof (find_none _ _ E kv Hin) as H. cbn beta in H.
  assert (Qeq_bool (fst kv) (fst kv) = true) by (apply Qeq_bool_iff; reflexivity).
  congruence.
Qed.

Lemma set_column_after (base rest : table) (name : column_name) (col : column) :
  (forall c, In c base -> same_name name (fst c) = false) ->
  set_column (base ++ rest) name col = base ++ set_column rest name col.
Proof.
  intros Hbase. unfold set_column. rewrite existsb_app.
  assert (E : existsb (fun c => same_name name (fst c)) base = false).
  { destruct (existsb _ base) eqn:E; [|reflexivity].
    apply existsb_exists in E as [c [Hin Hc]]. rewrite (Hbase c Hin) in Hc.
    discriminate. }
  rewrite E. cbn [orb].
  destruct (existsb _ rest); [|now rewrite app_assoc].
  rewrite map_app. f_equal. rewrite <- (map_id base) at 2.
  apply map_ext_in. intros c Hin. now rewrite (Hbase c Hin).
Qed.

Lemma set_column_rows (df : table) (name : column_name) (col : column) (m : Z) :
  feature_name name = true -> rows col = m ->
  Forall (fun c => feature_name (fst c) = true /\ rows (snd c) = m) df ->
  Forall (fun c => feature_name (fst c) = true /\ rows (snd c) = m)
         (set_column df name col).
Proof.
  intros Hname Hcol Hdf. unfold set_column.
  destruct (existsb _ df).
  - apply Forall_forall. intros c Hc. apply in_map_iff in Hc as [c0 [<- Hin]].
    rewrite Forall_forall in Hdf. specialize (Hdf c0 Hin).
    destruct (same_name name (fst c0)); [|exact Hdf].
    cbn [fst snd]. now split.
  - apply Forall_app. split; [exact Hdf|]. constructor; [|constructor].
    cbn [fst snd]. now split.
Qed.

Lemma common_length_le_value (res : results) (cls : list bool) (m : Z)
    (l : list float64) :
  common_length res cls = Ok m ->
  In l (dict_values (r_hfd res)) \/ In l (dict_values (r_dfa res)) ->
  (m <= len l)%Z.
Proof.
  unfold common_length. cbn [app py_min]. intros [= <-] Hin.
  apply fold_left_min_le_in. apply in_or_app.
  destruct Hin as [Hin|Hin]; [left|right]; apply in_map_iff; now exists l.
Qed.

Lemma add_feature_columns_spec (res : results) (cls : list bool) (m : Z)
    (base : table) (sizes : list Q) (rest : table) :
  common_length res cls = Ok m -> (0 <= m)%Z ->
  (forall c, In c base -> feature_name (fst c) = false) ->
  (forall size, In size sizes -> In size (dict_keys (r_hfd res))) ->
  Forall (fun c => feature_name (fst c) = true /\ rows (snd c) = m) rest ->
  match add_feature_columns res m sizes (base ++ rest) with
  | Saved df =>
      (exists rest',
          df = base ++ rest' /\
          Forall (fun c => feature_name (fst c) = true /\ rows (snd c) = m) rest') /\
      (forall size, In size sizes -> dict_get (r_dfa res) size <> None)
  | KeyError size => In size sizes /\ dict_get (r_dfa res) size = None
  | Failed _ => False
  end.
Proof.
  intros Hm H0 Hbase. revert rest.
  induction sizes as [|size sizes IH]; intros rest Hkeys Hrest.
  - cbn [add_feature_columns]. split; [now exists rest|intros size []].
  - cbn [add_feature_columns].
    destruct (dict_get_own_key (r_hfd res) size (Hkeys size (or_introl eq_refl)))
      as [hfd Hhfd].
    rewrite Hhfd.
    destruct (dict_get (r_dfa res) size) as [dfa|] eqn:Hdfa;
      [|split; [now left|assumption]].
    assert (Hnames : forall name, feature_name name = true ->
                       forall c, In c base -> same_name name (fst c) = false).
    { intros name Hname c Hc. specialize (Hbase c Hc).
      destruct name, (fst c); try reflexivity; discriminate. }
    rewrite !set_column_after by (apply Hnames; reflexivity).
    assert (Hh : rows (Values (take hfd m)) = m).
    { cbn [rows]. apply take_rows. split; [exact H0|].
      apply (common_length_le_value res cls); [exact Hm|left].
      now apply (dict_get_in _ size). }
    assert (Hd : rows (Values (take dfa m)) = m).
    { cbn [rows]. apply take_rows. split; [exact H0|].
      apply (common_length_le_value res cls); [exact Hm|right].
      now apply (dict_get_in _ size). }
    specialize (IH (set_column (set_column rest (HFD size) (Values (take hfd m)))
                               (DFA size) (Values (take dfa m)))).
    destruct (add_feature_columns res m sizes _) as [df|k|e].
    + destruct IH as [Hdf Hall].
      * intros k Hk. apply Hkeys. now right.
      * apply set_column_rows; [reflexivity|exact Hd|].
        apply set_column_rows; [reflexivity|exact Hh|exact Hrest].
      * split; [exact Hdf|]. intros k [<-|Hk]; [congruence|now apply Hall].
    + destruct IH as [Hin Hnone].
      * intros k' Hk. apply Hkeys. now right.
      * apply set_column_rows; [reflexivity|exact Hd|].
        apply set_column_rows; [reflexivity|exact Hh|exact Hrest].
      * split; [now right|exact Hnone].
    + apply IH.
      * intros k Hk. apply Hkeys. now right.
      * apply set_column_rows; [reflexivity|exact Hd|].
        apply set_column_rows; [reflexivity|exact Hh|exact Hrest].
Qed.

(** X15: the frame that [save_results_to_csv] builds never has columns
    of different lengths: it starts with the time axis and the
    classification series cut to the common length, and every column, a
    feature series cut likewise, has exactly that many rows.  The only
    way the construction fails is the [KeyError] of a size that is a key
    of [results['hfd']] and not of [results['dfa']]. *)
Theorem save_results_to_csv_cases (res : results) (cls : list bool) :
  exists m,
    common_length res cls = Ok m /\
    match save_results_to_csv res cls with
    | Saved df =>
        (exists rest,
            df = (Time, Times (take (r_time res) m))
                 :: (Classification, Flags (take cls m)) :: rest) /\
        (forall name col, In (name, col) df -> rows col = m) /\
        (forall size, In size (dict_keys (r_hfd res)) ->
                      dict_get (r_dfa res) size <> None)
    | KeyError size =>
        In size (dict_keys (r_hfd res)) /\ dict_get (r_dfa res) size = None
    | Failed _ => False
    end.
Proof.
  destruct (common_length_bounds res cls) as [m [Hm [Hbound Hcls]]].
  exists m. split; [exact Hm|].
  unfold save_results_to_csv. rewrite Hm. cbv zeta.
  set (base := [(Time, Times (take (r_time res) m));
                (Classification, Flags (take cls m))]).
  pose proof (add_feature_columns_spec res cls m base (dict_keys (r_hfd res)) []
                Hm (proj1 Hbound)) as H.
  rewrite app_nil_r in H.
  destruct (add_feature_columns res m (dict_keys (r_hfd res)) base) as [df|k|e].
  - destruct H as [[rest [-> Hrest]] Hall]; try (now constructor || now auto).
    + intros c [<-|[<-|[]]]; reflexivity.
    + split; [now exists rest|split; [|exact Hall]].
      intros name col Hin. cbn [app] in Hin.
      destruct Hin as [[= <- <-]|[[= <- <-]|Hin]].
      * cbn [rows]. apply take_rows. lia.
      * cbn [rows]. apply take_rows. lia.
      * rewrite Forall_forall in Hrest. now apply (Hrest (name, col)).
  - apply H; try (now constructor || now auto).
    intros c [<-|[<-|[]]]; reflexivity.
  - apply H; try (now constructor || now auto).
    intros c [<-|[<-|[]]]; reflexivity.
Qed.

(** ** The table of a default run *)

Lemma shape_two (d : dict) (k1 k2 : Q) (c1 c2 : nat) :
  shape d = [(k1, c1); (k2, c2)] ->
  exists l1 l2, d = [(k1, l1); (k2, l2)] /\ length l1 = c1 /\ length l2 = c2.
Proof.
  destruct d as [|[a l1] [|[b l2] [|]]]; try discriminate.
  cbn [shape map fst snd]. intros [= -> <- -> <-]. now exists l1, l2.
Qed.

(** X16: in a default run that returns, [save_results_to_csv] does not
    fail, and the table has the columns Time, Classification, HFD_1s,
    DFA_1s, HFD_3s, DFA_3s, in this order, with one row for each of the
    [m] three-second windows.  The series of the one-second windows,
    longer by [(n - sr) // step - (n - 3 * sr) // step] values, are cut
    to their first [m]; nothing is cut from the three-second series and
    from the classification series. *)
Theorem pipeline_csv_table
    (fb : list xfloat -> list xfloat -> result (float64 * float64))
    (signal : list R) (sr : Z) (out : outputs) :
  (0 <= sr)%Z -> pipeline fb signal sr = Ok out ->
  let n := len signal in
  let step := (sr / 10)%Z in
  let m := ((n - 3 * sr) / step + 1)%Z in
  let res := out_results out in
  exists h1 h3 d1 d3,
    r_hfd res = [(1, h1); (3, h3)] /\ r_dfa res = [(1, d1); (3, d3)] /\
    len h1 = ((n - sr) / step + 1)%Z /\ len d1 = len h1 /\
    len h3 = m /\ len d3 = m /\ (m <= len h1)%Z /\
    save_results_to_csv res (out_classifications out)
    = Saved [(Time, Times (take (r_time res) m));
             (Classification, Flags (out_classifications out));
             (HFD 1, Values (take h1 m)); (DFA 1, Values (take d1 m));
             (HFD 3, Values h3); (DFA 3, Values d3)].
Proof.
  intros Hsr Hrun n step m res0. unfold pipeline in Hrun.
  destruct (analyze_audio fb signal sr 10 [1; 3]) as [[res sr']|e] eqn:Ea;
    [|discriminate].
  cbn [bind] in Hrun.
  destruct (adaptive_threshold res) as [[h d]|e]; [|discriminate].
  cbn [bind] in Hrun.
  destruct (classify_voice res h d) as [cls|e] eqn:Ec; [|discriminate].
  cbn [bind] in Hrun.
  destruct (retroactive_analysis res cls) as [segs|e] eqn:Er; [|discriminate].
  cbn [bind] in Hrun. injection Hrun as <-. subst res0.
  cbn [out_results out_classifications].
  assert (H10 : (10 <= sr)%Z).
  { destruct (Z_lt_le_dec sr 10) as [Hlt|Hge]; [|exact Hge].
    rewrite analyze_audio_zero_step in Ea by lia. discriminate. }
  destruct (default_scan_lengths fb signal sr res sr' H10 Ea)
    as [Ht [Hh [Hd Hm]]].
  fold n step in Ht, Hh, Hd, Hm.
  assert (Hpos : (0 < step)%Z) by (apply Z.div_str_pos; lia).
  assert (H5 : (5 <= window_count n (3 * sr) step)%Z).
  { apply (classify_voice_returns_iff res h d _ Hm). now exists cls. }
  pose proof (classify_voice_len res h d cls _ Ec Hm) as Hcls.
  assert (Hfit : (3 * sr + 4 * step <= n)%Z).
  { apply (window_count_ge n (3 * sr) step 5) in H5; lia. }
  assert (E3 : window_count n (3 * sr) step = m).
  { unfold window_count, m.
    destruct (3 * sr <=? n)%Z eqn:E; [reflexivity|apply Z.leb_gt in E; lia]. }
  assert (E1 : window_count n sr step = ((n - sr) / step + 1)%Z).
  { unfold window_count.
    destruct (sr <=? n)%Z eqn:E; [reflexivity|apply Z.leb_gt in E; lia]. }
  assert (Hmono : (m <= (n - sr) / step + 1)%Z).
  { assert ((n - 3 * sr) / step <= (n - sr) / step)%Z
      by (apply Z.div_le_mono; lia).
    unfold m. lia. }
  rewrite E3 in *. rewrite E1 in *.
  rewrite Hh in Hd.
  destruct (shape_two _ _ _ _ _ Hh) as [h1 [h3 [Eh [Lh1 Lh3]]]].
  destruct (shape_two _ _ _ _ _ Hd) as [d1 [d3 [Ed [Ld1 Ld3]]]].
  exists h1, h3, d1, d3.
  assert (Hh1 : len h1 = ((n - sr) / step + 1)%Z) by (unfold len; lia).
  assert (Hd1 : len d1 = len h1) by (unfold len; lia).
  assert (Hh3 : len h3 = m) by (unfold len; lia).
  assert (Hd3 : len d3 = m) by (unfold len; lia).
  split; [exact Eh|split; [exact Ed|split; [exact Hh1|split; [exact Hd1|]]]].
  split; [exact Hh3|split; [exact Hd3|split; [lia|]]].
  assert (Hcommon : common_length res cls = Ok m).
  { unfold common_length. rewrite !lens_of_shape, Hd, Hh, Ht, Hcls.
    cbn [map snd app py_min fold_left]. f_equal. lia. }
  unfold save_results_to_csv. rewrite Hcommon. cbv zeta.
  clear Ea Ec Er Hm Ht Hh Hd Hcommon.
  destruct res as [time hfd dfa]. cbn [r_time r_hfd r_dfa] in *. subst hfd dfa.
  cbn [dict_keys map fst add_feature_columns r_hfd r_dfa].
  change (dict_get [(1, h1); (3, h3)] 1) with (Some h1).
  change (dict_get [(1, d1); (3, d3)] 1) with (Some d1).
  change (dict_get [(1, h1); (3, h3)] 3) with (Some h3).
  change (dict_get [(1, d1); (3, d3)] 3) with (Some d3).
  cbv iota beta.
  replace (take cls m) with cls by (rewrite <- Hcls; symmetry; apply take_all).
  replace (take h3 m) with h3 by (rewrite <- Hh3; symmetry; apply take_all).
  replace (take d3 m) with d3 by (rewrite <- Hd3; symmetry; apply take_all).
  reflexivity.
Qed.

Lemma pipeline_csv_table_witness :
  let signal := constant_recording 0 in
  let n := len signal in
  let m := ((n - 3 * 16000) / (16000 / 10) + 1)%Z in
  exists out h1 h3 d1 d3,
    pipeline lstsq_nan signal 16000 = Ok out /\
    r_hfd (out_results out) = [(1, h1); (3, h3)] /\
    r_dfa (out_results out) = [(1, d1); (3, d3)] /\
    len h1 = ((n - 16000) / (16000 / 10) + 1)%Z /\ len d1 = len h1 /\
    len h3 = m /\ len d3 = m /\ (m <= len h1)%Z /\
    save_results_to_csv (out_results out) (out_classifications out)
    = Saved [(Time, Times (take (r_time (out_results out)) m));
             (Classification, Flags (out_classifications out));
             (HFD 1, Values (take h1 m)); (DFA 1, Values (take d1 m));
             (HFD 3, Values h3); (DFA 3, Values d3)].
Proof.
  intros signal n m.
  destruct (constant_recording_is_classified 0%R []) as [out [Hrun _]].
  destruct (pipeline_csv_table lstsq_nan signal 16000 out ltac:(lia) Hrun)
    as [h1 [h3 [d1 [d3 H]]]].
  exists out, h1, h3, d1, d3. split; [exact Hrun|exact H].
Defined.

(** ** The spans shaded by [plot_results] *)

Lemma nth_arange (a b : Z) (i : nat) (d : Z) :
  (i < Z.to_nat (b - a))%nat -> nth i (arange a b) d = (a + Z.of_nat i)%Z.
Proof.
  intros Hi. apply nth_error_nth. unfold arange.
  rewrite nth_error_map, nth_error_seq.
  destruct (Nat.ltb_spec i (Z.to_nat (b - a))); [reflexivity|lia].
Qed.

Lemma index_nth {A : Type} (l : list A) (i : Z) (d : A) :
  (0 <= i < len l)%Z -> index l i = Ok (nth (Z.to_nat i) l d).
Proof.
  intros Hi. apply index_nonneg; [lia|].
  apply nth_error_nth'. unfold len in Hi. lia.
Qed.

Lemma nth_take {A : Type} (l : list A) (m : Z) (i : nat) (d : A) :
  (0 <= m <= len l)%Z -> (Z.of_nat i < m)%Z -> nth i (take l m) d = nth i l d.
Proof.
  intros Hm Hi. unfold take. rewrite slice_from_zero by assumption.
  rewrite nth_firstn. destruct (Nat.ltb_spec i (Z.to_nat m)); [reflexivity|lia].
Qed.

Lemma In_shaded_steps (cls : list bool) (m i : Z) :
  (0 <= m <= len cls)%Z ->
  In i (shaded_steps cls m)
  <-> (0 <= i < m)%Z /\ nth (Z.to_nat i) cls false = true.
Proof.
  intros Hm. unfold shaded_steps, enumerate.
  rewrite (take_rows cls m Hm).
  assert (Hlen : length (range m) = length (take cls m)).
  { apply Nat2Z.inj. fold (len (range m)). fold (len (take cls m)).
    rewrite len_range, take_rows; lia. }
  assert (Hr : length (range m) = Z.to_nat m).
  { unfold range. rewrite arange_length. f_equal. lia. }
  split.
  - intros Hin. apply in_map_iff in Hin as [[j b] [Hj Hin]].
    cbn [fst] in Hj. subst j. apply filter_In in Hin as [Hin Hb].
    cbn [snd] in Hb. subst b.
    destruct (In_nth _ _ (0%Z, false) Hin) as [k [Hk Hnth]].
    rewrite length_combine, <- Hlen, Nat.min_id, Hr in Hk.
    rewrite combine_nth in Hnth by exact Hlen.
    injection Hnth as Hi Hb. unfold range in Hi.
    rewrite nth_arange in Hi by lia. subst i.
    rewrite nth_take in Hb by lia.
    split; [lia|]. now rewrite Z.add_0_l, Nat2Z.id.
  - intros [Hi Hb]. apply in_map_iff. exists (i, true). split; [reflexivity|].
    apply filter_In. split; [|reflexivity].
    assert (E : nth (Z.to_nat i) (combine (range m) (take cls m)) (0%Z, false)
                = (i, true)).
    { rewrite combine_nth by exact Hlen. unfold range.
      rewrite nth_arange, nth_take by lia. rewrite Hb. f_equal. lia. }
    rewrite <- E. apply nth_In.
    rewrite length_combine, <- Hlen, Nat.min_id, Hr. lia.
Qed.

(** X17: the shading loop of [plot_results] never indexes outside the
    time axis.  Each of the first [min_length] time steps that is
    classified as AI-generated gets one span, from its own time stamp to
    the next one; the span of the last step, [i = min_length - 1], runs
    from [time[i]] to [time[i]], so a flag on the last step leaves no
    visible mark. *)
Theorem plot_results_spans (res : results) (cls : list bool) :
  exists m,
    common_length res cls = Ok m /\
    (forall i, In i (shaded_steps cls m)
               <-> (0 <= i < m)%Z /\ nth (Z.to_nat i) cls false = true) /\
    let t i := nth (Z.to_nat i) (r_time res) 0 in
    shaded_spans res cls
    = Ok (map (fun i => (t i, if (i + 1 <? m)%Z then t (i + 1)%Z else t i))
              (shaded_steps cls m)).
Proof.
  destruct (common_length_bounds res cls) as [m [Hm [Hbound Hcls]]].
  exists m. split; [exact Hm|].
  assert (Hsteps : forall i, In i (shaded_steps cls m)
                             <-> (0 <= i < m)%Z /\ nth (Z.to_nat i) cls false = true).
  { intros i. apply In_shaded_steps. lia. }
  split; [exact Hsteps|].
  intros t. unfold shaded_spans. rewrite Hm. cbn [bind].
  unfold shaded_steps. rewrite map_map.
  apply map_result_ok. intros [i b] Hin. cbn [fst].
  assert (Hi : (0 <= i < m)%Z).
  { apply (Hsteps i). unfold shaded_steps. apply in_map_iff. now exists (i, b). }
  unfold span_at. rewrite (index_nth _ i 0) by lia. cbn [bind].
  destruct (i + 1 <? m)%Z eqn:E.
  - apply Z.ltb_lt in E. rewrite (index_nth _ (i + 1) 0) by lia. reflexivity.
  - apply Z.ltb_ge in E. rewrite (index_nth _ (m - 1) 0) by lia. cbn [bind].
    unfold t. do 3 f_equal. lia.
Qed.

(** ** The classification match of [compare_files] *)

Lemma flagged_all (l : list bool) :
  flagged l = len l <-> forall b, In b l -> b = true.
Proof.
  induction l as [|b l IH].
  - split; [intros _ b []|reflexivity].
  - rewrite flagged_cons. pose proof (flagged_bounds l) as Hb.
    unfold len in *. cbn [length]. split.
    + intros H b' [<-|Hin].
      * destruct b; [reflexivity|lia].
      * apply IH; [destruct b; lia|exact Hin].
    + intros H. rewrite (H b (or_introl eq_refl)).
      assert (flagged l = Z.of_nat (length l))
        by (apply IH; intros b' Hb'; apply H; now right).
      lia.
Qed.

Lemma equal_rows_all (c1 c2 : list bool) :
  length c1 = length c2 ->
  (forall b, In b (map (fun p => Bool.eqb (fst p) (snd p)) (combine c1 c2)) ->
             b = true)
  <-> c1 = c2.
Proof.
  revert c2. induction c1 as [|x c1 IH]; intros [|y c2] Hlen; try discriminate.
  - split; [reflexivity|intros _ b []].
  - injection Hlen as Hlen. cbn [combine map fst snd]. split.
    + intros H. f_equal.
      * apply eqb_prop. apply H. now left.
      * apply (IH c2 Hlen). intros b Hb. apply H. now right.
    + intros [= -> ->] b [<-|Hb]; [apply eqb_reflx|].
      now apply (IH c2 Hlen).
Qed.

Lemma equal_rows_sym (c1 c2 : list bool) :
  map (fun p => Bool.eqb (fst p) (snd p)) (combine c1 c2)
  = map (fun p => Bool.eqb (fst p) (snd p)) (combine c2 c1).
Proof.
  revert c2. induction c1 as [|x c1 IH]; intros [|y c2]; try reflexivity.
  cbn [combine map fst snd]. rewrite IH. f_equal. now destruct x, y.
Qed.

(** X18: the classification match computed by [compare_files] is
    symmetric in the two files and looks only at the rows that both
    have.  It is [nan] when one of the tables has no row; otherwise it
    is the percentage [100 * agreeing / rows] over the common rows,
    between 0 and 100, and it is 100 exactly when the two classification
    columns agree on all of them. *)
Theorem classification_match_cases (c1 c2 : list bool) :
  let m := Z.min (len c1) (len c2) in
  let equal := map (fun p => Bool.eqb (fst p) (snd p))
                   (combine (take c1 m) (take c2 m)) in
  classification_match c1 c2 = classification_match c2 c1 /\
  classification_match c1 c2 = classification_match (take c1 m) (take c2 m) /\
  len equal = m /\
  (m = 0%Z -> classification_match c1 c2 = NaN) /\
  ((0 < m)%Z ->
   exists p,
     classification_match c1 c2 = Num p /\
     p = (IZR (flagged equal) / IZR m * 100)%R /\ (0 <= p <= 100)%R /\
     (p = 100%R <-> take c1 m = take c2 m)).
Proof.
  intros m equal.
  pose proof (len_nonneg c1) as H1. pose proof (len_nonneg c2) as H2.
  assert (Hm : (0 <= m)%Z) by (unfold m; lia).
  assert (L1 : len (take c1 m) = m) by (apply take_rows; unfold m; lia).
  assert (L2 : len (take c2 m) = m) by (apply take_rows; unfold m; lia).
  assert (Hlen : length (take c1 m) = length (take c2 m)).
  { apply Nat2Z.inj. fold (len (take c1 m)). fold (len (take c2 m)). lia. }
  assert (Heq : len equal = m).
  { unfold equal, len. rewrite length_map, length_combine, <- Hlen, Nat.min_id.
    exact L1. }
  split; [|split; [|split; [exact Heq|split]]].
  - unfold classification_match. cbv zeta.
    rewrite (Z.min_comm (len c2) (len c1)). fold m.
    now rewrite equal_rows_sym.
  - unfold classification_match. cbv zeta. fold m. rewrite L1, L2, Z.min_id.
    assert (T1 : take (take c1 m) m = take c1 m)
      by (rewrite <- L1 at 2; apply take_all).
    assert (T2 : take (take c2 m) m = take c2 m)
      by (rewrite <- L2 at 2; apply take_all).
    now rewrite T1, T2.
  - intros E0. unfold classification_match. cbv zeta. fold m. fold equal.
    destruct equal as [|b l]; [reflexivity|].
    unfold len in Heq. cbn [length] in Heq. lia.
  - intros Hpos. unfold classification_match. cbv zeta. fold m. fold equal.
    assert (Hne : equal <> []).
    { intros E. rewrite E in Heq. unfold len in Heq. simpl in Heq. lia. }
    pose proof (overall_classification_fraction equal Hne) as Hov.
    unfold overall_classification in Hov. rewrite Hov, Heq.
    cbn [fmul lift2]. eexists. split; [reflexivity|split; [reflexivity|]].
    pose proof (flagged_bounds equal) as Hb. rewrite Heq in Hb.
    assert (Hn : (0 < IZR m)%R) by (apply IZR_lt; lia).
    assert (Ht0 : (0 <= IZR (flagged equal))%R) by (apply IZR_le; lia).
    assert (Ht1 : (IZR (flagged equal) <= IZR m)%R) by (apply IZR_le; lia).
    set (x := (IZR (flagged equal) / IZR m)%R).
    assert (Hx : (x * IZR m = IZR (flagged equal))%R) by (unfold x; field; lra).
    split; [split; nra|].
    rewrite <- (equal_rows_all _ _ Hlen). fold equal.
    rewrite <- flagged_all, Heq. split.
    + intros E. apply eq_IZR. nra.
    + intros E. rewrite E in Hx. nra.
Qed.
